(** * rulio [core/context.go]: the request-scoped [Context]

    A shallow embedding of [core/context.go].  Go objects live in a heap
    of [Context] records indexed by address, a [*Context] is an optional
    address ([None] is the nil pointer), and every method is a function of
    the program state that returns, panics, or blocks on a mutex.  Calls
    into the collaborators ([Logger], [Tracer]) are recorded in an event
    trace.  Maps are objects of their own, referenced from the [Context]
    fields, so that sharing a map between two contexts can be expressed. *)

From stdpp Require Import base option numbers strings pretty gmap fin_maps.

Open Scope string_scope.
Set Warnings "-register-all".

(** ** Values *)

(** [*Location]: the address of a [Location] object, [None] for nil. *)
Definition LocPtr := option nat.

(** An [interface{}] value: [VNil] is the nil interface, every other
    constructor carries a value of one dynamic type.  [VLoc p] is a
    [*Location] (a nil pointer of that type is [VLoc None], which is not
    the nil interface). *)
Inductive Value : Type :=
| VNil
| VBool (b : bool)
| VInt (z : Z)
| VStr (s : string)
| VLoc (p : LocPtr)
| VSlice (l : list Value).

(** The dynamic type of an interface value, [None] for the nil interface. *)
Inductive GoType := TBool | TInt | TString | TLocPtr | TSlice.

Definition dyn_type (v : Value) : option GoType :=
  match v with
  | VNil => None
  | VBool _ => Some TBool
  | VInt _ => Some TInt
  | VStr _ => Some TString
  | VLoc _ => Some TLocPtr
  | VSlice _ => Some TSlice
  end.

Global Instance GoType_eq_dec : EqDecision GoType.
Proof. solve_decision. Defined.

(** [map[string]interface{}]: a Go map is a reference to a map object,
    [None] for the nil map.  The objects live in the state, so two fields
    holding the same reference share one map. *)
Definition GoMap := option nat.

(** ** Outcomes and the state monad *)

(** How a call ends: it returns [a], it panics with the message [msg], or
    it blocks on a mutex that nothing will release.  A panic carries the
    memory [s] it leaves behind, which is what a caller that recovers from
    the panic goes on with; a function of no state has [unit] there. *)
Inductive result (S A : Type) : Type :=
| Ok (a : A)
| Panic (msg : string) (s : S)
| Blocked.
Arguments Ok {S A} a.
Arguments Panic {S A} msg s.
Arguments Blocked {S A}.

(** ** [sync.RWMutex] *)

Record sync_RWMutex := { writer : bool; readers : nat }.

(** The zero value [sync.RWMutex{}]: unlocked. *)
Definition RWMutex_zero : sync_RWMutex := {| writer := false; readers := 0 |}.

Global Instance sync_RWMutex_eq_dec : EqDecision sync_RWMutex.
Proof. solve_decision. Defined.

Definition mu_Lock (m : sync_RWMutex) : result unit sync_RWMutex :=
  if writer m then Blocked
  else match readers m with
       | O => Ok {| writer := true; readers := 0 |}
       | S _ => Blocked
       end.

Definition mu_Unlock (m : sync_RWMutex) : result unit sync_RWMutex :=
  if writer m then Ok {| writer := false; readers := readers m |}
  else Panic "sync: Unlock of unlocked RWMutex" tt.

Definition mu_RLock (m : sync_RWMutex) : result unit sync_RWMutex :=
  if writer m then Blocked
  else Ok {| writer := false; readers := S (readers m) |}.

Definition mu_RUnlock (m : sync_RWMutex) : result unit sync_RWMutex :=
  match readers m with
  | O => Panic "sync: RUnlock of unlocked RWMutex" tt
  | S n => Ok {| writer := writer m; readers := n |}
  end.

(** ** [sync/atomic.Value] *)

(** The slot holds the last stored interface value, [VNil] before the
    first store.  [Store] panics on the nil interface and on a value whose
    dynamic type differs from the one stored first. *)
Definition atomic_Store (slot x : Value) : result unit Value :=
  match dyn_type x with
  | None => Panic "sync/atomic: store of nil value into Value" tt
  | Some tx =>
      match dyn_type slot with
      | None => Ok x
      | Some ts =>
          if decide (ts = tx) then Ok x
          else Panic "sync/atomic: store of inconsistently typed value into Value"
                 tt
      end
  end.

Definition atomic_Load (slot : Value) : Value := slot.

(** The type assertion of [v] to a [*Location], in its two-result form. *)
Definition assert_LocPtr (v : Value) : LocPtr * bool :=
  match v with
  | VLoc p => (p, true)
  | _ => (None, false)
  end.

(** ** The [Context] struct *)

(** Modelled from the spec: [LogLevel], "an enumerated log level"; its
    declaration and its constants are in another file of package [core]. *)
Definition LogLevel := Z.

(** The collaborators are opaque to this file: an interface or pointer
    value is the identity of the object behind it, [None] for nil. *)
Definition LoggerRef := nat.
Definition TracerRef := nat.

(** [context.Context]: an opaque token. *)
Inductive context_Context := ctx_nil | ctx_Background | ctx_other (n : nat).

Record Context := {
  RWMutex : sync_RWMutex;
  Ctx : context_Context;
  id : string;
  Verbosity : LogLevel;
  location : Value;
  ReadKey : string;
  WriteKey : string;
  LogAccumulator : option nat;
  LogAccumulatorLevel : LogLevel;
  LogHook : option nat;
  PointHook : option nat;
  App : option nat;
  Tracer : option TracerRef;
  Logger : option LoggerRef;
  props : GoMap;
  logProps : GoMap;
  privilege : string
}.

(** The zero value [Context{}]. *)
Definition Context_zero : Context :=
  {| RWMutex := RWMutex_zero; Ctx := ctx_nil; id := ""; Verbosity := 0%Z;
     location := VNil; ReadKey := ""; WriteKey := "";
     LogAccumulator := None; LogAccumulatorLevel := 0%Z; LogHook := None;
     PointHook := None; App := None; Tracer := None; Logger := None;
     props := None; logProps := None; privilege := "" |}.

(** Field assignments. *)
Definition set_RWMutex (x : sync_RWMutex) (c : Context) : Context :=
  {| RWMutex := x; Ctx := Ctx c; id := id c; Verbosity := Verbosity c;
     location := location c; ReadKey := ReadKey c; WriteKey := WriteKey c;
     LogAccumulator := LogAccumulator c;
     LogAccumulatorLevel := LogAccumulatorLevel c; LogHook := LogHook c;
     PointHook := PointHook c; App := App c; Tracer := Tracer c;
     Logger := Logger c; props := props c; logProps := logProps c;
     privilege := privilege c |}.

Definition set_id (x : string) (c : Context) : Context :=
  {| RWMutex := RWMutex c; Ctx := Ctx c; id := x; Verbosity := Verbosity c;
     location := location c; ReadKey := ReadKey c; WriteKey := WriteKey c;
     LogAccumulator := LogAccumulator c;
     LogAccumulatorLevel := LogAccumulatorLevel c; LogHook := LogHook c;
     PointHook := PointHook c; App := App c; Tracer := Tracer c;
     Logger := Logger c; props := props c; logProps := logProps c;
     privilege := privilege c |}.

Definition set_Verbosity (x : LogLevel) (c : Context) : Context :=
  {| RWMutex := RWMutex c; Ctx := Ctx c; id := id c; Verbosity := x;
     location := location c; ReadKey := ReadKey c; WriteKey := WriteKey c;
     LogAccumulator := LogAccumulator c;
     LogAccumulatorLevel := LogAccumulatorLevel c; LogHook := LogHook c;
     PointHook := PointHook c; App := App c; Tracer := Tracer c;
     Logger := Logger c; props := props c; logProps := logProps c;
     privilege := privilege c |}.

Definition set_location (x : Value) (c : Context) : Context :=
  {| RWMutex := RWMutex c; Ctx := Ctx c; id := id c; Verbosity := Verbosity c;
     location := x; ReadKey := ReadKey c; WriteKey := WriteKey c;
     LogAccumulator := LogAccumulator c;
     LogAccumulatorLevel := LogAccumulatorLevel c; LogHook := LogHook c;
     PointHook := PointHook c; App := App c; Tracer := Tracer c;
     Logger := Logger c; props := props c; logProps := logProps c;
     privilege := privilege c |}.

Definition set_LogAccumulatorLevel (x : LogLevel) (c : Context) : Context :=
  {| RWMutex := RWMutex c; Ctx := Ctx c; id := id c; Verbosity := Verbosity c;
     location := location c; ReadKey := ReadKey c; WriteKey := WriteKey c;
     LogAccumulator := LogAccumulator c;
     LogAccumulatorLevel := x; LogHook := LogHook c;
     PointHook := PointHook c; App := App c; Tracer := Tracer c;
     Logger := Logger c; props := props c; logProps := logProps c;
     privilege := privilege c |}.

Definition set_Tracer (x : option TracerRef) (c : Context) : Context :=
  {| RWMutex := RWMutex c; Ctx := Ctx c; id := id c; Verbosity := Verbosity c;
     location := location c; ReadKey := ReadKey c; WriteKey := WriteKey c;
     LogAccumulator := LogAccumulator c;
     LogAccumulatorLevel := LogAccumulatorLevel c; LogHook := LogHook c;
     PointHook := PointHook c; App := App c; Tracer := x;
     Logger := Logger c; props := props c; logProps := logProps c;
     privilege := privilege c |}.

Definition set_Logger (x : option LoggerRef) (c : Context) : Context :=
  {| RWMutex := RWMutex c; Ctx := Ctx c; id := id c; Verbosity := Verbosity c;
     location := location c; ReadKey := ReadKey c; WriteKey := WriteKey c;
     LogAccumulator := LogAccumulator c;
     LogAccumulatorLevel := LogAccumulatorLevel c; LogHook := LogHook c;
     PointHook := PointHook c; App := App c; Tracer := Tracer c;
     Logger := x; props := props c; logProps := logProps c;
     privilege := privilege c |}.

Definition set_props (x : GoMap) (c : Context) : Context :=
  {| RWMutex := RWMutex c; Ctx := Ctx c; id := id c; Verbosity := Verbosity c;
     location := location c; ReadKey := ReadKey c; WriteKey := WriteKey c;
     LogAccumulator := LogAccumulator c;
     LogAccumulatorLevel := LogAccumulatorLevel c; LogHook := LogHook c;
     PointHook := PointHook c; App := App c; Tracer := Tracer c;
     Logger := Logger c; props := x; logProps := logProps c;
     privilege := privilege c |}.

Definition set_logProps (x : GoMap) (c : Context) : Context :=
  {| RWMutex := RWMutex c; Ctx := Ctx c; id := id c; Verbosity := Verbosity c;
     location := location c; ReadKey := ReadKey c; WriteKey := WriteKey c;
     LogAccumulator := LogAccumulator c;
     LogAccumulatorLevel := LogAccumulatorLevel c; LogHook := LogHook c;
     PointHook := PointHook c; App := App c; Tracer := Tracer c;
     Logger := Logger c; props := props c; logProps := x;
     privilege := privilege c |}.

Definition set_privilege (x : string) (c : Context) : Context :=
  {| RWMutex := RWMutex c; Ctx := Ctx c; id := id c; Verbosity := Verbosity c;
     location := location c; ReadKey := ReadKey c; WriteKey := WriteKey c;
     LogAccumulator := LogAccumulator c;
     LogAccumulatorLevel := LogAccumulatorLevel c; LogHook := LogHook c;
     PointHook := PointHook c; App := App c; Tracer := Tracer c;
     Logger := Logger c; props := props c; logProps := logProps c;
     privilege := x |}.

(** ** Program state *)

(** A [*Context]: an address in the heap, [None] for nil. *)
Definition addr := nat.
Definition ptr := option addr.

Inductive LogTarget := DefaultLogger | AttachedLogger (l : LoggerRef).

(** A call into a collaborator, with the arguments as the call site
    writes them ([EvLog]: the arguments after the level). *)
Inductive Event :=
| EvLog (target : LogTarget) (level : LogLevel) (args : list Value)
| EvStartSpan (t : TracerRef) (ctx : ptr) (opName : string)
| EvStopSpan (t : TracerRef) (ctx : ptr).

(** The program state: the [Context] objects, the map objects, how many
    ids the generator has handed out, and the calls made into the
    collaborators so far. *)
Record State := {
  heap : gmap addr Context;
  maps : gmap nat (gmap string Value);
  uuid_calls : nat;
  trace : list Event
}.

Definition with_heap (h : gmap addr Context) (st : State) : State :=
  {| heap := h; maps := maps st; uuid_calls := uuid_calls st;
     trace := trace st |}.

Definition with_maps (m : gmap nat (gmap string Value)) (st : State) : State :=
  {| heap := heap st; maps := m; uuid_calls := uuid_calls st;
     trace := trace st |}.

Definition M (A : Type) : Type := State → result State (A * State).

Definition ret {A} (a : A) : M A := λ st, Ok (a, st).

Definition bind {A B} (m : M A) (k : A → M B) : M B := λ st,
  match m st with
  | Ok (a, st') => k a st'
  | Panic msg st' => Panic msg st'
  | Blocked => Blocked
  end.

Global Instance M_ret : MRet M := @ret.
Global Instance M_bind : MBind M := λ A B k m, bind m k.

(** A result computed without the state: a panic leaves the memory as
    it is. *)
Definition lift {A} (r : result unit A) : M A := λ st,
  match r with
  | Ok a => Ok (a, st)
  | Panic msg _ => Panic msg st
  | Blocked => Blocked
  end.

Definition nil_deref : string :=
  "runtime error: invalid memory address or nil pointer dereference".

(** Reading through a pointer, [*c]. *)
Definition deref (c : ptr) : M Context := λ st,
  match c with
  | Some a =>
      match heap st !! a with
      | Some x => Ok (x, st)
      | None => Panic nil_deref st
      end
  | None => Panic nil_deref st
  end.

(** Writing a field through a pointer. *)
Definition assign (c : ptr) (f : Context → Context) : M unit := λ st,
  match c with
  | Some a =>
      match heap st !! a with
      | Some x => Ok (tt, with_heap (<[a := f x]> (heap st)) st)
      | None => Panic nil_deref st
      end
  | None => Panic nil_deref st
  end.

(** An address not in use: one past the largest one in use. *)
Definition fresh_addr {V} (h : gmap nat V) : nat :=
  S (map_fold (λ a _ m, a `max` m) 0 h).

(** [&Context{...}]: a new object. *)
Definition new (x : Context) : M ptr := λ st,
  let a := fresh_addr (heap st) in
  Ok (Some a, with_heap (<[a := x]> (heap st)) st).

Definition emit (e : Event) : M unit := λ st,
  Ok (tt, {| heap := heap st; maps := maps st; uuid_calls := uuid_calls st;
             trace := trace st ++ [e] |}).

(** [make(map[string]interface{})]: a new, empty map object. *)
Definition make_map : M GoMap := λ st,
  let r := fresh_addr (maps st) in
  Ok (Some r, with_maps (<[r := ∅]> (maps st)) st).

(** [m[k]]: the zero value, the nil interface, when [k] is missing or [m]
    is the nil map. *)
Definition map_index (m : GoMap) (k : string) : M Value := λ st,
  match m with
  | Some r =>
      match maps st !! r with
      | Some g => Ok (default VNil (g !! k), st)
      | None => Panic nil_deref st
      end
  | None => Ok (VNil, st)
  end.

(** [m[k] = v]: panics on the nil map. *)
Definition map_assign (m : GoMap) (k : string) (v : Value) : M unit := λ st,
  match m with
  | Some r =>
      match maps st !! r with
      | Some g => Ok (tt, with_maps (<[r := <[k := v]> g]> (maps st)) st)
      | None => Panic nil_deref st
      end
  | None => Panic "assignment to entry in nil map" st
  end.

(** The entries a [range] over [m] visits: none for the nil map. *)
Definition map_entries (m : GoMap) : M (list (string * Value)) := λ st,
  match m with
  | Some r =>
      match maps st !! r with
      | Some g => Ok (map_to_list g, st)
      | None => Panic nil_deref st
      end
  | None => Ok ([], st)
  end.

(** A [for ... range] loop over the entries [l]. *)
Fixpoint for_range {A} (l : list A) (body : A → M unit) : M unit :=
  match l with
  | [] => mret tt
  | x :: l' => body x;; for_range l' body
  end.

(** The embedded mutex's methods, promoted to [*Context]. *)
Definition Lock (c : ptr) : M unit :=
  x ← deref c; m ← lift (mu_Lock (RWMutex x)); assign c (set_RWMutex m).
Definition Unlock (c : ptr) : M unit :=
  x ← deref c; m ← lift (mu_Unlock (RWMutex x)); assign c (set_RWMutex m).
Definition RLock (c : ptr) : M unit :=
  x ← deref c; m ← lift (mu_RLock (RWMutex x)); assign c (set_RWMutex m).
Definition RUnlock (c : ptr) : M unit :=
  x ← deref c; m ← lift (mu_RUnlock (RWMutex x)); assign c (set_RWMutex m).

(** The memory once [Lock] has returned on the context [x] at [a]: a
    writer holds its mutex. *)
Definition write_locked (a : addr) (x : Context) (st : State) : State :=
  with_heap (<[a := set_RWMutex {| writer := true; readers := 0 |} x]>
               (heap st)) st.

(** [var NoContext = &Context{}]: the package starts with this one object
    in memory, at address 0. *)
Definition NoContext : ptr := Some 0.

Definition initial_state : State :=
  {| heap := {[ 0 := Context_zero ]}; maps := ∅; uuid_calls := 0;
     trace := [] |}.

(** The value and the final state of a run, when it returns. *)
Definition value_of {A} (r : result State (A * State)) : option A :=
  match r with Ok (a, _) => Some a | _ => None end.

Definition state_of {A} (r : result State (A * State)) : option State :=
  match r with Ok (_, st) => Some st | _ => None end.

(** ** The calls a client can make *)

(** One constructor for each function and method of the file, with its
    arguments; [init] and [newContext] are left out, which the file calls
    on the object it is building and nowhere else. *)
Inductive CoreOp :=
| OpProp (c : ptr) (prop : string)
| OpAddProp (c : ptr) (prop : string) (val : Value)
| OpSetLoc (c : ptr) (loc : LocPtr)
| OpGetLoc (c : ptr)
| OpSetLogValue (c : ptr) (name : string) (val : Value)
| OpId (c : ptr)
| OpGrantPrivilege (c : ptr) (region : string)
| OpRevokePrivilege (c : ptr)
| OpIsPrivileged (c : ptr) (region : string)
| OpNewContext (prefix : string)
| OpSubContext (c : ptr)
| OpStartSpan (c : ptr) (opName : string)
| OpStopSpan (c : ptr)
| OpLog (c : ptr) (level : LogLevel) (op : string) (args : list Value)
| OpLocation (c : ptr)
| OpSetValue (c : ptr) (name : string) (val : Value)
| OpAddValue (c : ptr) (name : string) (val : Value)
| OpTestContext (prefix : string)
| OpBenchContext (appId : string).

(** ** A concrete environment *)

(** An id generator that numbers its calls. *)
Definition seq_UUID (n : nat) : string := "uuid-" +:+ pretty n.

(** A tracer that notes the operation name in the [logProps] of the
    context it is handed, and does nothing when the span stops. *)
Definition stub_StartSpan (t : TracerRef) (c : ptr) (opName : string)
    (hm : gmap addr Context * gmap nat (gmap string Value)) :
    gmap addr Context * gmap nat (gmap string Value) :=
  match c with
  | Some a =>
      match hm.1 !! a with
      | Some x =>
          match logProps x with
          | Some r =>
              match hm.2 !! r with
              | Some g => (hm.1, <[r := <["span" := VStr opName]> g]> hm.2)
              | None => hm
              end
          | None => hm
          end
      | None => hm
      end
  | None => hm
  end.

Definition stub_StopSpan (t : TracerRef) (c : ptr)
    (hm : gmap addr Context * gmap nat (gmap string Value)) :
    gmap addr Context * gmap nat (gmap string Value) := hm.

(** The context [NewContext("app")] builds first, with verbosity levels 0,
    and the memory it leaves. *)
Definition app_context : Context :=
  {| RWMutex := RWMutex_zero; Ctx := ctx_Background; id := "uuid-0";
     Verbosity := 0%Z; location := VNil; ReadKey := ""; WriteKey := "";
     LogAccumulator := None; LogAccumulatorLevel := 0%Z; LogHook := None;
     PointHook := None; App := None; Tracer := None; Logger := None;
     props := Some 2; logProps := Some 1; privilege := "" |}.

Definition app_state : State :=
  {| heap := {[ 0 := Context_zero; 1 := app_context ]};
     maps := {[ 1 := {[ "appId" := VStr "app" ]}; 2 := ∅ ]};
     uuid_calls := 1; trace := [] |}.

(** The same memory once the client has attached tracer 7 to the
    context, by [ctx.Tracer = t]. *)
Definition traced_state : State :=
  {| heap := {[ 0 := Context_zero; 1 := set_Tracer (Some 7) app_context ]};
     maps := {[ 1 := {[ "appId" := VStr "app" ]}; 2 := ∅ ]};
     uuid_calls := 1; trace := [] |}.

(** The memory of [app_state] while a writer holds the mutex of the
    context, after [ctx.Lock()], and while one reader holds it, after
    [ctx.RLock()]. *)
Definition write_locked_state : State :=
  {| heap := {[ 0 := Context_zero;
                1 := set_RWMutex {| writer := true; readers := 0 |}
                       app_context ]};
     maps := {[ 1 := {[ "appId" := VStr "app" ]}; 2 := ∅ ]};
     uuid_calls := 1; trace := [] |}.

Definition read_locked_state : State :=
  {| heap := {[ 0 := Context_zero;
                1 := set_RWMutex {| writer := false; readers := 1 |}
                       app_context ]};
     maps := {[ 1 := {[ "appId" := VStr "app" ]}; 2 := ∅ ]};
     uuid_calls := 1; trace := [] |}.

(** A run of calls on the contexts at addresses 1 to 4, every function
    and method once; none of them grants a privilege to the context at
    address 1. *)
Definition sample_calls : list CoreOp :=
  [ OpAddProp (Some 1) "k" (VInt 1); OpStartSpan (Some 1) "op";
    OpSetLoc (Some 2) (Some 4); OpGrantPrivilege (Some 2) "R";
    OpStopSpan (Some 2); OpRevokePrivilege (Some 1);
    OpLog None 1%Z "op" []; OpSubContext (Some 2);
    OpSetLogValue (Some 3) "a" VNil; OpNewContext "b";
    OpProp (Some 4) "k"; OpIsPrivileged (Some 1) "";
    OpId (Some 3); OpGetLoc (Some 2); OpLocation (Some 2);
    OpSetValue (Some 3) "s" (VBool true); OpAddValue (Some 4) "t" (VInt 2);
    OpTestContext "t"; OpBenchContext "bench" ].

(** A run in which calls panic, for a client that recovers from each:
    calls on the nil pointer and a [SetLogValue] on [NoContext], whose
    maps are nil, among calls that return. *)
Definition panicking_calls : list CoreOp :=
  [ OpId None; OpSetLogValue NoContext "k" VNil; OpSubContext (Some 1);
    OpAddProp None "k" VNil; OpStartSpan (Some 2) "op"; OpLocation None;
    OpGrantPrivilege (Some 1) "R"; OpSetValue (Some 3) "k" (VInt 1);
    OpStopSpan None; OpBenchContext "bench"; OpProp NoContext "k" ].

(** The same run followed by an [AddValue] on [NoContext], whose panic
    leaves the write lock of [NoContext] held, and by two calls that take
    no lock. *)
Definition leaking_calls : list CoreOp :=
  (panicking_calls ++
   [ OpAddValue NoContext "k" VNil; OpId (Some 1); OpGetLoc NoContext ])%list.

(** ** The methods of [core/context.go] *)

Section core.

(** [UUID()], declared elsewhere in the package: [UUID n] is what its
    call number [n] returns. *)
Variable UUID : nat → string.

(** Constants of package [core] declared in other files. *)
Variables DefaultVerbosity ANYWARN NOTHING : LogLevel.
Variable BenchLogger : option LoggerRef.

(** What the attached tracer's [StartSpan] and [StopSpan] do to the
    memory they can reach through the context handed to them. *)
Variable tracer_StartSpan :
  TracerRef → ptr → string →
  gmap addr Context * gmap nat (gmap string Value) →
  gmap addr Context * gmap nat (gmap string Value).
Variable tracer_StopSpan :
  TracerRef → ptr →
  gmap addr Context * gmap nat (gmap string Value) →
  gmap addr Context * gmap nat (gmap string Value).

Definition call_UUID : M string := λ st,
  Ok (UUID (uuid_calls st),
      {| heap := heap st; maps := maps st;
         uuid_calls := S (uuid_calls st); trace := trace st |}).

(** A call of a collaborator's method: the call is recorded, and the
    tracer's effect on the memory is applied. *)
Definition call_Logger_Log (target : LogTarget) (level : LogLevel)
    (args : list Value) : M unit :=
  emit (EvLog target level args).

Definition call_Tracer_StartSpan (t : TracerRef) (ctx : ptr)
    (opName : string) : M unit := λ st,
  let '(h, m) := tracer_StartSpan t ctx opName (heap st, maps st) in
  Ok (tt, {| heap := h; maps := m; uuid_calls := uuid_calls st;
             trace := trace st ++ [EvStartSpan t ctx opName] |}).

Definition call_Tracer_StopSpan (t : TracerRef) (ctx : ptr) : M unit :=
  λ st,
  let '(h, m) := tracer_StopSpan t ctx (heap st, maps st) in
  Ok (tt, {| heap := h; maps := m; uuid_calls := uuid_calls st;
             trace := trace st ++ [EvStopSpan t ctx] |}).

Definition SetLoc (c : ptr) (loc : LocPtr) : M LocPtr :=
  x ← deref c;
  v ← lift (atomic_Store (location x) (VLoc loc));
  assign c (set_location v);;
  mret loc.

Definition GetLoc (c : ptr) : M LocPtr :=
  x ← deref c;
  let '(loc, ok) := assert_LocPtr (atomic_Load (location x)) in
  if ok then mret loc else mret None.

Definition Location (c : ptr) : M LocPtr := GetLoc c.

Definition Prop_ (c : ptr) (prop : string) : M Value :=
  RLock c;;
  x ← deref c;
  v ← map_index (props x) prop;
  RUnlock c;;
  mret v.

Definition AddProp (c : ptr) (prop : string) (val : Value) : M unit :=
  Lock c;;
  x ← deref c;
  map_assign (props x) prop val;;
  Unlock c.

Definition SetValue (c : ptr) (name : string) (val : Value) : M unit :=
  AddProp c name val.

Definition AddValue (c : ptr) (name : string) (val : Value) : M unit :=
  AddProp c name val.

Definition Id (c : ptr) : M string :=
  x ← deref c; mret (id x).

Definition grantPrivilege (c : ptr) (region : string) : M unit :=
  Lock c;;
  assign c (set_privilege region);;
  Unlock c.

Definition revokePrivilege (c : ptr) : M unit :=
  Lock c;;
  assign c (set_privilege "");;
  Unlock c.

Definition isPrivileged (c : ptr) (region : string) : M bool :=
  RLock c;;
  x ← deref c;
  let is_ := bool_decide (privilege x = region) in
  RUnlock c;;
  mret is_.

Definition init (ctx : ptr) : M ptr :=
  u ← call_UUID;
  assign ctx (set_id u);;
  x ← deref ctx;
  (if logProps x is None
   then m ← make_map; assign ctx (set_logProps m)
   else mret tt);;
  x ← deref ctx;
  (if props x is None
   then m ← make_map; assign ctx (set_props m)
   else mret tt);;
  mret ctx.

Definition newContext (appId : string) : M ptr :=
  ctx ← new {| RWMutex := RWMutex_zero; Ctx := ctx_Background; id := "";
               Verbosity := DefaultVerbosity; location := VNil;
               ReadKey := ""; WriteKey := ""; LogAccumulator := None;
               LogAccumulatorLevel := ANYWARN; LogHook := None;
               PointHook := None; App := None; Tracer := None;
               Logger := None; props := None; logProps := None;
               privilege := "" |};
  init ctx;;
  x ← deref ctx;
  map_assign (logProps x) "appId" (VStr appId);;
  mret ctx.

Definition NewContext (prefix : string) : M ptr := newContext prefix.
Definition TestContext (prefix : string) : M ptr := newContext prefix.

Definition SetLogValue (ctx : ptr) (name : string) (val : Value) : M unit :=
  x ← deref ctx;
  map_assign (logProps x) name val.

Definition SubContext (ctx : ptr) : M ptr :=
  RLock ctx;;
  x ← deref ctx;
  sub ← new {| RWMutex := RWMutex_zero; Ctx := Ctx x; id := "";
               Verbosity := Verbosity x; location := VNil;
               ReadKey := ReadKey x; WriteKey := WriteKey x;
               LogAccumulator := LogAccumulator x;
               LogAccumulatorLevel := LogAccumulatorLevel x;
               LogHook := LogHook x; PointHook := PointHook x;
               App := App x; Tracer := Tracer x; Logger := Logger x;
               props := None; logProps := None;
               privilege := privilege x |};
  loc ← GetLoc ctx;
  SetLoc sub loc;;
  init sub;;
  x ← deref ctx;
  entries ← map_entries (props x);
  for_range entries (λ '(p, v),
    s ← deref sub; map_assign (props s) p v);;
  x ← deref ctx;
  entries ← map_entries (logProps x);
  for_range entries (λ '(p, v),
    s ← deref sub; map_assign (logProps s) p v);;
  RUnlock ctx;;
  mret sub.

Definition StartSpan (ctx : ptr) (opName : string) : M ptr :=
  ctx ← SubContext ctx;
  x ← deref ctx;
  (if Tracer x is Some t
   then call_Tracer_StartSpan t ctx opName
   else mret tt);;
  mret ctx.

Definition StopSpan (ctx : ptr) : M unit :=
  x ← deref ctx;
  if Tracer x is Some t
  then call_Tracer_StopSpan t ctx
  else mret tt.

Definition BenchContext (appId : string) : M ptr :=
  ctx ← newContext appId;
  assign ctx (set_Verbosity NOTHING);;
  assign ctx (set_Logger BenchLogger);;
  assign ctx (set_LogAccumulatorLevel NOTHING);;
  mret ctx.

Definition Log (ctx : ptr) (level : LogLevel) (op : string)
    (args : list Value) : M unit :=
  match ctx with
  | None => call_Logger_Log DefaultLogger level [VSlice args]
  | Some _ =>
      x ← deref ctx;
      match Logger x with
      | None => call_Logger_Log DefaultLogger level [VSlice args]
      | Some l => call_Logger_Log (AttachedLogger l) level
                    [VStr op; VSlice args]
      end
  end.

(** One call, its result dropped. *)
Definition run_op (o : CoreOp) : M unit :=
  match o with
  | OpProp c prop => Prop_ c prop;; mret tt
  | OpAddProp c prop val => AddProp c prop val
  | OpSetLoc c loc => SetLoc c loc;; mret tt
  | OpGetLoc c => GetLoc c;; mret tt
  | OpSetLogValue c name val => SetLogValue c name val
  | OpId c => Id c;; mret tt
  | OpGrantPrivilege c region => grantPrivilege c region
  | OpRevokePrivilege c => revokePrivilege c
  | OpIsPrivileged c region => isPrivileged c region;; mret tt
  | OpNewContext prefix => NewContext prefix;; mret tt
  | OpSubContext c => SubContext c;; mret tt
  | OpStartSpan c opName => StartSpan c opName;; mret tt
  | OpStopSpan c => StopSpan c
  | OpLog c level op args => Log c level op args
  | OpLocation c => Location c;; mret tt
  | OpSetValue c name val => SetValue c name val
  | OpAddValue c name val => AddValue c name val
  | OpTestContext prefix => TestContext prefix;; mret tt
  | OpBenchContext appId => BenchContext appId;; mret tt
  end.

(** A run of calls: a panic ends it, as it ends a program that does not
    recover, and the run then panics with the memory that call left. *)
Fixpoint run_ops (l : list CoreOp) : M unit :=
  match l with
  | [] => mret tt
  | o :: l' => run_op o;; run_ops l'
  end.

(** A call made under [defer] and [recover]: a panic ends the call, and
    the caller goes on with the memory the panic left. *)
Definition recovered (m : M unit) : M unit := λ st,
  match m st with
  | Ok r => Ok r
  | Panic _ st' => Ok (tt, st')
  | Blocked => Blocked
  end.

(** A run of calls by a client that recovers from every panic and goes
    on with the next call. *)
Fixpoint run_ops_recovering (l : list CoreOp) : M unit :=
  match l with
  | [] => mret tt
  | o :: l' => recovered (run_op o);; run_ops_recovering l'
  end.

(** [constructed st c st1]: [c] is the context that a constructor or a
    fork, called in [st], has just returned, leaving [st1]. *)
Definition constructed (st : State) (c : ptr) (st1 : State) : Prop :=
  (∃ prefix, NewContext prefix st = Ok (c, st1)) ∨
  (∃ prefix, TestContext prefix st = Ok (c, st1)) ∨
  (∃ appId, BenchContext appId st = Ok (c, st1)) ∨
  (∃ parent, SubContext parent st = Ok (c, st1)) ∨
  (∃ parent opName, StartSpan parent opName st = Ok (c, st1)).

(** The context a call writes a property to: the receiver of [AddProp]
    and of the two methods that call it. *)
Definition props_writer (o : CoreOp) : option ptr :=
  match o with
  | OpAddProp c _ _ | OpSetValue c _ _ | OpAddValue c _ _ => Some c
  | _ => None
  end.

(** Whether the call [o], made in [st], writes a property to a context
    whose [props] map is nil. *)
Definition writes_nil_map (o : CoreOp) (st : State) : bool :=
  match props_writer o with
  | Some (Some a) =>
      match heap st !! a with
      | Some x => bool_decide (props x = None)
      | None => false
      end
  | _ => false
  end.

(** Whether no call of the run [l], made from [st] by a client that
    recovers from panics, writes a property to a context whose [props]
    map is nil at the time of the call. *)
Fixpoint no_nil_map_write (l : list CoreOp) (st : State) : bool :=
  match l with
  | [] => true
  | o :: l' =>
      negb (writes_nil_map o st) &&
      match recovered (run_op o) st with
      | Ok (_, st') => no_nil_map_write l' st'
      | _ => true
      end
  end.

(** ** Well-formed memory *)

(** A map reference is nil or refers to a map object. *)
Definition map_ok (ms : gmap nat (gmap string Value)) (m : GoMap) : Prop :=
  match m with
  | Some r => is_Some (ms !! r)
  | None => True
  end.

(** Go has no dangling references: the map fields of every context
    refer to map objects. *)
Definition valid (st : State) : Prop :=
  ∀ a x, heap st !! a = Some x →
    map_ok (maps st) (props x) ∧ map_ok (maps st) (logProps x).

(** The content of the map behind a reference, empty for nil. *)
Definition map_content (ms : gmap nat (gmap string Value)) (m : GoMap) :
    gmap string Value :=
  match m with
  | Some r => default ∅ (ms !! r)
  | None => ∅
  end.

(** What a [range] loop that assigns every visited entry builds from
    [g]. *)
Definition copy_entries (g : gmap string Value)
    (l : list (string * Value)) : gmap string Value :=
  foldl (λ acc '(p, v), <[p := v]> acc) g l.

(** ** The objects the constructors build *)

(** What [newContext] leaves at the new address: [u] is the id drawn,
    [lp] and [p] are the new [logProps] and [props] maps. *)
Definition fresh_context (u : string) (lp p : nat) : Context :=
  {| RWMutex := RWMutex_zero; Ctx := ctx_Background; id := u;
     Verbosity := DefaultVerbosity; location := VNil;
     ReadKey := ""; WriteKey := ""; LogAccumulator := None;
     LogAccumulatorLevel := ANYWARN; LogHook := None;
     PointHook := None; App := None; Tracer := None;
     Logger := None; props := Some p; logProps := Some lp;
     privilege := "" |}.

(** What [SubContext] leaves at the new address when forking [x]. *)
Definition forked_context (x : Context) (u : string) (lp p : nat) : Context :=
  {| RWMutex := RWMutex_zero; Ctx := Ctx x; id := u;
     Verbosity := Verbosity x;
     location := VLoc (assert_LocPtr (location x)).1;
     ReadKey := ReadKey x; WriteKey := WriteKey x;
     LogAccumulator := LogAccumulator x;
     LogAccumulatorLevel := LogAccumulatorLevel x;
     LogHook := LogHook x; PointHook := PointHook x;
     App := App x; Tracer := Tracer x; Logger := Logger x;
     props := Some p; logProps := Some lp;
     privilege := privilege x |}.

(** ** Identifiers *)

(** [s] is an id the generator has handed out in [st]. *)
Definition issued (st : State) (s : string) : Prop :=
  ∃ i, i < uuid_calls st ∧ s = UUID i.

(** Every id in memory is the zero value, never set, or was handed out
    by the generator: only [init] assigns the field [id]. *)
Definition ids_issued (st : State) : Prop :=
  ∀ a x, heap st !! a = Some x → id x = "" ∨ issued st (id x).

(** Whether a key contains a dot. *)
Fixpoint has_dot (s : string) : bool :=
  match s with
  | EmptyString => false
  | String c s' => bool_decide (c = Ascii.ascii_of_nat 46) || has_dot s'
  end.

(** The contract of the id generator: every call returns a non-empty
    string, and no two calls return the same one. *)
Hypothesis UUID_nonempty : ∀ n, UUID n ≠ "".
Hypothesis UUID_distinct : ∀ i j, UUID i = UUID j → i = j.

(** ** The tracer's contract *)

(** The part of a context a tracer leaves alone: the mutex, the id, the
    privilege and the tracer attached. *)
Definition sealed (x : Context) :
    sync_RWMutex * string * string * option TracerRef :=
  (RWMutex x, id x, privilege x, Tracer x).

Definition valid_mem (h : gmap addr Context)
    (ms : gmap nat (gmap string Value)) : Prop :=
  ∀ a x, h !! a = Some x → map_ok ms (props x) ∧ map_ok ms (logProps x).

(** A tracer method may change the memory it is handed, the child's
    maps and exported fields for one, but it creates and removes no
    context, leaves the sealed part of every context as it is, and
    leaves no dangling map reference. *)
Definition respectful
    (f : gmap addr Context * gmap nat (gmap string Value) →
         gmap addr Context * gmap nat (gmap string Value)) : Prop :=
  ∀ h ms,
    (∀ a, sealed <$> (f (h, ms)).1 !! a = sealed <$> h !! a) ∧
    (valid_mem h ms → valid_mem (f (h, ms)).1 (f (h, ms)).2).

(** The state after a tracer call: the call is appended to the trace and
    the tracer's effect replaces the memory. *)
Definition traced
    (f : gmap addr Context * gmap nat (gmap string Value) →
         gmap addr Context * gmap nat (gmap string Value))
    (e : Event) (st : State) : State :=
  {| heap := (f (heap st, maps st)).1; maps := (f (heap st, maps st)).2;
     uuid_calls := uuid_calls st; trace := trace st ++ [e] |}.

Hypothesis tracer_StartSpan_respectful :
  ∀ t c opName, respectful (tracer_StartSpan t c opName).
Hypothesis tracer_StopSpan_respectful :
  ∀ t c, respectful (tracer_StopSpan t c).

(** ** What a call leaves in place *)

(** How the call [o] relates the memory before and after it: no
    dangling reference appears, the generator only moves forward, every
    context in memory stays, with its id and with its mutex as it was
    before the call, and with its privilege unless the call grants it
    one or revokes it, which leaves the empty string, and every context
    the call adds carries an id handed out during the call. *)
Definition frame (o : CoreOp) (st st' : State) : Prop :=
  valid st' ∧ (uuid_calls st ≤ uuid_calls st')%nat ∧
  (∀ a x, heap st !! a = Some x →
     ∃ x', heap st' !! a = Some x' ∧ id x' = id x ∧
           RWMutex x' = RWMutex x ∧
           (privilege x' = privilege x ∨
            (o = OpRevokePrivilege (Some a) ∧ privilege x' = "") ∨
            ∃ r, o = OpGrantPrivilege (Some a) r)) ∧
  (∀ a x', heap st !! a = None → heap st' !! a = Some x' →
     ∃ i, (uuid_calls st ≤ i < uuid_calls st')%nat ∧ id x' = UUID i).

(** ** Contexts that were never granted a privilege *)

(** [ungranted st a]: in [st], the context at [a] has never received a
    privilege.  It is [NoContext] as the package starts with it, or it was
    built by [NewContext], [TestContext] or [BenchContext], or forked, by
    [SubContext] or [StartSpan], from a parent whose privilege was the
    empty string at that instant (a fork copies the parent's privilege),
    and no [grantPrivilege] has been called on it since, whatever else
    was called, and whether it returned or panicked and the client
    recovered; the one call left out is an [AddProp], [SetValue] or
    [AddValue] on the context itself that panicked, which leaves its
    mutex held, so that [isPrivileged] would block. *)
Inductive ungranted : State → addr → Prop :=
| ungranted_NoContext :
    ungranted initial_state 0
| ungranted_new prefix st a st' :
    valid st →
    NewContext prefix st = Ok (Some a, st') →
    ungranted st' a
| ungranted_test prefix st a st' :
    valid st →
    TestContext prefix st = Ok (Some a, st') →
    ungranted st' a
| ungranted_bench appId st a st' :
    valid st →
    BenchContext appId st = Ok (Some a, st') →
    ungranted st' a
| ungranted_fork st a x b st' :
    valid st → heap st !! a = Some x → privilege x = "" →
    SubContext (Some a) st = Ok (Some b, st') →
    ungranted st' b
| ungranted_span st a x opName b st' :
    valid st → heap st !! a = Some x → privilege x = "" →
    StartSpan (Some a) opName st = Ok (Some b, st') →
    ungranted st' b
| ungranted_step st a o u st' :
    ungranted st a →
    (∀ r, o ≠ OpGrantPrivilege (Some a) r) →
    run_op o st = Ok (u, st') →
    ungranted st' a
| ungranted_panic st a o msg st' :
    ungranted st a →
    props_writer o ≠ Some (Some a) →
    run_op o st = Panic msg st' →
    ungranted st' a.

(** ** The receiver of a call *)

(** The context a call is made on; the three constructors have none. *)
Definition receiver (o : CoreOp) : option ptr :=
  match o with
  | OpProp c _ | OpAddProp c _ _ | OpSetLoc c _ | OpGetLoc c
  | OpSetLogValue c _ _ | OpId c | OpGrantPrivilege c _
  | OpRevokePrivilege c | OpIsPrivileged c _ | OpSubContext c
  | OpStartSpan c _ | OpStopSpan c | OpLog c _ _ _
  | OpLocation c | OpSetValue c _ _ | OpAddValue c _ _ => Some c
  | OpNewContext _ | OpTestContext _ | OpBenchContext _ => None
  end.

(** Whether the call is a [Log]. *)
Definition is_Log (o : CoreOp) : bool :=
  match o with OpLog _ _ _ _ => true | _ => false end.

(** ** Invariants of a sequential client *)

(** Every mutex is free: the state between two calls of a client that
    makes its calls one after the other. *)
Definition all_unlocked (st : State) : Prop :=
  ∀ a x, heap st !! a = Some x → RWMutex x = RWMutex_zero.

(** No two contexts carry the same id. *)
Definition ids_distinct (st : State) : Prop :=
  ∀ a b x y, heap st !! a = Some x → heap st !! b = Some y →
    id x = id y → a = b.

(** A panic has left the write lock of the context at [a] held: its
    mutex has a writer that no call will release, and every other mutex is
    free. *)
Definition lock_leaked (st : State) (a : addr) : Prop :=
  ∃ x, heap st !! a = Some x ∧ props x = None ∧
       RWMutex x = {| writer := true; readers := 0 |} ∧
       ∀ b y, b ≠ a → heap st !! b = Some y → RWMutex y = RWMutex_zero.

(** What a call adds to the memory: it draws at most one id, and adds at
    most one context, whose mutex is free. *)
Definition grows (st st' : State) : Prop :=
  (uuid_calls st' ≤ S (uuid_calls st))%nat ∧
  ∀ a x', heap st !! a = None → heap st' !! a = Some x' →
    RWMutex x' = RWMutex_zero ∧
    ∀ b y', heap st !! b = None → heap st' !! b = Some y' → a = b.

(** ** Helper lemmas *)

Lemma fresh_addr_bound {V} (h : gmap nat V) a :
  is_Some (h !! a) → a < fresh_addr h.
Proof.
  unfold fresh_addr.
  apply (map_fold_weak_ind (λ b (m : gmap nat V), is_Some (m !! a) → a < S b)).
  - rewrite lookup_empty. by intros [? ?].
  - intros i x m r Hi IH. rewrite lookup_insert. case_decide; [lia|].
    intros Ha. specialize (IH Ha). lia.
Qed.

Lemma fresh_addr_None {V} (h : gmap nat V) : h !! fresh_addr h = None.
Proof.
  destruct (h !! fresh_addr h) eqn:E; [|done].
  assert (fresh_addr h < fresh_addr h) by (apply fresh_addr_bound; eauto). lia.
Qed.

Lemma fresh_addr_ne {V} (h : gmap nat V) a :
  is_Some (h !! a) → fresh_addr h ≠ a.
Proof. intros Ha <-. rewrite fresh_addr_None in Ha. by destruct Ha. Qed.

Lemma copy_entries_lookup l : ∀ g k,
  NoDup l.*1 →
  copy_entries g l !! k = (list_to_map l ∪ g) !! k.
Proof.
  induction l as [|[p v] l IH]; intros g k Hnd; simpl.
  - by rewrite (left_id_L ∅ (∪)).
  - rewrite fmap_cons in Hnd. apply NoDup_cons in Hnd as [Hp Hnd'].
    rewrite IH by done.
    rewrite !lookup_union, !lookup_insert.
    case_decide; subst; [|done].
    rewrite (not_elem_of_list_to_map_1 l k Hp). by destruct (g !! k).
Qed.

Lemma copy_entries_map_to_list (g : gmap string Value) :
  copy_entries ∅ (map_to_list g) = g.
Proof.
  apply map_eq. intros k.
  rewrite copy_entries_lookup by apply NoDup_fst_map_to_list.
  by rewrite list_to_map_to_list, (right_id_L ∅ (∪)).
Qed.

Lemma heap_restore (h : gmap addr Context) a x y :
  h !! a = Some x → <[a := x]> (<[a := y]> h) = h.
Proof. intros. rewrite insert_insert_eq. by apply insert_id. Qed.

Lemma relock_heap (h : gmap addr Context) a x m1 m2 :
  h !! a = Some x → RWMutex x = m2 →
  <[a := set_RWMutex m2 (set_RWMutex m1 x)]> (<[a := set_RWMutex m1 x]> h)
  = h.
Proof.
  intros Ha <-. rewrite insert_insert_eq. apply insert_id.
  rewrite Ha. f_equal. by destruct x.
Qed.

Lemma mu_reader_eq x :
  writer (RWMutex x) = false →
  RWMutex x = {| writer := false; readers := readers (RWMutex x) |}.
Proof. destruct x as [[] ?]; simpl. by intros ->. Qed.

Lemma mu_zero_eta x :
  RWMutex x = RWMutex_zero →
  set_RWMutex {| writer := false; readers := 0 |} x = x.
Proof. destruct x as [[] ?]; simpl. by intros [= -> ->]. Qed.

Lemma mu_reader_eta x :
  writer (RWMutex x) = false →
  set_RWMutex {| writer := false; readers := readers (RWMutex x) |} x = x.
Proof. destruct x as [[] ?]; simpl. by intros ->. Qed.

(** ** Symbolic execution of the methods *)

Ltac munfold :=
  unfold Lock, Unlock, RLock, RUnlock in *;
  unfold mbind, M_bind, mret, M_ret, bind, ret, deref, assign, lift,
    with_heap, with_maps, map_assign, map_index, map_entries, emit, new,
    make_map, mu_RLock in *.

Lemma grantPrivilege_ok a x r st :
  heap st !! a = Some x → RWMutex x = RWMutex_zero →
  grantPrivilege (Some a) r st =
    Ok (tt, with_heap (<[a := set_privilege r x]> (heap st)) st).
Proof.
  intros Ha Hmu. unfold grantPrivilege. munfold.
  destruct st as [h ms n tr]; simpl in *.
  repeat (progress (simpl; rewrite ?Ha, ?Hmu, ?lookup_insert_eq)).
  do 3 f_equal. rewrite !insert_insert_eq. f_equal.
  destruct x as [[] ?]; simpl in *. by inversion Hmu.
Qed.

Lemma grantPrivilege_inv c r st u st' :
  grantPrivilege c r st = Ok (u, st') →
  ∃ a x, c = Some a ∧ heap st !! a = Some x ∧ RWMutex x = RWMutex_zero ∧
    st' = with_heap (<[a := set_privilege r x]> (heap st)) st.
Proof.
  intros H.
  destruct c as [a|]; [|done].
  destruct (heap st !! a) as [x|] eqn:Ha;
    [|by unfold grantPrivilege in H; munfold; rewrite Ha in H].
  assert (RWMutex x = RWMutex_zero) as Hmu.
  { unfold grantPrivilege in H; munfold; rewrite Ha in H.
    by destruct (RWMutex x) as [[] [|?]]. }
  rewrite (grantPrivilege_ok a x) in H by done.
  injection H as <-. by exists a, x.
Qed.

Lemma revokePrivilege_grant c st :
  revokePrivilege c st = grantPrivilege c "" st.
Proof. done. Qed.

Lemma isPrivileged_ok a x r st :
  heap st !! a = Some x → writer (RWMutex x) = false →
  isPrivileged (Some a) r st = Ok (bool_decide (privilege x = r), st).
Proof.
  intros Ha Hmu. unfold isPrivileged. munfold.
  repeat (progress (simpl; rewrite ?Ha, ?Hmu, ?lookup_insert_eq)).
  destruct st as [h ms n tr]; simpl in *. do 3 f_equal.
  by apply relock_heap, mu_reader_eq.
Qed.

Lemma Id_ok a x st :
  heap st !! a = Some x → Id (Some a) st = Ok (id x, st).
Proof. intros Ha. unfold Id. munfold. by rewrite Ha. Qed.

Lemma GetLoc_ok a x st :
  heap st !! a = Some x →
  GetLoc (Some a) st = Ok ((assert_LocPtr (location x)).1, st).
Proof.
  intros Ha. unfold GetLoc. munfold. rewrite Ha. unfold atomic_Load.
  by destruct (location x).
Qed.

Lemma SetLoc_ok a x loc st :
  heap st !! a = Some x →
  dyn_type (location x) = None ∨ dyn_type (location x) = Some TLocPtr →
  SetLoc (Some a) loc st =
    Ok (loc, with_heap (<[a := set_location (VLoc loc) x]> (heap st)) st).
Proof.
  intros Ha Hty. unfold SetLoc, atomic_Store. munfold. rewrite Ha. simpl.
  destruct Hty as [-> | ->]; simpl; by rewrite Ha.
Qed.

Lemma Prop_ok a x k st :
  heap st !! a = Some x → writer (RWMutex x) = false →
  map_ok (maps st) (props x) →
  Prop_ (Some a) k st =
    Ok (default VNil (map_content (maps st) (props x) !! k), st).
Proof.
  intros Ha Hmu Hok. unfold Prop_, map_content. munfold.
  destruct st as [h ms n tr]; simpl in *.
  destruct (props x) as [r|] eqn:Hp; simpl in *.
  - destruct Hok as [g Hg].
    repeat (progress (simpl; rewrite ?Ha, ?Hmu, ?Hp, ?Hg, ?lookup_insert_eq)).
    do 3 f_equal. by apply relock_heap, mu_reader_eq.
  - repeat (progress (simpl; rewrite ?Ha, ?Hmu, ?Hp, ?lookup_insert_eq)).
    rewrite lookup_empty. simpl.
    do 3 f_equal. by apply relock_heap, mu_reader_eq.
Qed.

Lemma AddProp_ok a x r g k v st :
  heap st !! a = Some x → RWMutex x = RWMutex_zero →
  props x = Some r → maps st !! r = Some g →
  AddProp (Some a) k v st =
    Ok (tt, with_maps (<[r := <[k := v]> g]> (maps st)) st).
Proof.
  intros Ha Hmu Hp Hr. unfold AddProp. munfold.
  destruct st as [h ms n tr]; simpl in *.
  repeat (progress (simpl; rewrite ?Ha, ?Hmu, ?Hp, ?Hr, ?lookup_insert_eq)).
  do 3 f_equal. by apply relock_heap.
Qed.

Lemma AddProp_inv c k v st u st' :
  AddProp c k v st = Ok (u, st') →
  ∃ a x r g, c = Some a ∧ heap st !! a = Some x ∧
    RWMutex x = RWMutex_zero ∧ props x = Some r ∧ maps st !! r = Some g ∧
    st' = with_maps (<[r := <[k := v]> g]> (maps st)) st.
Proof.
  intros H.
  destruct c as [a|]; [|done].
  destruct (heap st !! a) as [x|] eqn:Ha;
    [|by unfold AddProp in H; munfold; rewrite Ha in H].
  assert (RWMutex x = RWMutex_zero) as Hmu.
  { unfold AddProp in H; munfold; rewrite Ha in H.
    by destruct (RWMutex x) as [[] [|?]]. }
  destruct (props x) as [r|] eqn:Hp; cycle 1.
  { unfold AddProp in H; munfold.
    repeat (progress
      (simpl in H; rewrite ?Ha, ?Hmu, ?Hp, ?lookup_insert_eq in H)).
    done. }
  destruct (maps st !! r) as [g|] eqn:Hr; cycle 1.
  { unfold AddProp in H; munfold.
    repeat (progress
      (simpl in H; rewrite ?Ha, ?Hmu, ?Hp, ?Hr, ?lookup_insert_eq in H)).
    done. }
  rewrite (AddProp_ok a x r g) in H by done.
  injection H as <-. by exists a, x, r, g.
Qed.

Lemma SetLogValue_ok a x r g k v st :
  heap st !! a = Some x → logProps x = Some r → maps st !! r = Some g →
  SetLogValue (Some a) k v st =
    Ok (tt, with_maps (<[r := <[k := v]> g]> (maps st)) st).
Proof.
  intros Ha Hp Hr. unfold SetLogValue. munfold. by rewrite Ha, Hp, Hr.
Qed.

Lemma init_ok a x st :
  heap st !! a = Some x → logProps x = None → props x = None →
  let r1 := fresh_addr (maps st) in
  let r2 := fresh_addr (<[r1 := ∅]> (maps st)) in
  init (Some a) st =
    Ok (Some a,
        {| heap := <[a := set_props (Some r2)
                           (set_logProps (Some r1)
                              (set_id (UUID (uuid_calls st)) x))]> (heap st);
           maps := <[r2 := ∅]> (<[r1 := ∅]> (maps st));
           uuid_calls := S (uuid_calls st);
           trace := trace st |}).
Proof.
  intros Ha Hl Hp. unfold init, call_UUID. munfold.
  destruct st as [h ms n tr]; simpl in *.
  repeat (progress (simpl; rewrite ?Ha, ?Hl, ?Hp, ?lookup_insert_eq)).
  do 3 f_equal. by rewrite !insert_insert_eq.
Qed.

Lemma for_range_assign (fld : Context → GoMap) sub s r : ∀ l g st,
  heap st !! sub = Some s → fld s = Some r → maps st !! r = Some g →
  for_range l (λ '(p, v), s ← deref (Some sub); map_assign (fld s) p v) st
  = Ok (tt, with_maps (<[r := copy_entries g l]> (maps st)) st).
Proof.
  induction l as [|[p v] l IH]; intros g st Hs Hf Hr; simpl.
  - unfold with_maps. rewrite insert_id by done. by destruct st.
  - munfold. rewrite Hs, Hf, Hr. simpl.
    rewrite (IH (<[p := v]> g)); simpl; [|done..|by rewrite lookup_insert_eq].
    by rewrite insert_insert_eq.
Qed.
Lemma fresh_addr_insert_ne {V} (m : gmap nat V) (y : V) :
  fresh_addr (<[fresh_addr m := y]> m) ≠ fresh_addr m.
Proof. apply fresh_addr_ne. rewrite lookup_insert_eq. eauto. Qed.

Lemma newContext_ok appId st :
  let a := fresh_addr (heap st) in
  let r1 := fresh_addr (maps st) in
  let r2 := fresh_addr (<[r1 := ∅]> (maps st)) in
  newContext appId st =
    Ok (Some a,
        {| heap := <[a := fresh_context (UUID (uuid_calls st)) r1 r2]> (heap st);
           maps := <[r1 := {[ "appId" := VStr appId ]}]>
                     (<[r2 := ∅]> (maps st));
           uuid_calls := S (uuid_calls st);
           trace := trace st |}).
Proof.
  intros a r1 r2. unfold newContext.
  unfold mbind at 1, M_bind at 1, bind at 1. unfold new at 1. simpl.
  unfold mbind at 1, M_bind at 1, bind at 1.
  rewrite (init_ok a _) by (simpl; by rewrite ?lookup_insert_eq).
  munfold. simpl. fold a r1 r2.
  repeat (progress (simpl; rewrite ?lookup_insert_eq)).
  rewrite (lookup_insert_ne _ r2 r1) by apply fresh_addr_insert_ne.
  rewrite lookup_insert_eq. simpl.
  unfold with_maps; simpl. do 3 f_equal.
  - by rewrite insert_insert_eq.
  - rewrite insert_empty.
    rewrite (insert_insert_ne _ r1 r2) by (symmetry; apply fresh_addr_insert_ne).
    rewrite insert_insert_eq.
    apply insert_insert_ne, fresh_addr_insert_ne.
Qed.

Lemma bind_ok {A B} (m : M A) (k : A → M B) st a st' :
  m st = Ok (a, st') → (m ≫= k) st = k a st'.
Proof. intros H. unfold mbind, M_bind, bind. by rewrite H. Qed.

Lemma deref_ok a x st : heap st !! a = Some x → deref (Some a) st = Ok (x, st).
Proof. intros H. unfold deref. by rewrite H. Qed.

Lemma RLock_ok a x st :
  heap st !! a = Some x → writer (RWMutex x) = false →
  RLock (Some a) st =
    Ok (tt, with_heap
              (<[a := set_RWMutex {| writer := false;
                                     readers := S (readers (RWMutex x)) |} x]>
                 (heap st)) st).
Proof. intros Ha Hw. munfold. by rewrite Ha, Hw, Ha. Qed.

Lemma RUnlock_ok a x n st :
  heap st !! a = Some x → readers (RWMutex x) = S n →
  RUnlock (Some a) st =
    Ok (tt, with_heap
              (<[a := set_RWMutex {| writer := writer (RWMutex x);
                                     readers := n |} x]>
                 (heap st)) st).
Proof. intros Ha Hr. munfold. unfold mu_RUnlock. by rewrite Ha, Hr, Ha. Qed.

Lemma map_entries_ok m st :
  map_ok (maps st) m →
  map_entries m st = Ok (map_to_list (map_content (maps st) m), st).
Proof.
  unfold map_entries, map_content, map_ok. destruct m as [r|].
  - intros [g ->]. done.
  - intros _. by rewrite map_to_list_empty.
Qed.

Lemma map_ok_insert ms r g m :
  map_ok ms m → map_ok (<[r := g]> ms) m.
Proof.
  destruct m as [r'|]; simpl; [|done]. intros Hm.
  rewrite lookup_insert. by case_decide.
Qed.

Lemma map_content_insert ms r g m :
  ms !! r = None → map_ok ms m →
  map_content (<[r := g]> ms) m = map_content ms m.
Proof.
  destruct m as [r'|]; simpl; [|done]. intros Hr [g' Hg].
  rewrite lookup_insert_ne; [done|]. intros ->. congruence.
Qed.

Lemma SubContext_ok a x st :
  heap st !! a = Some x → writer (RWMutex x) = false →
  map_ok (maps st) (props x) → map_ok (maps st) (logProps x) →
  ∃ a' r1 r2,
    heap st !! a' = None ∧ maps st !! r1 = None ∧ maps st !! r2 = None ∧
    r1 ≠ r2 ∧
    SubContext (Some a) st =
      Ok (Some a',
          {| heap := <[a' := forked_context x (UUID (uuid_calls st)) r1 r2]>
                       (heap st);
             maps := <[r1 := map_content (maps st) (logProps x)]>
                       (<[r2 := map_content (maps st) (props x)]> (maps st));
             uuid_calls := S (uuid_calls st);
             trace := trace st |}).
Proof.
  intros Ha Hw Hp Hl.
  destruct st as [h ms n tr]; simpl in *.
  set (xl := set_RWMutex {| writer := false;
                            readers := S (readers (RWMutex x)) |} x).
  set (h1 := <[a := xl]> h).
  set (a' := fresh_addr h1).
  set (r1 := fresh_addr ms).
  set (r2 := fresh_addr (<[r1 := ∅]> ms)).
  assert (a' ≠ a) as Hne.
  { apply fresh_addr_ne. unfold h1. rewrite lookup_insert_eq. eauto. }
  assert (h !! a' = None) as Ha'.
  { pose proof (fresh_addr_None h1) as H. fold a' in H. unfold h1 in H.
    by rewrite lookup_insert_ne in H. }
  assert (r2 ≠ r1) as Hr by apply fresh_addr_insert_ne.
  assert (ms !! r1 = None) as Hr1 by apply fresh_addr_None.
  assert (ms !! r2 = None) as Hr2.
  { pose proof (fresh_addr_None (<[r1 := ∅]> ms)) as H. fold r2 in H.
    by rewrite lookup_insert_ne in H. }
  exists a', r1, r2. do 3 (split; [done|]). split; [done|].
  unfold SubContext.
  erewrite bind_ok by (by apply RLock_ok).
  erewrite bind_ok by (apply deref_ok; simpl; apply lookup_insert_eq).
  fold xl h1.
  erewrite bind_ok by (unfold new; reflexivity).
  cbn [heap maps uuid_calls trace with_heap with_maps]. fold a'.
  erewrite bind_ok
    by (apply GetLoc_ok; simpl; rewrite lookup_insert_ne by done;
        apply lookup_insert_eq).
  erewrite bind_ok
    by (apply SetLoc_ok; simpl; [apply lookup_insert_eq|by left]).
  cbn [heap maps uuid_calls trace with_heap with_maps].
  rewrite insert_insert_eq.
  erewrite bind_ok by (apply init_ok; simpl; [apply lookup_insert_eq|done..]).
  cbn [heap maps uuid_calls trace with_heap with_maps]. fold r1 r2.
  rewrite insert_insert_eq.
  erewrite bind_ok
    by (apply deref_ok; simpl; rewrite lookup_insert_ne by done;
        apply lookup_insert_eq).
  erewrite bind_ok
    by (apply map_entries_ok; simpl; by do 2 apply map_ok_insert).
  cbn [heap maps uuid_calls trace with_heap with_maps].
  rewrite !map_content_insert
    by (rewrite ?lookup_insert_ne by done; done || by apply map_ok_insert).
  change (fresh_addr (<[a:=xl]> h)) with a'.
  change (props xl) with (props x). change (logProps xl) with (logProps x).
  match goal with
  | |- context [<[a' := ?c]> (<[a := xl]> h)] =>
      change c with (forked_context x (UUID n) r1 r2)
  end.
  erewrite bind_ok
    by (eapply (for_range_assign props); simpl;
        [apply lookup_insert_eq|reflexivity|apply lookup_insert_eq]).
  cbn [heap maps uuid_calls trace with_heap with_maps].
  rewrite copy_entries_map_to_list, insert_insert_eq.
  erewrite bind_ok
    by (apply deref_ok; simpl; rewrite lookup_insert_ne by done;
        apply lookup_insert_eq).
  erewrite bind_ok
    by (apply map_entries_ok; simpl; by do 2 apply map_ok_insert).
  cbn [heap maps uuid_calls trace with_heap with_maps].
  change (logProps xl) with (logProps x).
  rewrite !map_content_insert
    by (rewrite ?lookup_insert_ne by done; done || by apply map_ok_insert).
  erewrite bind_ok
    by (eapply (for_range_assign logProps); simpl;
        [apply lookup_insert_eq|reflexivity
        |rewrite lookup_insert_ne by done; apply lookup_insert_eq]).
  cbn [heap maps uuid_calls trace with_heap with_maps].
  rewrite copy_entries_map_to_list.
  erewrite bind_ok
    by (eapply RUnlock_ok; simpl;
        [rewrite lookup_insert_ne by done; apply lookup_insert_eq
        |reflexivity]).
  unfold mret, M_ret, ret, with_heap, with_maps.
  cbn [heap maps uuid_calls trace]. do 3 f_equal.
  - rewrite (insert_insert_ne _ a a') by done.
    rewrite insert_insert_eq. f_equal. apply insert_id. rewrite Ha. f_equal.
    unfold xl. destruct x as [[] ?]; simpl in *. by subst.
  - rewrite (insert_insert_ne _ r1 r2) by done.
    rewrite insert_insert_eq. by apply insert_insert_ne.
Qed.

(** ** Privilege *)

(** C3 (as amended): the privilege protocol.  On a context whose mutex
    is free, [grantPrivilege r1] returns and [isPrivileged r1] is then
    true; after [revokePrivilege], [isPrivileged r1] is false when [r1]
    is not the empty string, and true when it is; granting [r2 ≠ r1]
    over [r1] makes [isPrivileged r1] false and [isPrivileged r2] true. *)
Theorem privilege_protocol a x r1 r2 st :
  heap st !! a = Some x → RWMutex x = RWMutex_zero → r1 ≠ r2 →
  ∃ st1,
    grantPrivilege (Some a) r1 st = Ok (tt, st1) ∧
    isPrivileged (Some a) r1 st1 = Ok (true, st1) ∧
    (∃ st2, revokePrivilege (Some a) st1 = Ok (tt, st2) ∧
            isPrivileged (Some a) r1 st2 = Ok (bool_decide (r1 = ""), st2)) ∧
    (∃ st3, grantPrivilege (Some a) r2 st1 = Ok (tt, st3) ∧
            isPrivileged (Some a) r1 st3 = Ok (false, st3) ∧
            isPrivileged (Some a) r2 st3 = Ok (true, st3)).
Proof.
  intros Ha Hmu Hne.
  assert (∀ r y (s : State), heap s !! a = Some y → RWMutex y = RWMutex_zero →
            ∃ s', grantPrivilege (Some a) r s = Ok (tt, s') ∧
                  heap s' !! a = Some (set_privilege r y)) as Hgrant.
  { intros r y s Hy Hz. eexists. split; [by apply grantPrivilege_ok|].
    simpl. apply lookup_insert_eq. }
  destruct (Hgrant r1 x st Ha Hmu) as (st1 & Hg1 & Ha1).
  exists st1. split; [done|]. split.
  { rewrite (isPrivileged_ok a _ r1 st1 Ha1) by (simpl; by rewrite Hmu).
    simpl. by rewrite bool_decide_eq_true_2. }
  split.
  - destruct (Hgrant "" _ st1 Ha1 Hmu) as (st2 & Hg2 & Ha2).
    exists st2. split; [done|].
    rewrite (isPrivileged_ok a _ r1 st2 Ha2) by (simpl; by rewrite Hmu).
    simpl. do 2 f_equal. apply bool_decide_ext. naive_solver.
  - destruct (Hgrant r2 _ st1 Ha1 Hmu) as (st3 & Hg3 & Ha3).
    exists st3. split; [done|].
    rewrite !(isPrivileged_ok a _ _ st3 Ha3) by (simpl; by rewrite Hmu).
    simpl. rewrite (bool_decide_eq_true_2 (r2 = r2)) by done.
    by rewrite (bool_decide_eq_false_2 (r2 = r1)) by congruence.
Qed.

(** ** Logging *)

Lemma Log_nil level op args st :
  Log None level op args st =
    Ok (tt, {| heap := heap st; maps := maps st;
               uuid_calls := uuid_calls st;
               trace := trace st ++ [EvLog DefaultLogger level [VSlice args]] |}).
Proof. done. Qed.

Lemma Log_ok a x level op args st :
  heap st !! a = Some x →
  Log (Some a) level op args st =
    Ok (tt, {| heap := heap st; maps := maps st;
               uuid_calls := uuid_calls st;
               trace := trace st ++
                 [match Logger x with
                  | None => EvLog DefaultLogger level [VSlice args]
                  | Some l => EvLog (AttachedLogger l) level
                                [VStr op; VSlice args]
                  end] |}).
Proof.
  intros Ha. unfold Log, call_Logger_Log. munfold. rewrite Ha.
  by destruct (Logger x).
Qed.

(** C10: [Log] on the nil [*Context] returns: the call goes to the
    default logger, and it is the very call that a context with no
    [Logger] attached makes. *)
Theorem Log_nil_receiver a x level op args st :
  heap st !! a = Some x → Logger x = None →
  Log None level op args st =
    Ok (tt, {| heap := heap st; maps := maps st;
               uuid_calls := uuid_calls st;
               trace := trace st ++ [EvLog DefaultLogger level [VSlice args]] |})
  ∧ Log None level op args st = Log (Some a) level op args st.
Proof.
  intros Ha Hl. split; [apply Log_nil|].
  by rewrite Log_nil, (Log_ok a x), Hl.
Qed.

(** ** The location slot *)

(** C4: on a context whose slot is empty or holds a [*Location],
    [SetLoc L] returns [L] and [GetLoc] then returns [L]; [GetLoc] on the
    context [NewContext] has just built returns nil; and [GetLoc] returns
    nil, without failing, whenever the slot does not hold a
    [*Location]. *)
Theorem location_round_trip a x L prefix st :
  heap st !! a = Some x →
  (dyn_type (location x) = None ∨ dyn_type (location x) = Some TLocPtr →
   ∃ st1, SetLoc (Some a) (Some L) st = Ok (Some L, st1) ∧
          GetLoc (Some a) st1 = Ok (Some L, st1)) ∧
  (∃ c st1, NewContext prefix st = Ok (c, st1) ∧
            GetLoc c st1 = Ok (None, st1)) ∧
  (dyn_type (location x) ≠ Some TLocPtr →
   GetLoc (Some a) st = Ok (None, st)).
Proof.
  intros Ha. split; [|split].
  - intros Hty. eexists. split; [by apply SetLoc_ok|].
    by erewrite GetLoc_ok; [|simpl; apply lookup_insert_eq].
  - unfold NewContext. rewrite newContext_ok. do 2 eexists. split; [done|].
    by erewrite GetLoc_ok; [|simpl; apply lookup_insert_eq].
  - intros Hty. rewrite (GetLoc_ok a x) by done.
    by destruct (location x).
Qed.

(** ** Forking *)

Lemma map_content_Some ms r g : ms !! r = Some g → map_content ms (Some r) = g.
Proof. intros H. unfold map_content. by rewrite H. Qed.

(** C8: the privilege is copied by value at the fork.  The child holds
    the parent's privilege of that instant, so [isPrivileged] agrees on
    both for every region; a grant or a revoke on the parent after the
    fork returns and leaves the child, every field of it, and the maps as
    they were, and the same holds with parent and child exchanged. *)
Theorem privilege_copied_at_fork a x st :
  valid st → heap st !! a = Some x → RWMutex x = RWMutex_zero →
  ∃ a' y st1,
    SubContext (Some a) st = Ok (Some a', st1) ∧ a' ≠ a ∧
    heap st1 !! a' = Some y ∧ heap st1 !! a = Some x ∧
    privilege y = privilege x ∧
    (∀ r, ∃ b, isPrivileged (Some a') r st1 = Ok (b, st1) ∧
               isPrivileged (Some a) r st1 = Ok (b, st1)) ∧
    (∀ r, ∃ st2, grantPrivilege (Some a) r st1 = Ok (tt, st2) ∧
                 heap st2 !! a' = Some y ∧ maps st2 = maps st1) ∧
    (∃ st2, revokePrivilege (Some a) st1 = Ok (tt, st2) ∧
            heap st2 !! a' = Some y ∧ maps st2 = maps st1) ∧
    (∀ r, ∃ st2, grantPrivilege (Some a') r st1 = Ok (tt, st2) ∧
                 heap st2 !! a = Some x ∧ maps st2 = maps st1) ∧
    (∃ st2, revokePrivilege (Some a') st1 = Ok (tt, st2) ∧
            heap st2 !! a = Some x ∧ maps st2 = maps st1).
Proof.
  intros Hv Ha Hmu. destruct (Hv a x Ha) as [Hp Hl].
  destruct (SubContext_ok a x st Ha) as (a' & r1 & r2 & Ha' & _ & _ & _ & Hsub);
    [by rewrite Hmu|done..|].
  assert (a' ≠ a) as Hne by congruence.
  match type of Hsub with _ = Ok (_, ?s) => set (st1 := s) in * end.
  assert (heap st1 !! a' =
          Some (forked_context x (UUID (uuid_calls st)) r1 r2)) as Hc
    by apply lookup_insert_eq.
  assert (heap st1 !! a = Some x) as Hx
    by (unfold st1; cbn [heap]; by rewrite lookup_insert_ne).
  exists a', (forked_context x (UUID (uuid_calls st)) r1 r2), st1.
  do 5 (split; [done|]).
  assert (∀ r b z (s : State), heap s !! b = Some z →
            RWMutex z = RWMutex_zero →
            ∃ s', grantPrivilege (Some b) r s = Ok (tt, s') ∧
                  (∀ b', b' ≠ b → heap s' !! b' = heap s !! b') ∧
                  maps s' = maps s) as Hgrant.
  { intros r b z s Hz Hmz. eexists. split; [by apply grantPrivilege_ok|].
    split; [|done]. intros b' Hb. simpl. by apply lookup_insert_ne. }
  split.
  { intros r. eexists.
    rewrite (isPrivileged_ok a' _ r st1 Hc) by done.
    rewrite (isPrivileged_ok a x r st1 Hx) by (by rewrite Hmu).
    done. }
  split; [|split; [|split]].
  - intros r. destruct (Hgrant r a x st1 Hx Hmu) as (st2 & Hg & Hh & Hm).
    exists st2. split; [done|]. split; [|done]. by rewrite Hh.
  - destruct (Hgrant "" a x st1 Hx Hmu) as (st2 & Hg & Hh & Hm).
    exists st2. split; [done|]. split; [|done]. by rewrite Hh.
  - intros r. destruct (Hgrant r a' _ st1 Hc eq_refl) as (st2 & Hg & Hh & Hm).
    exists st2. split; [done|]. split; [|done]. by rewrite Hh.
  - destruct (Hgrant "" a' _ st1 Hc eq_refl) as (st2 & Hg & Hh & Hm).
    exists st2. split; [done|]. split; [|done]. by rewrite Hh.
Qed.

Lemma valid_insert_map st r g :
  valid st → valid (with_maps (<[r := g]> (maps st)) st).
Proof.
  intros Hv a x Ha. destruct (Hv a x Ha) as [Hp Hl].
  split; by apply map_ok_insert.
Qed.

(** C1: fork isolation.  After [c.AddProp(k, v)] has returned, in a
    well-formed memory, [c.SubContext()] returns a new context [child]
    with [child.Prop(k) = v]; every [child.AddProp(k, v2)] then returns
    and leaves [c.Prop(k) = v]; and every [c.AddProp(k', v')] made after
    the fork returns and leaves every [child.Prop(k'')] as it was. *)
Theorem fork_isolation c k v st u st1 :
  valid st → AddProp c k v st = Ok (u, st1) →
  ∃ child st2,
    SubContext c st1 = Ok (child, st2) ∧ child ≠ c ∧
    Prop_ child k st2 = Ok (v, st2) ∧
    (∀ v2, ∃ st3, AddProp child k v2 st2 = Ok (tt, st3) ∧
                  Prop_ child k st3 = Ok (v2, st3) ∧
                  Prop_ c k st3 = Ok (v, st3)) ∧
    (∀ k' v', ∃ st3, AddProp c k' v' st2 = Ok (tt, st3) ∧
                     ∀ k'', ∃ w, Prop_ child k'' st2 = Ok (w, st2) ∧
                                 Prop_ child k'' st3 = Ok (w, st3)).
Proof.
  intros Hv Hadd.
  apply AddProp_inv in Hadd as (a & x & r & g & -> & Ha & Hmu & Hp & Hr & ->).
  set (st1 := with_maps (<[r := <[k := v]> g]> (maps st)) st).
  assert (valid st1) as Hv1 by by apply valid_insert_map.
  assert (heap st1 !! a = Some x) as Ha1 by done.
  assert (maps st1 !! r = Some (<[k := v]> g)) as Hr1 by apply lookup_insert_eq.
  destruct (Hv1 a x Ha1) as [Hpo Hlo].
  destruct (SubContext_ok a x st1 Ha1)
    as (a' & r1 & r2 & Ha' & Hn1 & Hn2 & Hr12 & Hsub);
    [by rewrite Hmu|done..|].
  match type of Hsub with _ = Ok (_, ?s) => set (st2 := s) in * end.
  set (y := forked_context x (UUID (uuid_calls st1)) r1 r2) in *.
  assert (a' ≠ a) as Hne by congruence.
  assert (r ≠ r1 ∧ r ≠ r2) as [Hrr1 Hrr2] by (split; congruence).
  assert (heap st2 !! a' = Some y) as Hy by apply lookup_insert_eq.
  assert (heap st2 !! a = Some x) as Hx
    by (unfold st2; cbn [heap]; by rewrite lookup_insert_ne).
  assert (map_content (maps st1) (props x) = <[k := v]> g) as Hg1
    by (rewrite Hp; by apply map_content_Some).
  assert (maps st2 !! r2 = Some (<[k := v]> g)) as Hm2.
  { unfold st2; cbn [maps]. rewrite lookup_insert_ne by done.
    by rewrite lookup_insert_eq, Hg1. }
  assert (maps st2 !! r = Some (<[k := v]> g)) as Hm.
  { unfold st2; cbn [maps]. by rewrite !lookup_insert_ne. }
  exists (Some a'), st2. split; [done|]. split; [congruence|]. split.
  { rewrite (Prop_ok a' y k st2 Hy) by (done || (simpl; eauto)).
    cbn [props y forked_context]. rewrite (map_content_Some _ _ _ Hm2).
    by rewrite lookup_insert_eq. }
  split.
  - intros v2. eexists. split; [by apply (AddProp_ok a' y r2)|].
    split.
    + erewrite (Prop_ok a' y); [|done|done|].
      * cbn [props y forked_context maps with_maps].
        erewrite map_content_Some by apply lookup_insert_eq.
        by rewrite lookup_insert_eq.
      * simpl. rewrite lookup_insert_eq. eauto.
    + erewrite (Prop_ok a x); [|done|by rewrite Hmu|].
      * rewrite Hp. cbn [maps with_maps].
        erewrite map_content_Some
          by (rewrite lookup_insert_ne by done; exact Hm).
        by rewrite lookup_insert_eq.
      * rewrite Hp. simpl. rewrite lookup_insert_ne by done. eauto.
  - intros k' v'. eexists. split; [by apply (AddProp_ok a x r)|].
    intros k''. eexists. split.
    + rewrite (Prop_ok a' y k'' st2 Hy) by (done || (simpl; eauto)).
      done.
    + erewrite (Prop_ok a' y); [|done|done|].
      * cbn [props y forked_context maps with_maps].
        rewrite (map_content_Some _ _ _ Hm2).
        erewrite map_content_Some
          by (rewrite lookup_insert_ne by done; exact Hm2).
        done.
      * simpl. rewrite lookup_insert_ne by done. eauto.
Qed.

(** ** Construction *)

(** C5: [NewContext p] returns a new context whose id is non-empty and
    differs from every id in memory, with the default verbosity, an empty
    [props] map (every [Prop(k)] is nil), no location, no privilege, and
    a [logProps] map whose one entry is ["appId"], a key without a dot,
    mapped to [p]. *)
Theorem constructor_guarantees prefix st :
  ids_issued st →
  ∃ a x lp p st1,
    NewContext prefix st = Ok (Some a, st1) ∧
    heap st !! a = None ∧ heap st1 !! a = Some x ∧
    id x ≠ "" ∧ (∀ b y, heap st !! b = Some y → id y ≠ id x) ∧
    Verbosity x = DefaultVerbosity ∧
    props x = Some p ∧ maps st1 !! p = Some ∅ ∧
    (∀ k, Prop_ (Some a) k st1 = Ok (VNil, st1)) ∧
    location x = VNil ∧ GetLoc (Some a) st1 = Ok (None, st1) ∧
    privilege x = "" ∧
    (∀ r, r ≠ "" → isPrivileged (Some a) r st1 = Ok (false, st1)) ∧
    logProps x = Some lp ∧ lp ≠ p ∧
    maps st1 !! lp = Some {[ "appId" := VStr prefix ]} ∧
    has_dot "appId" = false.
Proof.
  intros Hids. unfold NewContext. rewrite newContext_ok.
  set (a := fresh_addr (heap st)).
  set (r1 := fresh_addr (maps st)).
  set (r2 := fresh_addr (<[r1 := ∅]> (maps st))).
  assert (r2 ≠ r1) as Hr by apply fresh_addr_insert_ne.
  set (x := fresh_context (UUID (uuid_calls st)) r1 r2).
  match goal with |- context [Ok (Some a, ?s)] => set (st1 := s) end.
  assert (heap st1 !! a = Some x) as Hx by apply lookup_insert_eq.
  assert (maps st1 !! r2 = Some ∅) as H2.
  { unfold st1; cbn [maps]. rewrite lookup_insert_ne by done.
    apply lookup_insert_eq. }
  exists a, x, r1, r2, st1. split; [done|].
  split; [apply fresh_addr_None|]. split; [done|].
  split; [apply UUID_nonempty|]. split.
  { intros b y Hb Heq. destruct (Hids b y Hb) as [Hz | (i & Hi & Hy)].
    - rewrite Hz in Heq. symmetry in Heq. by apply UUID_nonempty in Heq.
    - rewrite Hy in Heq. apply UUID_distinct in Heq. simpl in Heq. lia. }
  do 3 (split; [done|]). split.
  { intros k. rewrite (Prop_ok a x k st1 Hx) by (done || (simpl; eauto)).
    cbn [props x fresh_context]. rewrite (map_content_Some _ _ _ H2).
    by rewrite lookup_empty. }
  split; [done|]. split; [by rewrite (GetLoc_ok a x st1 Hx)|].
  split; [done|]. split.
  { intros r Hne. rewrite (isPrivileged_ok a x r st1 Hx) by done.
    by rewrite bool_decide_eq_false_2. }
  do 2 (split; [done|]). split; [apply lookup_insert_eq|done].
Qed.

(** ** Inversion: what a call that returned tells about the state *)

Lemma bind_inv {A B} (m : M A) (k : A → M B) st b st' :
  (m ≫= k) st = Ok (b, st') →
  ∃ a s, m st = Ok (a, s) ∧ k a s = Ok (b, st').
Proof.
  unfold mbind, M_bind, bind. destruct (m st) as [[a s]| |]; [|done..].
  intros H. by exists a, s.
Qed.

Lemma deref_inv c st x st' :
  deref c st = Ok (x, st') → ∃ a, c = Some a ∧ heap st !! a = Some x ∧ st' = st.
Proof.
  unfold deref. destruct c as [a|]; [|done].
  destruct (heap st !! a) as [y|] eqn:Ha; [|done].
  intros [= <- <-]. by exists a.
Qed.

Lemma RLock_inv c st u st' :
  RLock c st = Ok (u, st') →
  ∃ a x, c = Some a ∧ heap st !! a = Some x ∧ writer (RWMutex x) = false.
Proof.
  intros H. unfold RLock in H.
  apply bind_inv in H as (x & s & Hd & H).
  apply deref_inv in Hd as (a & -> & Ha & ->).
  exists a, x. do 2 (split; [done|]).
  apply bind_inv in H as (m & s & Hm & _).
  unfold lift, mu_RLock in Hm. by destruct (writer (RWMutex x)).
Qed.

Lemma Lock_inv c st u st' :
  Lock c st = Ok (u, st') →
  ∃ a x, c = Some a ∧ heap st !! a = Some x ∧ RWMutex x = RWMutex_zero.
Proof.
  intros H. unfold Lock in H.
  apply bind_inv in H as (x & s & Hd & H).
  apply deref_inv in Hd as (a & -> & Ha & ->).
  exists a, x. do 2 (split; [done|]).
  apply bind_inv in H as (m & s & Hm & _).
  unfold lift, mu_Lock in Hm. by destruct (RWMutex x) as [[] [|?]].
Qed.

Lemma Prop_inv c k st v st' :
  valid st → Prop_ c k st = Ok (v, st') →
  ∃ a x, c = Some a ∧ heap st !! a = Some x ∧
    writer (RWMutex x) = false ∧ st' = st.
Proof.
  intros Hv H. pose proof H as H0. unfold Prop_ in H0.
  apply bind_inv in H0 as (u0 & s0 & HL & _).
  apply RLock_inv in HL as (a & x & -> & Ha & Hw).
  rewrite (Prop_ok a x) in H by (done || by apply (Hv a x)).
  injection H as _ <-. by exists a, x.
Qed.

Lemma isPrivileged_inv c r st b st' :
  isPrivileged c r st = Ok (b, st') →
  ∃ a x, c = Some a ∧ heap st !! a = Some x ∧
    writer (RWMutex x) = false ∧ st' = st.
Proof.
  intros H. pose proof H as H0. unfold isPrivileged in H0.
  apply bind_inv in H0 as (u0 & s0 & HL & _).
  apply RLock_inv in HL as (a & x & -> & Ha & Hw).
  rewrite (isPrivileged_ok a x) in H by done.
  injection H as _ <-. by exists a, x.
Qed.

Lemma Id_inv c st i st' : Id c st = Ok (i, st') → st' = st.
Proof.
  intros H. unfold Id in H. apply bind_inv in H as (x & s & Hd & H).
  apply deref_inv in Hd as (a & -> & Ha & ->). by injection H as _ <-.
Qed.

Lemma GetLoc_inv c st l st' : GetLoc c st = Ok (l, st') → st' = st.
Proof.
  intros H. pose proof H as H0. unfold GetLoc in H0.
  apply bind_inv in H0 as (x & s & Hd & _).
  apply deref_inv in Hd as (a & -> & Ha & ->).
  rewrite (GetLoc_ok a x) in H by done. by injection H as _ <-.
Qed.

Lemma SetLoc_inv c loc st l st' :
  SetLoc c loc st = Ok (l, st') →
  ∃ a x, c = Some a ∧ heap st !! a = Some x ∧
    st' = with_heap (<[a := set_location (VLoc loc) x]> (heap st)) st.
Proof.
  intros H. pose proof H as H0. unfold SetLoc in H0.
  apply bind_inv in H0 as (x & s & Hd & H0).
  apply deref_inv in Hd as (a & -> & Ha & ->).
  apply bind_inv in H0 as (v & s & Hs & _).
  assert (dyn_type (location x) = None ∨
          dyn_type (location x) = Some TLocPtr) as Hty.
  { unfold lift, atomic_Store in Hs. simpl in Hs.
    destruct (dyn_type (location x)) as [ty|]; [|by left].
    right. by destruct ty. }
  rewrite (SetLoc_ok a x) in H by done.
  injection H as _ <-. by exists a, x.
Qed.

Lemma SetLogValue_inv c k v st u st' :
  SetLogValue c k v st = Ok (u, st') →
  ∃ r g, maps st !! r = Some g ∧
    st' = with_maps (<[r := <[k := v]> g]> (maps st)) st.
Proof.
  intros H. unfold SetLogValue in H.
  apply bind_inv in H as (x & s & Hd & H).
  apply deref_inv in Hd as (a & -> & Ha & ->).
  unfold map_assign in H. destruct (logProps x) as [r|]; [|done].
  destruct (maps st !! r) as [g|] eqn:Hr; [|done].
  injection H as <-. by exists r, g.
Qed.

Lemma Log_inv c level op args st u st' :
  Log c level op args st = Ok (u, st') →
  heap st' = heap st ∧ maps st' = maps st ∧ uuid_calls st' = uuid_calls st.
Proof.
  destruct c as [a|].
  - intros H. pose proof H as H0. unfold Log in H0.
    apply bind_inv in H0 as (x & s & Hd & _).
    apply deref_inv in Hd as (? & [= <-] & Ha & ->).
    rewrite (Log_ok a x) in H by done. injection H as _ <-. by repeat split.
  - rewrite Log_nil. intros [= _ <-]. by repeat split.
Qed.

(** ** Spans *)

Lemma call_Tracer_StartSpan_ok t c opName st :
  call_Tracer_StartSpan t c opName st =
    Ok (tt, traced (tracer_StartSpan t c opName) (EvStartSpan t c opName) st).
Proof.
  unfold call_Tracer_StartSpan, traced.
  by destruct (tracer_StartSpan t c opName (heap st, maps st)).
Qed.

Lemma call_Tracer_StopSpan_ok t c st :
  call_Tracer_StopSpan t c st =
    Ok (tt, traced (tracer_StopSpan t c) (EvStopSpan t c) st).
Proof.
  unfold call_Tracer_StopSpan, traced.
  by destruct (tracer_StopSpan t c (heap st, maps st)).
Qed.

Lemma StopSpan_ok a x st :
  heap st !! a = Some x →
  StopSpan (Some a) st =
    Ok (tt, match Tracer x with
            | Some t => traced (tracer_StopSpan t (Some a))
                          (EvStopSpan t (Some a)) st
            | None => st
            end).
Proof.
  intros Ha. unfold StopSpan. erewrite bind_ok by by apply deref_ok.
  destruct (Tracer x); [apply call_Tracer_StopSpan_ok|done].
Qed.

Lemma StartSpan_ok c a' x op st st1 :
  SubContext c st = Ok (Some a', st1) →
  heap st1 !! a' = Some x →
  StartSpan c op st =
    Ok (Some a', match Tracer x with
                 | Some t => traced (tracer_StartSpan t (Some a') op)
                               (EvStartSpan t (Some a') op) st1
                 | None => st1
                 end).
Proof.
  intros Hsub Hx. unfold StartSpan.
  erewrite bind_ok by done. erewrite bind_ok by by apply deref_ok.
  destruct (Tracer x); [|done].
  by erewrite bind_ok by apply call_Tracer_StartSpan_ok.
Qed.

Lemma SubContext_inv c st r st' :
  valid st → SubContext c st = Ok (r, st') →
  ∃ a x a' r1 r2,
    c = Some a ∧ heap st !! a = Some x ∧ writer (RWMutex x) = false ∧
    r = Some a' ∧ heap st !! a' = None ∧
    maps st !! r1 = None ∧ maps st !! r2 = None ∧ r1 ≠ r2 ∧
    st' = {| heap := <[a' := forked_context x (UUID (uuid_calls st)) r1 r2]>
                       (heap st);
             maps := <[r1 := map_content (maps st) (logProps x)]>
                       (<[r2 := map_content (maps st) (props x)]> (maps st));
             uuid_calls := S (uuid_calls st);
             trace := trace st |}.
Proof.
  intros Hv H. pose proof H as H0. unfold SubContext in H0.
  apply bind_inv in H0 as (u0 & s0 & HL & _).
  apply RLock_inv in HL as (a & x & -> & Ha & Hw).
  destruct (Hv a x Ha) as [Hp Hl].
  destruct (SubContext_ok a x st Ha Hw Hp Hl)
    as (a' & r1 & r2 & Ha' & Hr1 & Hr2 & Hne & Hsub).
  rewrite Hsub in H. injection H as <- <-.
  by exists a, x, a', r1, r2.
Qed.

Lemma BenchContext_ok appId st :
  let a := fresh_addr (heap st) in
  let r1 := fresh_addr (maps st) in
  let r2 := fresh_addr (<[r1 := ∅]> (maps st)) in
  BenchContext appId st =
    Ok (Some a,
        {| heap := <[a := set_LogAccumulatorLevel NOTHING
                             (set_Logger BenchLogger
                                (set_Verbosity NOTHING
                                   (fresh_context (UUID (uuid_calls st))
                                      r1 r2)))]> (heap st);
           maps := <[r1 := {[ "appId" := VStr appId ]}]>
                     (<[r2 := ∅]> (maps st));
           uuid_calls := S (uuid_calls st);
           trace := trace st |}).
Proof.
  intros a r1 r2. unfold BenchContext.
  erewrite bind_ok by apply newContext_ok.
  fold a r1 r2. munfold.
  repeat (progress (simpl; rewrite ?lookup_insert_eq)).
  do 3 f_equal. by rewrite !insert_insert_eq.
Qed.

Lemma frame_same o st st' :
  valid st → heap st' = heap st → maps st' = maps st →
  uuid_calls st' = uuid_calls st → frame o st st'.
Proof.
  intros Hv Hh Hm Hu. unfold frame, valid. rewrite Hh, Hm, Hu.
  split; [done|]. split; [done|]. split.
  - intros a x Ha. exists x. eauto.
  - intros a x' Hn Hs. congruence.
Qed.

Lemma frame_maps o st r g :
  valid st → frame o st (with_maps (<[r := g]> (maps st)) st).
Proof.
  intros Hv. split; [by apply valid_insert_map|]. split; [done|]. split.
  - intros a x Ha. exists x. eauto.
  - intros a x' Hn Hs. simpl in Hs. congruence.
Qed.

(** An assignment to one field of one context. *)
Lemma frame_assign o st a x f :
  valid st → heap st !! a = Some x →
  id (f x) = id x → RWMutex (f x) = RWMutex x →
  props (f x) = props x → logProps (f x) = logProps x →
  (privilege (f x) = privilege x ∨
   (o = OpRevokePrivilege (Some a) ∧ privilege (f x) = "") ∨
   ∃ r, o = OpGrantPrivilege (Some a) r) →
  frame o st (with_heap (<[a := f x]> (heap st)) st).
Proof.
  intros Hv Ha Hid Hmu Hp Hl Hpr. split; [|split; [done|split]].
  - intros b y. simpl. rewrite lookup_insert. case_decide.
    + intros [= <-]. rewrite Hp, Hl. by apply (Hv a x).
    + apply Hv.
  - intros b y Hb. simpl. rewrite lookup_insert. case_decide.
    + subst b. assert (y = x) as -> by congruence. exists (f x). eauto.
    + exists y. eauto.
  - intros b y Hn. simpl. rewrite lookup_insert. case_decide; congruence.
Qed.

(** A new context with two new maps. *)
Lemma frame_alloc o st a' y r1 r2 g1 g2 :
  valid st → heap st !! a' = None → id y = UUID (uuid_calls st) →
  props y = Some r2 → logProps y = Some r1 →
  frame o st
    {| heap := <[a' := y]> (heap st);
       maps := <[r1 := g1]> (<[r2 := g2]> (maps st));
       uuid_calls := S (uuid_calls st); trace := trace st |}.
Proof.
  intros Hv Ha' Hid Hp Hl. split; [|split; [simpl; lia|split]].
  - intros b z. simpl. rewrite lookup_insert. case_decide.
    + intros [= <-]. rewrite Hp, Hl. simpl.
      rewrite lookup_insert_eq, (lookup_insert _ r1 r2).
      rewrite lookup_insert_eq. split; [by case_decide|eauto].
    + intros Hz. destruct (Hv b z Hz).
      split; by do 2 apply map_ok_insert.
  - intros b z Hb. exists z. simpl.
    rewrite lookup_insert_ne by congruence. eauto.
  - intros b z Hn. simpl. rewrite lookup_insert. case_decide; [|congruence].
    intros [= <-]. exists (uuid_calls st). split; [lia|done].
Qed.

(** A tracer's method run after a call. *)
Lemma frame_traced o st st1 f e :
  respectful f → frame o st st1 → frame o st (traced f e st1).
Proof.
  intros Hf (Hv & Hu & Hold & Hnew).
  destruct (Hf (heap st1) (maps st1)) as [Hs Hval].
  assert (∀ a z, heap (traced f e st1) !! a = Some z →
            ∃ z1, heap st1 !! a = Some z1 ∧ sealed z = sealed z1) as Hback.
  { intros a z Hz. specialize (Hs a). simpl in Hz. rewrite Hz in Hs.
    destruct (heap st1 !! a) as [z1|]; [|done].
    exists z1. split; [done|]. simpl in Hs. congruence. }
  split; [by apply Hval|]. split; [done|]. split.
  - intros a x Ha. destruct (Hold a x Ha) as (x1 & H1 & Hid & Hmu & Hpr).
    specialize (Hs a). rewrite H1 in Hs. simpl.
    destruct ((f (heap st1, maps st1)).1 !! a) as [z|]; [|done].
    exists z. split; [done|]. injection Hs as Hm Hi Hp _.
    rewrite Hm, Hi, Hp. eauto.
  - intros a z Hn Hz. destruct (Hback a z Hz) as (z1 & H1 & Hseal).
    destruct (Hnew a z1 Hn H1) as (i & Hi & Hid).
    exists i. split; [done|]. injection Hseal as _ Hi' _ _. congruence.
Qed.

(** Every call that returns in a well-formed memory frames it. *)
Lemma run_op_frame o st u st' :
  valid st → run_op o st = Ok (u, st') → frame o st st'.
Proof.
  intros Hv H. destruct o; simpl in H.
  - apply bind_inv in H as (v & s & H & [= _ <-]).
    apply Prop_inv in H as (a & x & _ & _ & _ & ->); [|done].
    by apply frame_same.
  - apply AddProp_inv in H as (a & x & r & g & _ & _ & _ & _ & _ & ->).
    by apply frame_maps.
  - apply bind_inv in H as (v & s & H & [= _ <-]).
    apply SetLoc_inv in H as (a & x & _ & Ha & ->).
    apply frame_assign; eauto.
  - apply bind_inv in H as (v & s & H & [= _ <-]).
    apply GetLoc_inv in H as ->. by apply frame_same.
  - apply SetLogValue_inv in H as (r & g & _ & ->). by apply frame_maps.
  - apply bind_inv in H as (v & s & H & [= _ <-]).
    apply Id_inv in H as ->. by apply frame_same.
  - apply grantPrivilege_inv in H as (a & x & -> & Ha & _ & ->).
    apply frame_assign; eauto.
  - apply grantPrivilege_inv in H as (a & x & -> & Ha & _ & ->).
    apply frame_assign; eauto.
  - apply bind_inv in H as (v & s & H & [= _ <-]).
    apply isPrivileged_inv in H as (a & x & _ & _ & _ & ->).
    by apply frame_same.
  - apply bind_inv in H as (v & s & H & [= _ <-]).
    unfold NewContext in H. rewrite newContext_ok in H.
    injection H as _ <-.
    apply frame_alloc; [done|apply fresh_addr_None|done..].
  - apply bind_inv in H as (v & s & H & [= _ <-]).
    apply SubContext_inv in H
      as (a & x & a' & r1 & r2 & _ & _ & _ & _ & Ha' & _ & _ & _ & ->);
      [|done].
    by apply frame_alloc.
  - apply bind_inv in H as (v & s & H & [= _ <-]).
    pose proof H as H0. unfold StartSpan in H0.
    apply bind_inv in H0 as (c' & s1 & Hsub & _).
    pose proof Hsub as Hsub0.
    apply SubContext_inv in Hsub0
      as (a & x & a' & r1 & r2 & _ & _ & _ & -> & Ha' & _ & _ & _ & Hs1);
      [|done].
    assert (frame (OpStartSpan c opName) st s1) as Hfr
      by (rewrite Hs1; by apply frame_alloc).
    erewrite StartSpan_ok in H;
      [|exact Hsub|rewrite Hs1; simpl; apply lookup_insert_eq].
    injection H as _ <-. simpl.
    destruct (Tracer x); [|done]. by apply frame_traced.
  - pose proof H as H0. unfold StopSpan in H0.
    apply bind_inv in H0 as (x & s & Hd & _).
    apply deref_inv in Hd as (a & -> & Ha & ->).
    rewrite (StopSpan_ok a x) in H by done. injection H as _ <-.
    destruct (Tracer x).
    + apply frame_traced; [done|]. by apply frame_same.
    + by apply frame_same.
  - apply Log_inv in H as (Hh & Hm & Hu). by apply frame_same.
  - apply bind_inv in H as (v & s & H & [= _ <-]).
    apply GetLoc_inv in H as ->. by apply frame_same.
  - apply AddProp_inv in H as (a & x & r & g & _ & _ & _ & _ & _ & ->).
    by apply frame_maps.
  - apply AddProp_inv in H as (a & x & r & g & _ & _ & _ & _ & _ & ->).
    by apply frame_maps.
  - apply bind_inv in H as (v & s & H & [= _ <-]).
    unfold TestContext in H. rewrite newContext_ok in H.
    injection H as _ <-.
    apply frame_alloc; [done|apply fresh_addr_None|done..].
  - apply bind_inv in H as (v & s & H & [= _ <-]).
    rewrite BenchContext_ok in H. injection H as _ <-.
    apply frame_alloc; [done|apply fresh_addr_None|done..].
Qed.

(** A tracer's method keeps the sealed part of every context. *)
Lemma traced_sealed f e st a z :
  respectful f → heap st !! a = Some z →
  ∃ z', heap (traced f e st) !! a = Some z' ∧ sealed z' = sealed z.
Proof.
  intros Hf Hz. destruct (Hf (heap st) (maps st)) as [Hs _].
  specialize (Hs a). rewrite Hz in Hs. simpl.
  destruct ((f (heap st, maps st)).1 !! a) as [z'|]; [|done].
  exists z'. split; [done|]. simpl in Hs. congruence.
Qed.

(** C6: the span wrapper.  [StartSpan op] returns the context [child]
    that [SubContext] builds, a new context with an id of its own that
    shares the parent's collaborators and holds a copy of its two maps.
    With a tracer [t] attached, the tracer's [StartSpan] is called once,
    with [child] and [op], on the state the fork left, and
    [child.StopSpan()] then calls the tracer's [StopSpan] once, with
    [child]; with no tracer attached neither call is made. *)
Theorem span_wrapper a x op st :
  valid st → ids_issued st → heap st !! a = Some x →
  writer (RWMutex x) = false →
  ∃ a' y st0 st1,
    SubContext (Some a) st = Ok (Some a', st0) ∧
    StartSpan (Some a) op st = Ok (Some a', st1) ∧
    a' ≠ a ∧ heap st !! a' = None ∧ heap st0 !! a' = Some y ∧
    Logger y = Logger x ∧ Tracer y = Tracer x ∧ App y = App x ∧
    LogHook y = LogHook x ∧ PointHook y = PointHook x ∧
    LogAccumulator y = LogAccumulator x ∧
    map_content (maps st0) (props y) = map_content (maps st) (props x) ∧
    map_content (maps st0) (logProps y) =
      map_content (maps st) (logProps x) ∧
    (∃ i j, Id (Some a') st1 = Ok (i, st1) ∧
            Id (Some a) st1 = Ok (j, st1) ∧ i ≠ j) ∧
    match Tracer x with
    | Some t =>
        st1 = traced (tracer_StartSpan t (Some a') op)
                (EvStartSpan t (Some a') op) st0 ∧
        trace st1 = (trace st ++ [EvStartSpan t (Some a') op])%list ∧
        ∃ st2, StopSpan (Some a') st1 = Ok (tt, st2) ∧
               trace st2 = (trace st1 ++ [EvStopSpan t (Some a')])%list
    | None =>
        st1 = st0 ∧ trace st1 = trace st ∧
        StopSpan (Some a') st1 = Ok (tt, st1)
    end.
Proof.
  intros Hv Hids Ha Hw. destruct (Hv a x Ha) as [Hp Hl].
  destruct (SubContext_ok a x st Ha Hw Hp Hl)
    as (a' & r1 & r2 & Ha' & Hr1 & Hr2 & Hr12 & Hsub).
  match type of Hsub with _ = Ok (_, ?s) => set (st0 := s) in * end.
  set (y := forked_context x (UUID (uuid_calls st)) r1 r2) in *.
  assert (a' ≠ a) as Hne by congruence.
  assert (heap st0 !! a' = Some y) as Hy by apply lookup_insert_eq.
  assert (heap st0 !! a = Some x) as Hx
    by (unfold st0; cbn [heap]; by rewrite lookup_insert_ne).
  assert (id x ≠ UUID (uuid_calls st)) as Hidne.
  { destruct (Hids a x Ha) as [Hz | (i & Hi & Hxi)]; rewrite ?Hz, ?Hxi.
    - intros Heq. symmetry in Heq. by apply UUID_nonempty in Heq.
    - intros Heq%UUID_distinct. lia. }
  pose proof (StartSpan_ok (Some a) a' y op st st0 Hsub Hy) as Hstart.
  eexists a', y, st0, _. split; [done|]. split; [exact Hstart|].
  do 9 (split; [done|]). split.
  { unfold st0, y; cbn [maps props forked_context].
    erewrite map_content_Some; [done|].
    rewrite lookup_insert_ne by done. apply lookup_insert_eq. }
  split.
  { unfold st0, y; cbn [maps logProps forked_context].
    erewrite map_content_Some; [done|]. apply lookup_insert_eq. }
  change (Tracer y) with (Tracer x).
  destruct (Tracer x) as [t|] eqn:Ht.
  - destruct (traced_sealed (tracer_StartSpan t (Some a') op)
                (EvStartSpan t (Some a') op) st0 a' y) as (z & Hz & Hsz);
      [done..|].
    destruct (traced_sealed (tracer_StartSpan t (Some a') op)
                (EvStartSpan t (Some a') op) st0 a x) as (z' & Hz' & Hsz');
      [done..|].
    injection Hsz as _ Hzi _ Hzt. injection Hsz' as _ Hzi' _ _.
    split.
    { exists (id z), (id z'). split; [by apply Id_ok|].
      split; [by apply Id_ok|]. congruence. }
    split; [done|]. split; [done|].
    eexists. split; [by apply StopSpan_ok|].
    rewrite Hzt. change (Tracer y) with (Tracer x). by rewrite Ht.
  - split.
    { exists (UUID (uuid_calls st)), (id x).
      split; [by apply (Id_ok a' y)|].
      split; [by apply Id_ok|]. congruence. }
    split; [done|]. split; [done|].
    rewrite (StopSpan_ok a' y) by done.
    change (Tracer y) with (Tracer x). by rewrite Ht.
Qed.

(** ** More of the property store *)

(** X1: the property store is a map.  After [AddProp(k, v)] has returned,
    [Prop(k)] returns [v], every other key reads as before, a second
    [AddProp(k, v2)] returns and overwrites the value, and [SetValue] and
    [AddValue] store exactly as [AddProp] does. *)
Theorem AddProp_Prop_round_trip c k v st u st1 :
  AddProp c k v st = Ok (u, st1) →
  Prop_ c k st1 = Ok (v, st1) ∧
  (∀ k', k' ≠ k → ∃ w, Prop_ c k' st = Ok (w, st) ∧
                       Prop_ c k' st1 = Ok (w, st1)) ∧
  (∀ v2, ∃ st2, AddProp c k v2 st1 = Ok (tt, st2) ∧
                Prop_ c k st2 = Ok (v2, st2)) ∧
  (∃ st2, SetValue c k v st = Ok (tt, st2) ∧ Prop_ c k st2 = Ok (v, st2)) ∧
  (∃ st2, AddValue c k v st = Ok (tt, st2) ∧ Prop_ c k st2 = Ok (v, st2)).
Proof.
  intros Hadd. pose proof Hadd as Hadd0. destruct u.
  apply AddProp_inv in Hadd as (a & x & r & g & -> & Ha & Hmu & Hp & Hr & ->).
  set (st1 := with_maps (<[r := <[k := v]> g]> (maps st)) st) in *.
  assert (heap st1 !! a = Some x) as Ha1 by done.
  assert (maps st1 !! r = Some (<[k := v]> g)) as Hr1 by apply lookup_insert_eq.
  assert (writer (RWMutex x) = false) as Hw by by rewrite Hmu.
  assert (Prop_ (Some a) k st1 = Ok (v, st1)) as Hget.
  { rewrite (Prop_ok a x k st1 Ha1 Hw) by (rewrite Hp; simpl; eauto).
    rewrite Hp, (map_content_Some _ _ _ Hr1). by rewrite lookup_insert_eq. }
  split; [done|]. split; [|split].
  - intros k' Hne. exists (default VNil (g !! k')). split.
    + rewrite (Prop_ok a x k' st Ha Hw) by (rewrite Hp; simpl; eauto).
      by rewrite Hp, (map_content_Some _ _ _ Hr).
    + rewrite (Prop_ok a x k' st1 Ha1 Hw) by (rewrite Hp; simpl; eauto).
      rewrite Hp, (map_content_Some _ _ _ Hr1).
      by rewrite lookup_insert_ne.
  - intros v2. eexists. split; [by apply (AddProp_ok a x r)|].
    erewrite (Prop_ok a x); [|done|done|].
    + rewrite Hp. cbn [maps with_maps].
      erewrite map_content_Some by apply lookup_insert_eq.
      by rewrite lookup_insert_eq.
    + rewrite Hp. simpl. rewrite lookup_insert_eq. eauto.
  - split; exists st1; by split.
Qed.

(** X2: a context whose maps are nil, as [NoContext] is.  [Prop] reads
    nil for every key, [AddProp] and [SetLogValue] panic on the nil map,
    [AddProp] after its [Lock] and before its [Unlock], so that its panic
    leaves the write lock held, and [SubContext] still returns a child
    with maps of its own, on which [AddProp] and [SetLogValue] return. *)
Theorem nil_maps_context a x k v st :
  heap st !! a = Some x → RWMutex x = RWMutex_zero →
  props x = None → logProps x = None →
  Prop_ (Some a) k st = Ok (VNil, st) ∧
  AddProp (Some a) k v st
    = Panic "assignment to entry in nil map" (write_locked a x st) ∧
  SetLogValue (Some a) k v st = Panic "assignment to entry in nil map" st ∧
  ∃ child st1,
    SubContext (Some a) st = Ok (child, st1) ∧
    (∃ st2, AddProp child k v st1 = Ok (tt, st2) ∧
            Prop_ child k st2 = Ok (v, st2)) ∧
    (∃ st2, SetLogValue child k v st1 = Ok (tt, st2)).
Proof.
  intros Ha Hmu Hp Hl.
  assert (writer (RWMutex x) = false) as Hw by by rewrite Hmu.
  split; [|split; [|split]].
  - rewrite (Prop_ok a x k st Ha Hw) by by rewrite Hp.
    rewrite Hp. simpl. by rewrite lookup_empty.
  - unfold AddProp. munfold.
    repeat (progress (simpl; rewrite ?Ha, ?Hmu, ?Hp, ?lookup_insert_eq)).
    done.
  - unfold SetLogValue. munfold. by rewrite Ha, Hl.
  - destruct (SubContext_ok a x st Ha Hw) as (a' & r1 & r2 & _ & _ & _ & Hne & Hsub);
      [by rewrite Hp|by rewrite Hl|].
    match type of Hsub with _ = Ok (_, ?s) => set (st1 := s) in * end.
    set (y := forked_context x (UUID (uuid_calls st)) r1 r2) in *.
    assert (heap st1 !! a' = Some y) as Hy by apply lookup_insert_eq.
    assert (maps st1 !! r2 = Some ∅) as H2.
    { unfold st1; cbn [maps]. rewrite lookup_insert_ne by done.
      rewrite lookup_insert_eq. by rewrite Hp. }
    assert (maps st1 !! r1 = Some ∅) as H1.
    { unfold st1; cbn [maps]. rewrite lookup_insert_eq. by rewrite Hl. }
    exists (Some a'), st1. split; [done|]. split.
    + eexists. split; [by apply (AddProp_ok a' y r2)|].
      erewrite (Prop_ok a' y); [|done|done|].
      * cbn [props y forked_context maps with_maps].
        erewrite map_content_Some by apply lookup_insert_eq.
        by rewrite lookup_insert_eq.
      * simpl. rewrite lookup_insert_eq. eauto.
    + eexists. by apply (SetLogValue_ok a' y r1).
Qed.

(** ** More of the location slot *)

(** X3: the slot keeps the last location stored, nil included.  On a
    context whose slot is empty or holds a [*Location], [SetLoc l1] and
    then [SetLoc l2] both return, [GetLoc] and [Location] then return
    [l2], so [SetLoc(nil)] clears the location, and nothing but the slot
    of that one context has changed. *)
Theorem SetLoc_last_store_wins a x l1 l2 st :
  heap st !! a = Some x →
  dyn_type (location x) = None ∨ dyn_type (location x) = Some TLocPtr →
  ∃ st1 st2,
    SetLoc (Some a) l1 st = Ok (l1, st1) ∧
    SetLoc (Some a) l2 st1 = Ok (l2, st2) ∧
    GetLoc (Some a) st2 = Ok (l2, st2) ∧
    Location (Some a) st2 = Ok (l2, st2) ∧
    heap st2 = <[a := set_location (VLoc l2) x]> (heap st) ∧
    maps st2 = maps st ∧ uuid_calls st2 = uuid_calls st ∧
    trace st2 = trace st.
Proof.
  intros Ha Hty.
  pose proof (SetLoc_ok a x l1 st Ha Hty) as H1.
  match type of H1 with _ = Ok (_, ?s) => set (st1 := s) in * end.
  assert (heap st1 !! a = Some (set_location (VLoc l1) x)) as Ha1
    by apply lookup_insert_eq.
  pose proof (SetLoc_ok a _ l2 st1 Ha1 (or_intror eq_refl)) as H2.
  match type of H2 with _ = Ok (_, ?s) => set (st2 := s) in * end.
  assert (heap st2 !! a = Some (set_location (VLoc l2) x)) as Ha2
    by apply lookup_insert_eq.
  exists st1, st2. do 2 (split; [done|]).
  split; [by rewrite (GetLoc_ok a _ st2 Ha2)|].
  split; [unfold Location; by rewrite (GetLoc_ok a _ st2 Ha2)|].
  split; [|done]. unfold st2, st1; cbn [heap with_heap].
  by rewrite insert_insert_eq.
Qed.

(** X4: the location is copied at the fork, and the two slots are apart
    from then on.  The child's [GetLoc] returns what the parent's does at
    the fork; every [SetLoc] on the child returns and leaves the parent's
    location, and every [SetLoc] on the parent leaves the child's. *)
Theorem location_copied_at_fork a x st :
  valid st → heap st !! a = Some x → writer (RWMutex x) = false →
  ∃ a' st1 l,
    SubContext (Some a) st = Ok (Some a', st1) ∧
    GetLoc (Some a) st = Ok (l, st) ∧
    GetLoc (Some a') st1 = Ok (l, st1) ∧
    GetLoc (Some a) st1 = Ok (l, st1) ∧
    (∀ l2, ∃ st2, SetLoc (Some a') l2 st1 = Ok (l2, st2) ∧
                  GetLoc (Some a') st2 = Ok (l2, st2) ∧
                  GetLoc (Some a) st2 = Ok (l, st2)) ∧
    (∀ l2 st2, SetLoc (Some a) l2 st1 = Ok (l2, st2) →
               GetLoc (Some a) st2 = Ok (l2, st2) ∧
               GetLoc (Some a') st2 = Ok (l, st2)).
Proof.
  intros Hv Ha Hw. destruct (Hv a x Ha) as [Hp Hl].
  destruct (SubContext_ok a x st Ha Hw Hp Hl)
    as (a' & r1 & r2 & Ha' & _ & _ & _ & Hsub).
  match type of Hsub with _ = Ok (_, ?s) => set (st1 := s) in * end.
  set (y := forked_context x (UUID (uuid_calls st)) r1 r2) in *.
  assert (a' ≠ a) as Hne by congruence.
  assert (heap st1 !! a' = Some y) as Hy by apply lookup_insert_eq.
  assert (heap st1 !! a = Some x) as Hx
    by (unfold st1; cbn [heap]; by rewrite lookup_insert_ne).
  exists a', st1, (assert_LocPtr (location x)).1.
  split; [done|]. split; [by apply GetLoc_ok|].
  split; [by rewrite (GetLoc_ok a' y st1 Hy)|].
  split; [by apply GetLoc_ok|]. split.
  - intros l2. eexists.
    split; [by apply (SetLoc_ok a' y l2 st1 Hy); right|].
    split.
    + by erewrite GetLoc_ok; [|simpl; apply lookup_insert_eq].
    + by erewrite GetLoc_ok; [|simpl; by rewrite lookup_insert_ne].
  - intros l2 st2 Hset.
    apply SetLoc_inv in Hset as (b & z & [= <-] & Hb & ->).
    assert (z = x) as -> by congruence. split.
    + by erewrite GetLoc_ok; [|simpl; apply lookup_insert_eq].
    + by erewrite GetLoc_ok; [|simpl; rewrite lookup_insert_ne by done; exact Hy].
Qed.

(** ** More of forking *)

(** X5: the logging metadata is copied at the fork, and the two maps are
    apart from then on.  After [SetLogValue(k, v)] the child's [logProps]
    holds every entry of the parent's, [k] with [v] among them; a
    [SetLogValue] on the child leaves the parent's map as it was, and a
    [SetLogValue] on the parent leaves the child's. *)
Theorem logProps_copied_at_fork a x k v st u st1 :
  valid st → heap st !! a = Some x → writer (RWMutex x) = false →
  SetLogValue (Some a) k v st = Ok (u, st1) →
  heap st1 !! a = Some x ∧
  map_content (maps st1) (logProps x) !! k = Some v ∧
  ∃ a' y st2,
    SubContext (Some a) st1 = Ok (Some a', st2) ∧ heap st2 !! a' = Some y ∧
    logProps y ≠ logProps x ∧
    map_content (maps st2) (logProps y)
      = map_content (maps st1) (logProps x) ∧
    (∀ k2 v2, ∃ st3,
       SetLogValue (Some a') k2 v2 st2 = Ok (tt, st3) ∧
       map_content (maps st3) (logProps y) !! k2 = Some v2 ∧
       map_content (maps st3) (logProps x)
         = map_content (maps st1) (logProps x)) ∧
    (∀ k2 v2, ∃ st3,
       SetLogValue (Some a) k2 v2 st2 = Ok (tt, st3) ∧
       map_content (maps st3) (logProps x) !! k2 = Some v2 ∧
       map_content (maps st3) (logProps y)
         = map_content (maps st1) (logProps x)).
Proof.
  intros Hv Ha Hw Hset. pose proof Hset as Hset0. unfold SetLogValue in Hset0.
  apply bind_inv in Hset0 as (x0 & s & Hd & Hassign).
  apply deref_inv in Hd as (a0 & [= <-] & Ha0 & ->).
  assert (x0 = x) as -> by congruence.
  unfold map_assign in Hassign.
  destruct (logProps x) as [r|] eqn:Hl; [|done].
  destruct (maps st !! r) as [g|] eqn:Hr; [|done].
  injection Hassign as _ <-.
  set (st1 := with_maps (<[r := <[k := v]> g]> (maps st)) st) in *.
  assert (valid st1) as Hv1 by by apply valid_insert_map.
  assert (heap st1 !! a = Some x) as Ha1 by done.
  assert (maps st1 !! r = Some (<[k := v]> g)) as Hr1 by apply lookup_insert_eq.
  split; [done|]. split.
  { rewrite (map_content_Some _ _ _ Hr1). apply lookup_insert_eq. }
  destruct (Hv1 a x Ha1) as [Hpo Hlo].
  destruct (SubContext_ok a x st1 Ha1 Hw Hpo Hlo)
    as (a' & r1 & r2 & Ha' & Hn1 & Hn2 & Hr12 & Hsub).
  match type of Hsub with _ = Ok (_, ?s) => set (st2 := s) in * end.
  set (y := forked_context x (UUID (uuid_calls st1)) r1 r2) in *.
  assert (a' ≠ a) as Hne by congruence.
  assert (r ≠ r1) as Hrr1 by congruence.
  assert (r ≠ r2) as Hrr2 by congruence.
  assert (heap st2 !! a' = Some y) as Hy by apply lookup_insert_eq.
  assert (heap st2 !! a = Some x) as Hx
    by (unfold st2; cbn [heap]; by rewrite lookup_insert_ne).
  assert (map_content (maps st1) (Some r) = <[k := v]> g) as Hg1
    by by apply map_content_Some.
  assert (maps st2 !! r1 = Some (<[k := v]> g)) as Hm1.
  { unfold st2; cbn [maps]. rewrite lookup_insert_eq, Hl. by rewrite Hg1. }
  assert (maps st2 !! r = Some (<[k := v]> g)) as Hmr.
  { unfold st2; cbn [maps]. by rewrite !lookup_insert_ne. }
  exists a', y, st2. split; [done|]. split; [done|].
  split; [simpl; congruence|].
  rewrite Hg1.
  split; [cbn [logProps y forked_context]; by apply map_content_Some|].
  split.
  - intros k2 v2. eexists.
    split; [by apply (SetLogValue_ok a' y r1)|].
    cbn [logProps y forked_context maps with_maps]. split.
    + erewrite map_content_Some by apply lookup_insert_eq.
      apply lookup_insert_eq.
    + apply map_content_Some. by rewrite lookup_insert_ne.
  - intros k2 v2. eexists.
    split; [by apply (SetLogValue_ok a x r)|].
    cbn [logProps y forked_context maps with_maps]. split.
    + erewrite map_content_Some by apply lookup_insert_eq.
      apply lookup_insert_eq.
    + apply map_content_Some. by rewrite lookup_insert_ne.
Qed.

(** X6: a fork changes nothing that was there.  [SubContext] returns on
    every context that no writer holds, read-locked ones included; it adds
    one context, leaves every context already in memory, the parent with
    its mutex among them, and every map as they were, draws one id and
    calls no collaborator; the child carries the parent's verbosity, keys,
    accumulator level and [Ctx], and an unlocked mutex of its own. *)
Theorem SubContext_leaves_memory a x st :
  valid st → heap st !! a = Some x → writer (RWMutex x) = false →
  ∃ a' y st1,
    SubContext (Some a) st = Ok (Some a', st1) ∧
    heap st !! a' = None ∧ heap st1 !! a' = Some y ∧
    (∀ b z, heap st !! b = Some z → heap st1 !! b = Some z) ∧
    (∀ b, b ≠ a' → heap st1 !! b = heap st !! b) ∧
    (∀ r g, maps st !! r = Some g → maps st1 !! r = Some g) ∧
    uuid_calls st1 = S (uuid_calls st) ∧ trace st1 = trace st ∧
    Verbosity y = Verbosity x ∧ ReadKey y = ReadKey x ∧
    WriteKey y = WriteKey x ∧
    LogAccumulatorLevel y = LogAccumulatorLevel x ∧ Ctx y = Ctx x ∧
    RWMutex y = RWMutex_zero ∧ id y = UUID (uuid_calls st).
Proof.
  intros Hv Ha Hw. destruct (Hv a x Ha) as [Hp Hl].
  destruct (SubContext_ok a x st Ha Hw Hp Hl)
    as (a' & r1 & r2 & Ha' & Hn1 & Hn2 & _ & Hsub).
  eexists a', _, _. split; [exact Hsub|]. cbn [heap maps uuid_calls trace].
  split; [done|]. split; [apply lookup_insert_eq|]. split.
  { intros b z Hb. rewrite lookup_insert_ne by congruence. done. }
  split; [intros b Hb; by rewrite lookup_insert_ne|]. split.
  { intros r g Hr. rewrite !lookup_insert_ne by congruence. done. }
  done.
Qed.

Lemma map_content_insert_ne ms r g m :
  m ≠ Some r → map_content (<[r := g]> ms) m = map_content ms m.
Proof.
  destruct m as [r'|]; simpl; [|done]. intros Hne.
  rewrite lookup_insert_ne; [done|congruence].
Qed.

(** X7: two forks of one context are apart.  Both children read, for
    every key, what the parent read at the fork; an [AddProp] on one child
    returns and is seen by that child only: the other child and the parent
    read every key as before. *)
Theorem sibling_isolation a x st :
  valid st → heap st !! a = Some x → writer (RWMutex x) = false →
  ∃ c1 c2 st1 st2,
    SubContext (Some a) st = Ok (c1, st1) ∧
    SubContext (Some a) st1 = Ok (c2, st2) ∧ c1 ≠ c2 ∧
    (∀ k, ∃ w, Prop_ (Some a) k st = Ok (w, st) ∧
               Prop_ c1 k st2 = Ok (w, st2) ∧
               Prop_ c2 k st2 = Ok (w, st2)) ∧
    (∀ k v, ∃ st3,
       AddProp c1 k v st2 = Ok (tt, st3) ∧
       Prop_ c1 k st3 = Ok (v, st3) ∧
       ∀ k', ∃ w, Prop_ (Some a) k' st = Ok (w, st) ∧
                  Prop_ c2 k' st3 = Ok (w, st3) ∧
                  Prop_ (Some a) k' st3 = Ok (w, st3)).
Proof.
  intros Hv Ha Hw. destruct (Hv a x Ha) as [Hp Hl].
  destruct (SubContext_ok a x st Ha Hw Hp Hl)
    as (a1 & r1 & r2 & Ha1 & Hn1 & Hn2 & Hr12 & Hsub1).
  match type of Hsub1 with _ = Ok (_, ?s) => set (st1 := s) in * end.
  set (y1 := forked_context x (UUID (uuid_calls st)) r1 r2) in *.
  assert (valid st1) as Hv1
    by (by apply (frame_alloc (OpSubContext (Some a)) st a1 y1 r1 r2)).
  assert (a1 ≠ a) as Hne1 by congruence.
  assert (heap st1 !! a = Some x) as Hx1
    by (unfold st1; cbn [heap]; by rewrite lookup_insert_ne).
  assert (heap st1 !! a1 = Some y1) as Hy1 by apply lookup_insert_eq.
  set (g := map_content (maps st) (props x)) in *.
  assert (maps st1 !! r2 = Some g) as Hg2.
  { unfold st1; cbn [maps]. rewrite lookup_insert_ne by done.
    apply lookup_insert_eq. }
  assert (map_content (maps st1) (props x) = g) as Hg1.
  { unfold st1; cbn [maps]. by rewrite !map_content_insert
      by (rewrite ?lookup_insert_ne by done; done || by apply map_ok_insert). }
  destruct (Hv1 a x Hx1) as [Hp1 Hl1].
  destruct (SubContext_ok a x st1 Hx1 Hw Hp1 Hl1)
    as (a2 & q1 & q2 & Ha2 & Hm1 & Hm2 & Hq12 & Hsub2).
  match type of Hsub2 with _ = Ok (_, ?s) => set (st2 := s) in * end.
  set (y2 := forked_context x (UUID (uuid_calls st1)) q1 q2) in *.
  assert (a2 ≠ a ∧ a2 ≠ a1) as [Hne2 Hne12] by (split; congruence).
  assert (r2 ≠ q1 ∧ r2 ≠ q2) as [Hrq1 Hrq2] by (split; congruence).
  assert (heap st2 !! a = Some x) as Hx2
    by (unfold st2; cbn [heap]; by rewrite lookup_insert_ne).
  assert (heap st2 !! a1 = Some y1) as Hy12
    by (unfold st2; cbn [heap]; by rewrite lookup_insert_ne).
  assert (heap st2 !! a2 = Some y2) as Hy2 by apply lookup_insert_eq.
  assert (maps st2 !! q2 = Some g) as Hgq.
  { unfold st2; cbn [maps]. rewrite lookup_insert_ne by done.
    rewrite lookup_insert_eq. by rewrite Hg1. }
  assert (maps st2 !! r2 = Some g) as Hgr.
  { unfold st2; cbn [maps]. by rewrite !lookup_insert_ne. }
  assert (map_content (maps st2) (props x) = g) as Hgx.
  { unfold st2; cbn [maps]. rewrite !map_content_insert
      by (rewrite ?lookup_insert_ne by done; done || by apply map_ok_insert).
    done. }
  assert (∀ k s, heap s !! a = Some x → maps s = maps st ∨
            map_content (maps s) (props x) = g →
            map_ok (maps s) (props x) →
            Prop_ (Some a) k s = Ok (default VNil (g !! k), s)) as Hparent.
  { intros k s Hs Hc Hok. rewrite (Prop_ok a x k s Hs Hw Hok).
    destruct Hc as [-> | ->]; done. }
  exists (Some a1), (Some a2), st1, st2.
  split; [done|]. split; [done|]. split; [congruence|]. split.
  - intros k. exists (default VNil (g !! k)).
    split; [apply Hparent; auto|]. split.
    + rewrite (Prop_ok a1 y1 k st2 Hy12) by (done || (simpl; eauto)).
      cbn [props y1 forked_context]. by rewrite (map_content_Some _ _ _ Hgr).
    + rewrite (Prop_ok a2 y2 k st2 Hy2) by (done || (simpl; eauto)).
      cbn [props y2 forked_context]. by rewrite (map_content_Some _ _ _ Hgq).
  - intros k v. eexists. split; [by apply (AddProp_ok a1 y1 r2)|]. split.
    + erewrite (Prop_ok a1 y1); [|done|done|].
      * cbn [props y1 forked_context maps with_maps].
        erewrite map_content_Some by apply lookup_insert_eq.
        by rewrite lookup_insert_eq.
      * simpl. rewrite lookup_insert_eq. eauto.
    + intros k'. exists (default VNil (g !! k')).
      split; [apply Hparent; auto|]. split.
      * erewrite (Prop_ok a2 y2); [|done|done|].
        -- cbn [props y2 forked_context maps with_maps].
           erewrite map_content_Some
             by (rewrite lookup_insert_ne by done; exact Hgq).
           done.
        -- simpl. rewrite lookup_insert_ne by done. eauto.
      * assert (props x ≠ Some r2) as Hpx.
        { intros Heq. rewrite Heq in Hp. simpl in Hp. rewrite Hn2 in Hp.
          by destruct Hp. }
        apply Hparent; [done| |].
        -- right. cbn [maps with_maps].
           by rewrite map_content_insert_ne.
        -- cbn [maps with_maps]. apply map_ok_insert.
           unfold st2; cbn [maps]. by do 2 apply map_ok_insert.
Qed.

(** ** The benchmark constructor *)

(** X8: [BenchContext] builds what [NewContext] builds, with verbosity
    and accumulator level [NOTHING] and [BenchLogger] attached; when
    [BenchLogger] is not nil, a [Log] on it goes to [BenchLogger], with
    the operation name, and never to the default logger; when it is nil,
    to the default logger. *)
Theorem BenchContext_logs_to_BenchLogger appId level op args st :
  ∃ a x st1 st2,
    BenchContext appId st = Ok (Some a, st1) ∧
    heap st !! a = None ∧ heap st1 !! a = Some x ∧
    Verbosity x = NOTHING ∧ LogAccumulatorLevel x = NOTHING ∧
    Logger x = BenchLogger ∧ id x = UUID (uuid_calls st) ∧
    privilege x = "" ∧ location x = VNil ∧ Tracer x = None ∧
    map_content (maps st1) (logProps x) = {[ "appId" := VStr appId ]} ∧
    map_content (maps st1) (props x) = ∅ ∧
    trace st1 = trace st ∧
    Log (Some a) level op args st1 = Ok (tt, st2) ∧
    trace st2 =
      (trace st ++
       [match BenchLogger with
        | Some l => EvLog (AttachedLogger l) level [VStr op; VSlice args]
        | None => EvLog DefaultLogger level [VSlice args]
        end])%list.
Proof.
  set (a := fresh_addr (heap st)).
  set (r1 := fresh_addr (maps st)).
  set (r2 := fresh_addr (<[r1 := ∅]> (maps st))).
  assert (r2 ≠ r1) as Hr by apply fresh_addr_insert_ne.
  set (x := set_LogAccumulatorLevel NOTHING
              (set_Logger BenchLogger
                 (set_Verbosity NOTHING
                    (fresh_context (UUID (uuid_calls st)) r1 r2)))).
  set (st1 := {| heap := <[a := x]> (heap st);
                 maps := <[r1 := {[ "appId" := VStr appId ]}]>
                           (<[r2 := ∅]> (maps st));
                 uuid_calls := S (uuid_calls st); trace := trace st |}).
  assert (BenchContext appId st = Ok (Some a, st1)) as Hbench.
  { unfold BenchContext. erewrite bind_ok by apply newContext_ok.
    fold a r1 r2. munfold.
    repeat (progress (simpl; rewrite ?lookup_insert_eq)).
    unfold st1. do 3 f_equal. by rewrite !insert_insert_eq. }
  assert (heap st1 !! a = Some x) as Hx by apply lookup_insert_eq.
  eexists a, x, st1, _. split; [done|].
  split; [apply fresh_addr_None|]. do 8 (split; [done|]).
  split; [apply map_content_Some, lookup_insert_eq|].
  split.
  { apply map_content_Some. unfold st1; cbn [maps].
    rewrite lookup_insert_ne by done. apply lookup_insert_eq. }
  split; [done|]. split; [by apply (Log_ok a x)|].
  simpl. by destruct BenchLogger.
Qed.

(** ** Locks *)

(** X9: what a held write lock stops.  On a context whose mutex a writer
    holds, [Prop], [AddProp], the three privilege methods, [SubContext]
    and [StartSpan] block, while [Id], [GetLoc], [SetLoc], [SetLogValue],
    [StopSpan] and [Log], which take no lock, return. *)
Theorem write_locked_context a x st :
  valid st → heap st !! a = Some x → writer (RWMutex x) = true →
  (∀ k, Prop_ (Some a) k st = Blocked) ∧
  (∀ k v, AddProp (Some a) k v st = Blocked) ∧
  (∀ r, grantPrivilege (Some a) r st = Blocked) ∧
  revokePrivilege (Some a) st = Blocked ∧
  (∀ r, isPrivileged (Some a) r st = Blocked) ∧
  SubContext (Some a) st = Blocked ∧
  (∀ opName, StartSpan (Some a) opName st = Blocked) ∧
  Id (Some a) st = Ok (id x, st) ∧
  (∃ l, GetLoc (Some a) st = Ok (l, st)) ∧
  (dyn_type (location x) = None ∨ dyn_type (location x) = Some TLocPtr →
   ∀ l, ∃ st1, SetLoc (Some a) l st = Ok (l, st1)) ∧
  (logProps x ≠ None →
   ∀ k v, ∃ st1, SetLogValue (Some a) k v st = Ok (tt, st1)) ∧
  (∃ st1, StopSpan (Some a) st = Ok (tt, st1)) ∧
  (∀ level op args, ∃ st1, Log (Some a) level op args st = Ok (tt, st1)).
Proof.
  intros Hv Ha Hw.
  assert (∀ A (k : unit → M A), (Lock (Some a) ≫= k) st = Blocked) as HL.
  { intros A k. munfold. rewrite Ha. unfold mu_Lock. by rewrite Hw. }
  assert (∀ A (k : unit → M A), (RLock (Some a) ≫= k) st = Blocked) as HR.
  { intros A k. munfold. by rewrite Ha, Hw. }
  split; [intros k; apply HR|]. split; [intros k v; apply HL|].
  split; [intros r; apply HL|]. split; [apply HL|].
  split; [intros r; apply HR|]. split; [apply HR|]. split.
  { intros opName. unfold StartSpan.
    unfold mbind at 1, M_bind at 1, bind at 1.
    unfold SubContext. by rewrite HR. }
  split; [by apply Id_ok|]. split; [eexists; by apply GetLoc_ok|]. split.
  { intros Hty l. eexists. by apply SetLoc_ok. }
  split.
  { intros Hl k v. destruct (logProps x) as [r|] eqn:Hlp; [|done].
    destruct (Hv a x Ha) as [_ Hok]. rewrite Hlp in Hok.
    destruct Hok as [g Hg]. eexists. by apply (SetLogValue_ok a x r g). }
  split; [eexists; by apply StopSpan_ok|].
  intros level op args. eexists. by apply (Log_ok a x).
Qed.

(** X10: what a held read lock stops.  On a context that readers hold
    and no writer, [Prop], [isPrivileged] and [SubContext] return, and
    leave the readers as they found them, while [AddProp],
    [grantPrivilege] and [revokePrivilege] block. *)
Theorem read_locked_context a x n st :
  valid st → heap st !! a = Some x →
  RWMutex x = {| writer := false; readers := S n |} →
  (∀ k, ∃ w, Prop_ (Some a) k st = Ok (w, st)) ∧
  (∀ r, isPrivileged (Some a) r st
        = Ok (bool_decide (privilege x = r), st)) ∧
  (∃ child st1, SubContext (Some a) st = Ok (child, st1) ∧
                heap st1 !! a = Some x) ∧
  (∀ k v, AddProp (Some a) k v st = Blocked) ∧
  (∀ r, grantPrivilege (Some a) r st = Blocked) ∧
  revokePrivilege (Some a) st = Blocked.
Proof.
  intros Hv Ha Hmu. destruct (Hv a x Ha) as [Hp Hl].
  assert (writer (RWMutex x) = false) as Hw by by rewrite Hmu.
  assert (∀ A (k : unit → M A), (Lock (Some a) ≫= k) st = Blocked) as HL.
  { intros A k. munfold. rewrite Ha. unfold mu_Lock. by rewrite Hmu. }
  split; [intros k; eexists; by apply Prop_ok|].
  split; [intros r; by apply isPrivileged_ok|]. split.
  { destruct (SubContext_ok a x st Ha Hw Hp Hl)
      as (a' & r1 & r2 & Ha' & _ & _ & _ & Hsub).
    eexists _, _. split; [exact Hsub|]. simpl.
    rewrite lookup_insert_ne by congruence. done. }
  split; [intros k v; apply HL|]. split; [intros r; apply HL|apply HL].
Qed.

(** ** Runs of calls *)

Lemma grows_same st st' :
  heap st' = heap st → uuid_calls st' = uuid_calls st → grows st st'.
Proof.
  intros Hh Hu. split; [lia|]. intros a x' Hn Hs. congruence.
Qed.

Lemma grows_assign st a x f :
  heap st !! a = Some x → grows st (with_heap (<[a := f x]> (heap st)) st).
Proof.
  intros Ha. split; [simpl; lia|]. intros b y Hn. simpl.
  rewrite lookup_insert. case_decide; congruence.
Qed.

Lemma grows_alloc st a' y ms :
  RWMutex y = RWMutex_zero →
  grows st {| heap := <[a' := y]> (heap st); maps := ms;
              uuid_calls := S (uuid_calls st); trace := trace st |}.
Proof.
  intros Hmu. split; [simpl; lia|]. intros a x' Hn. simpl.
  rewrite lookup_insert. case_decide; [|congruence].
  intros [= <-]. split; [done|]. intros b z Hb.
  rewrite lookup_insert. case_decide; congruence.
Qed.

Lemma grows_traced st st1 f e :
  respectful f → grows st st1 → grows st (traced f e st1).
Proof.
  intros Hf [Hu Hnew]. destruct (Hf (heap st1) (maps st1)) as [Hs _].
  assert (∀ a z, heap (traced f e st1) !! a = Some z →
            ∃ z1, heap st1 !! a = Some z1 ∧ sealed z = sealed z1) as Hback.
  { intros a z Hz. specialize (Hs a). simpl in Hz. rewrite Hz in Hs.
    destruct (heap st1 !! a) as [z1|]; [|done].
    exists z1. split; [done|]. simpl in Hs. congruence. }
  split; [done|]. intros a z Hn Hz.
  destruct (Hback a z Hz) as (z1 & H1 & Hseal).
  destruct (Hnew a z1 Hn H1) as [Hmu Hone]. split.
  - injection Hseal as Hm _ _ _. congruence.
  - intros b y Hb Hy. destruct (Hback b y Hy) as (y1 & Hy1 & _).
    by apply (Hone b y1).
Qed.

(** Every call that returns in a well-formed memory grows it. *)
Lemma run_op_grows o st u st' :
  valid st → run_op o st = Ok (u, st') → grows st st'.
Proof.
  intros Hv H. destruct o; simpl in H.
  - apply bind_inv in H as (v & s & H & [= _ <-]).
    apply Prop_inv in H as (a & x & _ & _ & _ & ->); [|done].
    by apply grows_same.
  - apply AddProp_inv in H as (a & x & r & g & _ & _ & _ & _ & _ & ->).
    by apply grows_same.
  - apply bind_inv in H as (v & s & H & [= _ <-]).
    apply SetLoc_inv in H as (a & x & _ & Ha & ->). by apply grows_assign.
  - apply bind_inv in H as (v & s & H & [= _ <-]).
    apply GetLoc_inv in H as ->. by apply grows_same.
  - apply SetLogValue_inv in H as (r & g & _ & ->). by apply grows_same.
  - apply bind_inv in H as (v & s & H & [= _ <-]).
    apply Id_inv in H as ->. by apply grows_same.
  - apply grantPrivilege_inv in H as (a & x & -> & Ha & _ & ->).
    by apply grows_assign.
  - apply grantPrivilege_inv in H as (a & x & -> & Ha & _ & ->).
    by apply grows_assign.
  - apply bind_inv in H as (v & s & H & [= _ <-]).
    apply isPrivileged_inv in H as (a & x & _ & _ & _ & ->).
    by apply grows_same.
  - apply bind_inv in H as (v & s & H & [= _ <-]).
    unfold NewContext in H. rewrite newContext_ok in H.
    injection H as _ <-. by apply grows_alloc.
  - apply bind_inv in H as (v & s & H & [= _ <-]).
    apply SubContext_inv in H
      as (a & x & a' & r1 & r2 & _ & _ & _ & _ & Ha' & _ & _ & _ & ->);
      [|done].
    by apply grows_alloc.
  - apply bind_inv in H as (v & s & H & [= _ <-]).
    pose proof H as H0. unfold StartSpan in H0.
    apply bind_inv in H0 as (c' & s1 & Hsub & _).
    pose proof Hsub as Hsub0.
    apply SubContext_inv in Hsub0
      as (a & x & a' & r1 & r2 & _ & _ & _ & -> & Ha' & _ & _ & _ & Hs1);
      [|done].
    assert (grows st s1) as Hgr by (rewrite Hs1; by apply grows_alloc).
    erewrite StartSpan_ok in H;
      [|exact Hsub|rewrite Hs1; simpl; apply lookup_insert_eq].
    injection H as _ <-. simpl.
    destruct (Tracer x); [|done]. by apply grows_traced.
  - pose proof H as H0. unfold StopSpan in H0.
    apply bind_inv in H0 as (x & s & Hd & _).
    apply deref_inv in Hd as (a & -> & Ha & ->).
    rewrite (StopSpan_ok a x) in H by done. injection H as _ <-.
    destruct (Tracer x).
    + apply grows_traced; [done|]. by apply grows_same.
    + by apply grows_same.
  - apply Log_inv in H as (Hh & Hm & Hu). by apply grows_same.
  - apply bind_inv in H as (v & s & H & [= _ <-]).
    apply GetLoc_inv in H as ->. by apply grows_same.
  - apply AddProp_inv in H as (a & x & r & g & _ & _ & _ & _ & _ & ->).
    by apply grows_same.
  - apply AddProp_inv in H as (a & x & r & g & _ & _ & _ & _ & _ & ->).
    by apply grows_same.
  - apply bind_inv in H as (v & s & H & [= _ <-]).
    unfold TestContext in H. rewrite newContext_ok in H.
    injection H as _ <-. by apply grows_alloc.
  - apply bind_inv in H as (v & s & H & [= _ <-]).
    rewrite BenchContext_ok in H. injection H as _ <-. by apply grows_alloc.
Qed.

(** In a well-formed memory with every mutex free, no call blocks. *)
Lemma run_op_not_Blocked o st :
  valid st → all_unlocked st → run_op o st ≠ Blocked.
Proof.
  intros Hv Hun.
  assert (∀ a x, heap st !! a = Some x → writer (RWMutex x) = false) as Hw
    by (intros a x Ha; by rewrite (Hun a x Ha)).
  destruct o as [c k|c k v|c l|c|c k v|c|c r|c|c r|p|c|c opName|c|c lv op args
                |c|c k v|c k v|p|p];
    simpl;
    try (destruct c as [a|]; [|by compute];
         destruct (heap st !! a) as [x|] eqn:Ha;
           [destruct (Hv a x Ha) as [Hp Hl]
           |unfold StartSpan, Location, SetValue, AddValue;
            unfold Prop_, AddProp, SetLoc, GetLoc,
              SetLogValue, Id, grantPrivilege, revokePrivilege, isPrivileged,
              SubContext, StopSpan, Log; munfold;
            repeat (progress (simpl; rewrite ?Ha)); done]).
  - erewrite bind_ok; [done|]. apply Prop_ok; eauto.
  - destruct (props x) as [r|] eqn:Hpx.
    + destruct Hp as [g Hg]. by rewrite (AddProp_ok a x r g) by eauto.
    + unfold AddProp. munfold.
      repeat (progress (simpl; rewrite ?Ha, ?(Hun a x Ha), ?Hpx,
                          ?lookup_insert_eq)).
      done.
  - unfold mbind, M_bind, bind. unfold SetLoc, atomic_Store. munfold.
    rewrite Ha. simpl.
    destruct (dyn_type (location x)) as [ty|]; simpl; [|by rewrite Ha].
    case_decide; simpl; [by rewrite Ha|done].
  - erewrite bind_ok; [done|]. by apply GetLoc_ok.
  - unfold SetLogValue. munfold. rewrite Ha.
    destruct (logProps x) as [r|]; [|done]. by destruct (maps st !! r).
  - erewrite bind_ok; [done|]. by apply Id_ok.
  - by rewrite (grantPrivilege_ok a x) by eauto.
  - unfold revokePrivilege. fold (grantPrivilege (Some a) "").
    by rewrite (grantPrivilege_ok a x) by eauto.
  - erewrite bind_ok; [done|]. apply isPrivileged_ok; eauto.
  - unfold NewContext. by erewrite bind_ok by apply newContext_ok.
  - destruct (SubContext_ok a x st Ha (Hw a x Ha) Hp Hl)
      as (a' & r1 & r2 & _ & _ & _ & _ & Hsub).
    by erewrite bind_ok by exact Hsub.
  - destruct (SubContext_ok a x st Ha (Hw a x Ha) Hp Hl)
      as (a' & r1 & r2 & _ & _ & _ & _ & Hsub).
    erewrite bind_ok; [done|].
    eapply StartSpan_ok; [exact Hsub|]. simpl. apply lookup_insert_eq.
  - by rewrite (StopSpan_ok a x).
  - by rewrite (Log_ok a x).
  - erewrite bind_ok; [done|]. by apply GetLoc_ok.
  - unfold SetValue. destruct (props x) as [r|] eqn:Hpx.
    + destruct Hp as [g Hg]. by rewrite (AddProp_ok a x r g) by eauto.
    + unfold AddProp. munfold.
      repeat (progress (simpl; rewrite ?Ha, ?(Hun a x Ha), ?Hpx,
                          ?lookup_insert_eq)).
      done.
  - unfold AddValue. destruct (props x) as [r|] eqn:Hpx.
    + destruct Hp as [g Hg]. by rewrite (AddProp_ok a x r g) by eauto.
    + unfold AddProp. munfold.
      repeat (progress (simpl; rewrite ?Ha, ?(Hun a x Ha), ?Hpx,
                          ?lookup_insert_eq)).
      done.
  - unfold TestContext. by erewrite bind_ok by apply newContext_ok.
  - by erewrite bind_ok by apply BenchContext_ok.
Qed.
(** Where a context in memory after a call comes from: it was there
    before, with the same id and mutex, or the call added it, with a free
    mutex and an id drawn during the call. *)
Lemma run_op_origin o st u st' :
  valid st → run_op o st = Ok (u, st') →
  ∀ a y, heap st' !! a = Some y →
    (∃ x, heap st !! a = Some x ∧ id y = id x ∧ RWMutex y = RWMutex x) ∨
    (heap st !! a = None ∧ RWMutex y = RWMutex_zero ∧
     (∀ b z, heap st !! b = None → heap st' !! b = Some z → a = b) ∧
     ∃ i, (uuid_calls st ≤ i < uuid_calls st')%nat ∧ id y = UUID i).
Proof.
  intros Hv Hrun a y Hy.
  destruct (run_op_frame o st u st' Hv Hrun) as (_ & _ & Hold & Hnew).
  destruct (run_op_grows o st u st' Hv Hrun) as [_ Hone].
  destruct (heap st !! a) as [x|] eqn:Ha.
  - left. destruct (Hold a x Ha) as (x' & Hx' & Hid & Hmu & _).
    exists x. split; [done|]. split; congruence.
  - right. split; [done|]. destruct (Hone a y Ha Hy) as [Hmu Hsame].
    split; [done|]. split; [done|]. by apply (Hnew a y).
Qed.

Lemma run_op_unlocked o st u st' :
  valid st → all_unlocked st → run_op o st = Ok (u, st') →
  valid st' ∧ all_unlocked st'.
Proof.
  intros Hv Hun Hrun. split; [by apply (run_op_frame o st u st')|].
  intros a y Hy.
  destruct (run_op_origin o st u st' Hv Hrun a y Hy)
    as [(x & Ha & _ & Hmu) | (_ & Hmu & _)]; [|done].
  rewrite Hmu. by apply (Hun a x).
Qed.

(** ** More of spans *)

Lemma traced_valid f e st :
  respectful f → valid st → valid (traced f e st).
Proof. intros Hf Hv. by apply (Hf (heap st) (maps st)). Qed.

(** X14: [StopSpan] is not matched against [StartSpan].  On any context
    with a tracer attached, one that no [StartSpan] returned included,
    [StopSpan] calls the tracer's [StopSpan] with that context, and a
    second [StopSpan] calls it a second time. *)
Theorem StopSpan_unchecked a x t st :
  heap st !! a = Some x → Tracer x = Some t →
  ∃ st1 st2,
    StopSpan (Some a) st = Ok (tt, st1) ∧
    StopSpan (Some a) st1 = Ok (tt, st2) ∧
    trace st2 = (trace st ++ [EvStopSpan t (Some a); EvStopSpan t (Some a)])%list.
Proof.
  intros Ha Ht.
  pose proof (StopSpan_ok a x st Ha) as H1. rewrite Ht in H1.
  match type of H1 with _ = Ok (_, ?s) => set (st1 := s) in * end.
  destruct (traced_sealed (tracer_StopSpan t (Some a)) (EvStopSpan t (Some a))
              st a x) as (z & Hz & Hsz); [done..|].
  fold st1 in Hz. injection Hsz as _ _ _ Hzt.
  pose proof (StopSpan_ok a z st1 Hz) as H2. rewrite Hzt, Ht in H2.
  eexists st1, _. split; [done|]. split; [exact H2|].
  simpl. by rewrite <- app_assoc.
Qed.

(** X15: spans nest.  With a tracer [t] attached, a [StartSpan] on the
    context a [StartSpan] returned forks again: the tracer's [StartSpan]
    is called a second time, with the new context and the new operation
    name, and the three contexts carry three different addresses. *)
Theorem StartSpan_nests a x t op1 op2 st :
  valid st → heap st !! a = Some x → writer (RWMutex x) = false →
  Tracer x = Some t →
  ∃ a1 a2 st1 st2,
    StartSpan (Some a) op1 st = Ok (Some a1, st1) ∧
    StartSpan (Some a1) op2 st1 = Ok (Some a2, st2) ∧
    a1 ≠ a ∧ a2 ≠ a ∧ a2 ≠ a1 ∧
    trace st2 = (trace st ++ [EvStartSpan t (Some a1) op1;
                              EvStartSpan t (Some a2) op2])%list.
Proof.
  intros Hv Ha Hw Ht. destruct (Hv a x Ha) as [Hp Hl].
  destruct (SubContext_ok a x st Ha Hw Hp Hl)
    as (a1 & r1 & r2 & Ha1 & Hn1 & Hn2 & Hr12 & Hsub1).
  match type of Hsub1 with _ = Ok (_, ?s) => set (s1 := s) in * end.
  set (y1 := forked_context x (UUID (uuid_calls st)) r1 r2) in *.
  assert (valid s1) as Hvs1
    by (by apply (frame_alloc (OpSubContext (Some a)) st a1 y1 r1 r2)).
  assert (heap s1 !! a1 = Some y1) as Hy1 by apply lookup_insert_eq.
  assert (heap s1 !! a = Some x) as Hx1
    by (unfold s1; cbn [heap]; rewrite lookup_insert_ne by congruence; done).
  pose proof (StartSpan_ok (Some a) a1 y1 op1 st s1 Hsub1 Hy1) as Hstart1.
  change (Tracer y1) with (Tracer x) in Hstart1. rewrite Ht in Hstart1.
  match type of Hstart1 with _ = Ok (_, ?s) => set (st1 := s) in * end.
  assert (valid st1) as Hv1 by by apply traced_valid.
  destruct (traced_sealed (tracer_StartSpan t (Some a1) op1)
              (EvStartSpan t (Some a1) op1) s1 a1 y1) as (z1 & Hz1 & Hsz1);
    [done..|].
  destruct (traced_sealed (tracer_StartSpan t (Some a1) op1)
              (EvStartSpan t (Some a1) op1) s1 a x) as (z & Hz & _);
    [done..|].
  fold st1 in Hz1, Hz. injection Hsz1 as Hzm _ _ Hzt.
  destruct (Hv1 a1 z1 Hz1) as [Hp1 Hl1].
  destruct (SubContext_ok a1 z1 st1 Hz1) as (a2 & q1 & q2 & Ha2 & _ & _ & _ & Hsub2);
    [by rewrite Hzm|done..|].
  match type of Hsub2 with _ = Ok (_, ?s) => set (s2 := s) in * end.
  assert (heap s2 !! a2 = Some (forked_context z1 (UUID (uuid_calls st1)) q1 q2))
    as Hy2 by apply lookup_insert_eq.
  pose proof (StartSpan_ok (Some a1) a2 _ op2 st1 s2 Hsub2 Hy2) as Hstart2.
  cbn [Tracer forked_context] in Hstart2.
  rewrite Hzt in Hstart2. change (Tracer y1) with (Tracer x) in Hstart2.
  rewrite Ht in Hstart2.
  eexists a1, a2, st1, _. split; [done|]. split; [exact Hstart2|].
  split; [congruence|]. split; [congruence|]. split; [congruence|].
  simpl. by rewrite <- app_assoc.
Qed.

(** ** The two maps of a context *)

(** X16: the properties and the logging metadata of a context are two
    maps.  On the context [NewContext] returns, a [SetLogValue] returns
    and leaves every [Prop] nil, and an [AddProp] returns and leaves the
    logging metadata at its one entry, ["appId"]. *)
Theorem props_and_logProps_apart prefix st :
  ∃ a x st1,
    NewContext prefix st = Ok (Some a, st1) ∧ heap st1 !! a = Some x ∧
    (∀ k v, ∃ st2,
       SetLogValue (Some a) k v st1 = Ok (tt, st2) ∧
       map_content (maps st2) (logProps x)
         = <[k := v]> {[ "appId" := VStr prefix ]} ∧
       ∀ k', Prop_ (Some a) k' st2 = Ok (VNil, st2)) ∧
    (∀ k v, ∃ st2,
       AddProp (Some a) k v st1 = Ok (tt, st2) ∧
       Prop_ (Some a) k st2 = Ok (v, st2) ∧
       map_content (maps st2) (logProps x)
         = {[ "appId" := VStr prefix ]}).
Proof.
  unfold NewContext. rewrite newContext_ok.
  set (a := fresh_addr (heap st)).
  set (r1 := fresh_addr (maps st)).
  set (r2 := fresh_addr (<[r1 := ∅]> (maps st))).
  assert (r2 ≠ r1) as Hr by apply fresh_addr_insert_ne.
  set (x := fresh_context (UUID (uuid_calls st)) r1 r2).
  match goal with |- context [Ok (Some a, ?s)] => set (st1 := s) end.
  assert (heap st1 !! a = Some x) as Hx by apply lookup_insert_eq.
  assert (maps st1 !! r1 = Some {[ "appId" := VStr prefix ]}) as H1
    by apply lookup_insert_eq.
  assert (maps st1 !! r2 = Some ∅) as H2.
  { unfold st1; cbn [maps]. rewrite lookup_insert_ne by done.
    apply lookup_insert_eq. }
  exists a, x, st1. split; [done|]. split; [done|]. split.
  - intros k v. eexists. split; [by apply (SetLogValue_ok a x r1)|].
    cbn [logProps x fresh_context maps with_maps]. split.
    + apply map_content_Some, lookup_insert_eq.
    + intros k'. erewrite (Prop_ok a x); [|done|done|].
      * cbn [props x fresh_context maps with_maps].
        erewrite map_content_Some
          by (rewrite lookup_insert_ne by done; exact H2).
        by rewrite lookup_empty.
      * simpl. rewrite lookup_insert_ne by done. eauto.
  - intros k v. eexists. split; [by apply (AddProp_ok a x r2)|].
    cbn [logProps x fresh_context maps with_maps]. split.
    + erewrite (Prop_ok a x); [|done|done|].
      * cbn [props x fresh_context maps with_maps].
        erewrite map_content_Some by apply lookup_insert_eq.
        by rewrite lookup_insert_eq.
      * simpl. rewrite lookup_insert_eq. eauto.
    + apply map_content_Some. by rewrite lookup_insert_ne.
Qed.

(** ** The nil receiver *)

Lemma run_op_nil o st :
  receiver o = Some None → is_Log o = false →
  run_op o st = Panic nil_deref st.
Proof.
  destruct o; simpl; intros [= ->] Hlog; try done.
Qed.

(** A pointer to no object, which Go does not have, is read as the nil
    pointer is. *)
Lemma run_op_dangling o a st :
  receiver o = Some (Some a) → heap st !! a = None →
  run_op o st = Panic nil_deref st.
Proof.
  destruct o; simpl; intros [= ->] Ha;
    unfold StartSpan, Location, SetValue, AddValue;
    unfold Prop_, AddProp, SetLoc, GetLoc, SetLogValue, Id, grantPrivilege,
      revokePrivilege, isPrivileged, SubContext, StopSpan, Log; munfold;
    repeat (progress (simpl; rewrite ?Ha)); done.
Qed.

(** X11: [Log] is the only method that takes a nil receiver.  Each of the
    other fifteen methods, called on the nil [*Context], panics with Go's
    nil-dereference error before it has changed anything, so a caller
    that recovers goes on with the memory as it was; [Log] returns. *)
Theorem nil_receiver_panics st :
  (∀ loc, SetLoc None loc st = Panic nil_deref st) ∧
  GetLoc None st = Panic nil_deref st ∧
  Location None st = Panic nil_deref st ∧
  (∀ prop, Prop_ None prop st = Panic nil_deref st) ∧
  (∀ prop val, AddProp None prop val st = Panic nil_deref st) ∧
  (∀ name val, SetValue None name val st = Panic nil_deref st) ∧
  (∀ name val, AddValue None name val st = Panic nil_deref st) ∧
  Id None st = Panic nil_deref st ∧
  (∀ region, grantPrivilege None region st = Panic nil_deref st) ∧
  revokePrivilege None st = Panic nil_deref st ∧
  (∀ region, isPrivileged None region st = Panic nil_deref st) ∧
  (∀ name val, SetLogValue None name val st = Panic nil_deref st) ∧
  SubContext None st = Panic nil_deref st ∧
  (∀ opName, StartSpan None opName st = Panic nil_deref st) ∧
  StopSpan None st = Panic nil_deref st ∧
  (∀ level op args, ∃ st1, Log None level op args st = Ok (tt, st1)) ∧
  (∀ o, receiver o = Some None → is_Log o = false →
        run_op o st = Panic nil_deref st ∧
        recovered (run_op o) st = Ok (tt, st)).
Proof.
  do 15 (split; [done|]). split.
  - intros level op args. eexists. apply Log_nil.
  - intros o Hrecv Hlog. unfold recovered.
    by rewrite (run_op_nil o st Hrecv Hlog).
Qed.

(** ** Calls that panic or block *)

Lemma bind_blocked {A B} (m : M A) (k : A → M B) st :
  m st = Blocked → (m ≫= k) st = Blocked.
Proof. intros H. unfold mbind, M_bind, bind. by rewrite H. Qed.

Lemma Lock_blocked {A} a x (k : unit → M A) st :
  heap st !! a = Some x → RWMutex x ≠ RWMutex_zero →
  (Lock (Some a) ≫= k) st = Blocked.
Proof.
  intros Ha Hmu. munfold. rewrite Ha. unfold mu_Lock.
  destruct (RWMutex x) as [[] [|n]]; simpl; try done.
Qed.

Lemma RLock_blocked {A} a x (k : unit → M A) st :
  heap st !! a = Some x → writer (RWMutex x) = true →
  (RLock (Some a) ≫= k) st = Blocked.
Proof. intros Ha Hw. munfold. by rewrite Ha, Hw. Qed.

(** [AddProp] on a context whose [props] map is nil: the assignment
    panics once [Lock] has returned, and [Unlock] is not reached. *)
Lemma AddProp_nil_map a x k v st :
  heap st !! a = Some x → RWMutex x = RWMutex_zero → props x = None →
  AddProp (Some a) k v st
  = Panic "assignment to entry in nil map" (write_locked a x st).
Proof.
  intros Ha Hmu Hp. unfold AddProp. munfold.
  repeat (progress (simpl; rewrite ?Ha, ?Hmu, ?Hp, ?lookup_insert_eq)).
  done.
Qed.

(** The memory a panic leaves: the memory the call found, but for
    [AddProp], [SetValue] and [AddValue] on a context whose [props] map is
    nil, which leave the write lock of that context held. *)
Lemma run_op_panic o st msg st' :
  valid st → run_op o st = Panic msg st' →
  st' = st ∨
  ∃ a x, props_writer o = Some (Some a) ∧ heap st !! a = Some x ∧
         RWMutex x = RWMutex_zero ∧ props x = None ∧
         msg = "assignment to entry in nil map" ∧ st' = write_locked a x st.
Proof.
  intros Hv H.
  assert (∀ a x k v, heap st !! a = Some x →
            AddProp (Some a) k v st = Panic msg st' →
            ∃ y, heap st !! a = Some y ∧ RWMutex y = RWMutex_zero ∧
                 props y = None ∧ msg = "assignment to entry in nil map" ∧
                 st' = write_locked a y st) as Hadd.
  { intros a x k v Ha Hpanic. destruct (Hv a x Ha) as [Hp _].
    destruct (decide (RWMutex x = RWMutex_zero)) as [Hmu|Hmu]; cycle 1.
    { unfold AddProp in Hpanic. by rewrite (Lock_blocked a x) in Hpanic. }
    destruct (props x) as [r|] eqn:Hpx.
    - destruct Hp as [g Hg]. by rewrite (AddProp_ok a x r g) in Hpanic.
    - rewrite (AddProp_nil_map a x) in Hpanic by done.
      injection Hpanic as <- <-. by exists x. }
  destruct (receiver o) as [[a|]|] eqn:Hrecv.
  - destruct (heap st !! a) as [x|] eqn:Ha; cycle 1.
    { rewrite (run_op_dangling o a st Hrecv Ha) in H. left. by injection H. }
    destruct (Hv a x Ha) as [Hp Hl].
    destruct o; simpl in Hrecv; try discriminate;
      injection Hrecv as ->; cbn [run_op] in H.
    + destruct (writer (RWMutex x)) eqn:Hw.
      * erewrite bind_blocked in H; [done|by apply (RLock_blocked a x)].
      * by erewrite bind_ok in H by by apply Prop_ok.
    + right. destruct (Hadd a x prop val Ha H) as (y & ?). by exists a, y.
    + left. unfold SetLoc, atomic_Store in H. munfold. rewrite Ha in H.
      simpl in H. destruct (dyn_type (location x)) as [ty|]; simpl in H.
      * case_decide; simpl in H; [by rewrite Ha in H|by injection H].
      * by rewrite Ha in H.
    + by erewrite bind_ok in H by by apply GetLoc_ok.
    + left. unfold SetLogValue in H. munfold. rewrite Ha in H.
      destruct (logProps x) as [r|]; [|by injection H].
      destruct Hl as [g Hg]. by rewrite Hg in H.
    + by erewrite bind_ok in H by by apply Id_ok.
    + destruct (decide (RWMutex x = RWMutex_zero)) as [Hmu|Hmu].
      * by rewrite (grantPrivilege_ok a x) in H.
      * unfold grantPrivilege in H. by rewrite (Lock_blocked a x) in H.
    + destruct (decide (RWMutex x = RWMutex_zero)) as [Hmu|Hmu].
      * unfold revokePrivilege in H. fold (grantPrivilege (Some a) "") in H.
        by rewrite (grantPrivilege_ok a x) in H.
      * unfold revokePrivilege in H. by rewrite (Lock_blocked a x) in H.
    + destruct (writer (RWMutex x)) eqn:Hw.
      * erewrite bind_blocked in H; [done|by apply (RLock_blocked a x)].
      * by erewrite bind_ok in H by by apply isPrivileged_ok.
    + destruct (writer (RWMutex x)) eqn:Hw.
      * erewrite bind_blocked in H; [done|by apply (RLock_blocked a x)].
      * destruct (SubContext_ok a x st Ha Hw Hp Hl)
          as (a' & r1 & r2 & _ & _ & _ & _ & Hsub).
        by erewrite bind_ok in H by exact Hsub.
    + destruct (writer (RWMutex x)) eqn:Hw.
      * erewrite bind_blocked in H; [done|].
        unfold StartSpan. apply bind_blocked. by apply (RLock_blocked a x).
      * destruct (SubContext_ok a x st Ha Hw Hp Hl)
          as (a' & r1 & r2 & _ & _ & _ & _ & Hsub).
        erewrite bind_ok in H; [done|].
        eapply StartSpan_ok; [exact Hsub|]. simpl. apply lookup_insert_eq.
    + by rewrite (StopSpan_ok a x) in H.
    + by rewrite (Log_ok a x) in H.
    + by erewrite bind_ok in H by by apply GetLoc_ok.
    + right. destruct (Hadd a x name val Ha H) as (y & ?). by exists a, y.
    + right. destruct (Hadd a x name val Ha H) as (y & ?). by exists a, y.
  - destruct (is_Log o) eqn:Hlog.
    + destruct o; try done. simpl in Hrecv. injection Hrecv as ->.
      cbn [run_op] in H. by rewrite Log_nil in H.
    + rewrite (run_op_nil o st Hrecv Hlog) in H. left. by injection H.
  - destruct o; try done; cbn [run_op] in H.
    + unfold NewContext in H. by erewrite bind_ok in H by apply newContext_ok.
    + unfold TestContext in H. by erewrite bind_ok in H by apply newContext_ok.
    + by erewrite bind_ok in H by apply BenchContext_ok.
Qed.

Lemma recovered_inv m st u st' :
  recovered m st = Ok (u, st') →
  m st = Ok (u, st') ∨ ∃ msg, m st = Panic msg st'.
Proof.
  unfold recovered. destruct (m st) as [[v s]|msg s|]; [| |done].
  - intros [= <- <-]. by left.
  - intros [= _ <-]. right. by exists msg.
Qed.

Lemma recovered_ok m st r : m st = Ok r → recovered m st = Ok r.
Proof. unfold recovered. by intros ->. Qed.

(** A run that returns is a run of a recovering client with nothing to
    recover from. *)
Lemma run_ops_recovering_ok ops : ∀ st u st',
  run_ops ops st = Ok (u, st') → run_ops_recovering ops st = Ok (u, st').
Proof.
  induction ops as [|o ops IH]; intros st u st' H; [done|].
  simpl in H. apply bind_inv in H as (u1 & s1 & Ho & H). simpl.
  erewrite bind_ok by (apply recovered_ok; exact Ho). by apply IH.
Qed.

Lemma valid_write_locked a x st :
  valid st → heap st !! a = Some x → valid (write_locked a x st).
Proof.
  intros Hv Ha b y. unfold write_locked. simpl.
  rewrite lookup_insert. case_decide.
  - intros [= <-]. by apply (Hv a x).
  - apply Hv.
Qed.

(** ** Runs of a client that recovers from panics *)

(** Where a context in memory after a call comes from, whether the call
    returned or panicked: it was there before, with the same id, or the
    call added it, alone, with an id drawn during the call. *)
Lemma recovered_origin o st u st' :
  valid st → recovered (run_op o) st = Ok (u, st') →
  valid st' ∧ (uuid_calls st ≤ uuid_calls st')%nat ∧
  (∀ a x, heap st !! a = Some x →
     ∃ x', heap st' !! a = Some x' ∧ id x' = id x) ∧
  (∀ a y, heap st !! a = None → heap st' !! a = Some y →
     (∀ b z, heap st !! b = None → heap st' !! b = Some z → a = b) ∧
     ∃ i, (uuid_calls st ≤ i < uuid_calls st')%nat ∧ id y = UUID i).
Proof.
  intros Hv H. apply recovered_inv in H as [H | [msg H]].
  - destruct (run_op_frame o st u st' Hv H) as (Hv' & Hu & Hold & Hnew).
    destruct (run_op_grows o st u st' Hv H) as [_ Hone].
    split; [done|]. split; [done|]. split.
    + intros a x Ha. destruct (Hold a x Ha) as (x' & Hx' & Hid & _).
      by exists x'.
    + intros a y Ha Hy. split; [by apply (Hone a y)|by apply (Hnew a y)].
  - apply (run_op_panic o st msg st' Hv) in H
      as [-> | (a & x & _ & Ha & _ & _ & _ & ->)].
    + split; [done|]. split; [done|]. split; [by eauto|].
      intros a y Ha Hy. congruence.
    + split; [by apply valid_write_locked|]. split; [done|]. split.
      * intros b y Hb. unfold write_locked. simpl.
        rewrite lookup_insert. case_decide; [|by eauto].
        subst b. assert (y = x) as -> by congruence. by eexists.
      * intros b y Hb. unfold write_locked. simpl.
        rewrite lookup_insert. case_decide; congruence.
Qed.

Lemma run_ops_recovering_kept ops : ∀ st u st',
  valid st → run_ops_recovering ops st = Ok (u, st') →
  valid st' ∧ (uuid_calls st ≤ uuid_calls st')%nat ∧
  (∀ a x, heap st !! a = Some x →
     ∃ x', heap st' !! a = Some x' ∧ id x' = id x) ∧
  (∀ a y, heap st !! a = None → heap st' !! a = Some y →
     ∃ i, (uuid_calls st ≤ i < uuid_calls st')%nat ∧ id y = UUID i).
Proof.
  induction ops as [|o ops IH]; intros st u st' Hv H.
  - injection H as _ <-. split; [done|]. split; [done|].
    split; [by eauto|]. intros a y Ha Hy. congruence.
  - simpl in H. apply bind_inv in H as (u1 & s1 & Ho & H).
    destruct (recovered_origin o st u1 s1 Hv Ho) as (Hv1 & Hu1 & Hold1 & Hnew1).
    destruct (IH s1 u st' Hv1 H) as (Hv' & Hu' & Hold' & Hnew').
    split; [done|]. split; [lia|]. split.
    + intros a x Ha. destruct (Hold1 a x Ha) as (x1 & Ha1 & Hid1).
      destruct (Hold' a x1 Ha1) as (x' & Ha' & Hid').
      exists x'. split; [done|congruence].
    + intros a y Ha Hy. destruct (heap s1 !! a) as [z|] eqn:Hz.
      * destruct (Hnew1 a z Ha Hz) as (_ & i & Hi & Hid).
        destruct (Hold' a z Hz) as (y' & Hy' & Hid').
        assert (y' = y) as -> by congruence.
        exists i. split; [lia|congruence].
      * destruct (Hnew' a y Hz Hy) as (i & Hi & Hid).
        exists i. split; [lia|done].
Qed.

Lemma recovered_ids o st u st' :
  valid st → ids_issued st → ids_distinct st →
  recovered (run_op o) st = Ok (u, st') →
  ids_issued st' ∧ ids_distinct st'.
Proof.
  intros Hv Hiss Hdis Hrun.
  destruct (recovered_origin o st u st' Hv Hrun) as (Hv' & Hu & Hold & Hnew).
  assert (∀ a y, heap st' !! a = Some y →
            (∃ x, heap st !! a = Some x ∧ id y = id x) ∨
            (heap st !! a = None ∧
             (∀ b z, heap st !! b = None → heap st' !! b = Some z → a = b) ∧
             ∃ i, (uuid_calls st ≤ i < uuid_calls st')%nat ∧ id y = UUID i))
    as Hcase.
  { intros a y Hy. destruct (heap st !! a) as [x|] eqn:Ha.
    - left. destruct (Hold a x Ha) as (x' & Hx' & Hid).
      exists x. split; [done|congruence].
    - right. split; [done|]. by apply (Hnew a y). }
  split.
  - intros a y Hy.
    destruct (Hcase a y Hy) as [(x & Ha & Hid) | (_ & _ & i & Hi & Hid)].
    + rewrite Hid. destruct (Hiss a x Ha) as [Hz | (i & Hi & Hxi)]; [by left|].
      right. exists i. split; [lia|done].
    + right. exists i. split; [lia|done].
  - intros a b y z Hy Hz Heq.
    destruct (Hcase a y Hy) as [(x & Ha & Hid) | (Ha & Hsame & i & Hi & Hid)];
      destruct (Hcase b z Hz) as [(w & Hb & Hid') | (Hb & _ & j & Hj & Hid')].
    + apply (Hdis a b x w Ha Hb); congruence.
    + exfalso. destruct (Hiss a x Ha) as [Hz0 | (i & Hi & Hxi)].
      * apply (UUID_nonempty j). congruence.
      * assert (i = j) by (apply UUID_distinct; congruence). lia.
    + exfalso. destruct (Hiss b w Hb) as [Hz0 | (j & Hj & Hwj)].
      * apply (UUID_nonempty i). congruence.
      * assert (i = j) by (apply UUID_distinct; congruence). lia.
    + by apply (Hsame b z).
Qed.

Lemma run_ops_recovering_ids ops : ∀ st u st',
  valid st → ids_issued st → ids_distinct st →
  run_ops_recovering ops st = Ok (u, st') →
  ids_issued st' ∧ ids_distinct st'.
Proof.
  induction ops as [|o ops IH]; intros st u st' Hv Hiss Hdis H.
  - by injection H as _ <-.
  - simpl in H. apply bind_inv in H as (u1 & s1 & Ho & H).
    destruct (recovered_origin o st u1 s1 Hv Ho) as (Hv1 & _).
    destruct (recovered_ids o st u1 s1 Hv Hiss Hdis Ho) as [Hiss1 Hdis1].
    by apply (IH s1 u st').
Qed.

(** X13: no two contexts ever share an id.  When every id in memory is
    the zero value or was handed out by the generator and no two contexts
    share an id, the same holds after any sequence of calls, by a client
    that recovers from panics or by one whose calls all return; every
    context that was in memory has kept its id, and every context the run
    has added carries a non-empty id that the generator handed out during
    the run: each constructor and each fork draws an id of its own. *)
Theorem ids_stay_distinct ops st u st' :
  valid st → ids_issued st → ids_distinct st →
  run_ops ops st = Ok (u, st') ∨ run_ops_recovering ops st = Ok (u, st') →
  ids_issued st' ∧ ids_distinct st' ∧
  (∀ a x, heap st !! a = Some x →
     ∃ x', heap st' !! a = Some x' ∧ id x' = id x) ∧
  (∀ a y, heap st !! a = None → heap st' !! a = Some y →
     id y ≠ "" ∧
     ∃ i, (uuid_calls st ≤ i < uuid_calls st')%nat ∧ id y = UUID i).
Proof.
  intros Hv Hiss Hdis Hrun.
  assert (run_ops_recovering ops st = Ok (u, st')) as H
    by (destruct Hrun as [H|H]; [by apply run_ops_recovering_ok|done]).
  destruct (run_ops_recovering_ids ops st u st' Hv Hiss Hdis H) as [Hiss' Hdis'].
  destruct (run_ops_recovering_kept ops st u st' Hv H) as (_ & _ & Hold & Hnew).
  do 3 (split; [done|]). intros a y Ha Hy.
  destruct (Hnew a y Ha Hy) as (i & Hi & Hid).
  split; [rewrite Hid; apply UUID_nonempty|by exists i].
Qed.

(** ** Identity *)

(** What a constructor or a fork leaves at the address it returns. *)
Lemma constructed_inv st c st1 :
  valid st → constructed st c st1 →
  ∃ a x, c = Some a ∧ heap st !! a = None ∧ heap st1 !! a = Some x ∧
         id x = UUID (uuid_calls st) ∧ RWMutex x = RWMutex_zero ∧
         valid st1 ∧ uuid_calls st1 = S (uuid_calls st).
Proof.
  intros Hv [[p H] | [[p H] | [[p H] | [[c0 H] | (c0 & op & H)]]]].
  - assert (frame (OpNewContext p) st st1) as (Hv1 & _).
    { apply (run_op_frame _ st tt st1 Hv). simpl.
      by erewrite bind_ok by exact H. }
    unfold NewContext in H. rewrite newContext_ok in H.
    injection H as <- <-.
    eexists _, _. split; [done|]. split; [apply fresh_addr_None|].
    split; [simpl; apply lookup_insert_eq|]. done.
  - assert (frame (OpTestContext p) st st1) as (Hv1 & _).
    { apply (run_op_frame _ st tt st1 Hv). simpl.
      by erewrite bind_ok by exact H. }
    unfold TestContext in H. rewrite newContext_ok in H.
    injection H as <- <-.
    eexists _, _. split; [done|]. split; [apply fresh_addr_None|].
    split; [simpl; apply lookup_insert_eq|]. done.
  - assert (frame (OpBenchContext p) st st1) as (Hv1 & _).
    { apply (run_op_frame _ st tt st1 Hv). simpl.
      by erewrite bind_ok by exact H. }
    rewrite BenchContext_ok in H. injection H as <- <-.
    eexists _, _. split; [done|]. split; [apply fresh_addr_None|].
    split; [simpl; apply lookup_insert_eq|]. done.
  - assert (frame (OpSubContext c0) st st1) as (Hv1 & _).
    { apply (run_op_frame _ st tt st1 Hv). simpl.
      by erewrite bind_ok by exact H. }
    apply SubContext_inv in H
      as (a & x & a' & r1 & r2 & _ & _ & _ & -> & Ha' & _ & _ & _ & ->);
      [|done].
    eexists _, _. split; [done|]. split; [done|].
    split; [simpl; apply lookup_insert_eq|]. done.
  - assert (frame (OpStartSpan c0 op) st st1) as (Hv1 & _).
    { apply (run_op_frame _ st tt st1 Hv). simpl.
      by erewrite bind_ok by exact H. }
    pose proof H as H0. unfold StartSpan in H0.
    apply bind_inv in H0 as (c' & s1 & Hsub & _).
    pose proof Hsub as Hsub0.
    apply SubContext_inv in Hsub0
      as (a & x & a' & r1 & r2 & _ & _ & _ & -> & Ha' & _ & _ & _ & Hs1);
      [|done].
    set (y := forked_context x (UUID (uuid_calls st)) r1 r2) in *.
    assert (heap s1 !! a' = Some y) as Hy
      by (rewrite Hs1; simpl; apply lookup_insert_eq).
    rewrite (StartSpan_ok c0 a' y op st s1 Hsub Hy) in H.
    injection H as <- <-. change (Tracer y) with (Tracer x) in *.
    destruct (Tracer x) as [t|].
    + destruct (traced_sealed (tracer_StartSpan t (Some a') op)
                  (EvStartSpan t (Some a') op) s1 a' y) as (z & Hz & Hsz);
        [done..|].
      injection Hsz as Hzm Hzi _ _.
      exists a', z. split; [done|]. split; [done|]. split; [done|].
      split; [by rewrite Hzi|]. split; [by rewrite Hzm|]. split; [done|].
      simpl. by rewrite Hs1.
    + exists a', y. split; [done|]. split; [done|]. split; [done|].
      do 3 (split; [done|]). by rewrite Hs1.
Qed.

(** C7: ids are fresh and never change.  The context that a constructor
    ([NewContext], [TestContext], [BenchContext]) or a fork ([SubContext],
    [StartSpan]) has just returned carries the id that [init] drew from
    the generator for it: [Id] returns it, it is non-empty and differs
    from every id that was in memory; the id of its fork differs from it,
    right away and whenever it is forked later; and after any sequence of
    calls, whatever their receivers, whether they all return or some
    panic and the client recovers, [Id] still returns the same id. *)
Theorem id_fresh_and_immutable c ops st st1 u st' :
  valid st → ids_issued st → constructed st c st1 →
  run_ops ops st1 = Ok (u, st') ∨ run_ops_recovering ops st1 = Ok (u, st') →
  ∃ i,
    Id c st1 = Ok (i, st1) ∧ i = UUID (uuid_calls st) ∧ i ≠ "" ∧
    (∀ b y, heap st !! b = Some y → id y ≠ i) ∧
    (∃ child j st2, SubContext c st1 = Ok (child, st2) ∧
                    Id child st2 = Ok (j, st2) ∧ j ≠ i ∧
                    Id c st2 = Ok (i, st2)) ∧
    Id c st' = Ok (i, st') ∧
    (∀ child st2, SubContext c st' = Ok (child, st2) →
       ∃ j, Id child st2 = Ok (j, st2) ∧ j ≠ i ∧ Id c st2 = Ok (i, st2)).
Proof.
  intros Hv Hiss Hc Hrun.
  assert (run_ops_recovering ops st1 = Ok (u, st')) as H
    by (destruct Hrun as [H|H]; [by apply run_ops_recovering_ok|done]).
  destruct (constructed_inv st c st1 Hv Hc)
    as (a & x & -> & Ha0 & Ha & Hid & Hmu & Hv1 & Hu1).
  destruct (run_ops_recovering_kept ops st1 u st' Hv1 H)
    as (Hv' & Hu' & Hold & _).
  destruct (Hold a x Ha) as (x' & Ha' & Hid').
  exists (UUID (uuid_calls st)). split; [rewrite <- Hid; by apply Id_ok|].
  split; [done|]. split; [apply UUID_nonempty|]. split.
  { intros b y Hb Heq. destruct (Hiss b y Hb) as [Hz | (i & Hi & Hy)].
    - apply (UUID_nonempty (uuid_calls st)). congruence.
    - rewrite Hy in Heq. apply UUID_distinct in Heq. lia. }
  split.
  { destruct (Hv1 a x Ha) as [Hp Hl].
    destruct (SubContext_ok a x st1 Ha) as (a' & r1 & r2 & Hn & _ & _ & _ & Hsub);
      [by rewrite Hmu|done..|].
    eexists (Some a'), _, _. split; [exact Hsub|].
    split; [apply Id_ok; simpl; apply lookup_insert_eq|]. split.
    - simpl. rewrite Hu1. intros Heq%UUID_distinct. lia.
    - rewrite <- Hid. apply Id_ok. simpl.
      rewrite lookup_insert_ne by congruence. done. }
  split; [rewrite <- Hid, <- Hid'; by apply Id_ok|].
  intros child st2 Hsub.
  apply SubContext_inv in Hsub
    as (a0 & x0 & a' & r1 & r2 & [= <-] & Hx0 & _ & -> & Hn & _ & _ & _ & ->);
    [|done].
  eexists. split; [apply Id_ok; simpl; apply lookup_insert_eq|]. split.
  - simpl. intros Heq%UUID_distinct. lia.
  - rewrite <- Hid, <- Hid'. apply Id_ok. simpl.
    rewrite lookup_insert_ne by congruence. done.
Qed.

(** ** Locks held after a call *)

Lemma lock_leaked_write_locked a x st :
  all_unlocked st → heap st !! a = Some x → props x = None →
  lock_leaked (write_locked a x st) a.
Proof.
  intros Hun Ha Hp. exists (set_RWMutex {| writer := true; readers := 0 |} x).
  split; [simpl; apply lookup_insert_eq|]. do 2 (split; [done|]).
  intros b y Hb. simpl. rewrite lookup_insert_ne by done. apply Hun.
Qed.

(** A call made with every mutex free does not block; when it returns
    every mutex is free again; when it panics every mutex is free again
    but for the write lock that [AddProp] on a nil map leaves held. *)
Lemma run_op_mutexes o st :
  valid st → all_unlocked st →
  match run_op o st with
  | Ok (_, st') => valid st' ∧ all_unlocked st'
  | Panic msg st' =>
      valid st' ∧
      (all_unlocked st' ∨
       msg = "assignment to entry in nil map" ∧
       writes_nil_map o st = true ∧ ∃ a, lock_leaked st' a)
  | Blocked => False
  end.
Proof.
  intros Hv Hun. pose proof (run_op_not_Blocked o st Hv Hun) as Hnb.
  destruct (run_op o st) as [[u s]|msg s|] eqn:Ho; [| |done].
  - by apply (run_op_unlocked o st u s).
  - destruct (run_op_panic o st msg s Hv Ho)
      as [-> | (a & x & Hw & Ha & _ & Hp & -> & ->)]; [by auto|].
    split; [by apply valid_write_locked|]. right. split; [done|]. split.
    + unfold writes_nil_map. rewrite Hw, Ha. by apply bool_decide_eq_true_2.
    + exists a. by apply lock_leaked_write_locked.
Qed.

(** X12: when a client that makes its calls one after the other can
    block.  From a well-formed memory in which every mutex is free, no
    sequence of calls blocks before one of them panics: the run returns,
    with every mutex free again, those of the new contexts too, or it
    panics, and then every mutex is free but for one case, the panic of
    [AddProp] (or [SetValue], [AddValue]) on a context whose [props] map
    is nil, which leaves the write lock of that context held.  A client
    that recovers from its panics therefore never blocks as long as it
    makes no such call; once it has, [Prop], [AddProp] and [SubContext]
    on that context block. *)
Theorem sequential_run_never_blocks ops st :
  valid st → all_unlocked st →
  run_ops ops st ≠ Blocked ∧
  (∀ u st', run_ops ops st = Ok (u, st') → valid st' ∧ all_unlocked st') ∧
  (∀ msg st', run_ops ops st = Panic msg st' →
     valid st' ∧
     (all_unlocked st' ∨
      msg = "assignment to entry in nil map" ∧ ∃ a, lock_leaked st' a)) ∧
  (no_nil_map_write ops st = true →
     run_ops_recovering ops st ≠ Blocked ∧
     ∀ u st', run_ops_recovering ops st = Ok (u, st') →
       valid st' ∧ all_unlocked st') ∧
  (∀ a x k v, heap st !! a = Some x → props x = None →
     AddProp (Some a) k v st
       = Panic "assignment to entry in nil map" (write_locked a x st) ∧
     lock_leaked (write_locked a x st) a ∧
     (∀ k', Prop_ (Some a) k' (write_locked a x st) = Blocked) ∧
     (∀ k' v', AddProp (Some a) k' v' (write_locked a x st) = Blocked) ∧
     SubContext (Some a) (write_locked a x st) = Blocked ∧
     run_ops_recovering [OpAddProp (Some a) k v; OpProp (Some a) k] st
       = Blocked).
Proof.
  intros Hv Hun. split; [|split; [|split; [|split]]].
  - revert st Hv Hun. induction ops as [|o ops IH]; intros st Hv Hun; [done|].
    pose proof (run_op_mutexes o st Hv Hun) as Hm.
    simpl. unfold mbind, M_bind, bind.
    destruct (run_op o st) as [[u1 s1]|msg s1|]; [|done..].
    destruct Hm as [Hv1 Hun1]. by apply IH.
  - revert st Hv Hun. induction ops as [|o ops IH]; intros st Hv Hun u st' H.
    + by injection H as _ <-.
    + pose proof (run_op_mutexes o st Hv Hun) as Hm.
      simpl in H. apply bind_inv in H as (u1 & s1 & Ho & H).
      rewrite Ho in Hm. destruct Hm as [Hv1 Hun1]. by apply (IH s1 Hv1 Hun1 u).
  - revert st Hv Hun.
    induction ops as [|o ops IH]; intros st Hv Hun msg st' H; [done|].
    pose proof (run_op_mutexes o st Hv Hun) as Hm.
    simpl in H. unfold mbind, M_bind, bind in H.
    destruct (run_op o st) as [[u1 s1]|msg1 s1|]; [| |done].
    + destruct Hm as [Hv1 Hun1]. by apply (IH s1 Hv1 Hun1).
    + injection H as <- <-. destruct Hm as [Hv1 [Hun1 | (-> & _ & Hleak)]];
        (split; [done|]); [by left|by right].
  - revert st Hv Hun.
    induction ops as [|o ops IH]; intros st Hv Hun Hfree.
    { split; [done|]. by intros u st' [= _ <-]. }
    pose proof (run_op_mutexes o st Hv Hun) as Hm.
    simpl in Hfree. apply andb_true_iff in Hfree as [Hno Hfree].
    apply negb_true_iff in Hno.
    assert (∃ u1 s1, recovered (run_op o) st = Ok (u1, s1) ∧
                     valid s1 ∧ all_unlocked s1) as (u1 & s1 & Ho & Hv1 & Hun1).
    { unfold recovered. destruct (run_op o st) as [[u1 s1]|msg1 s1|]; [| |done].
      - by exists u1, s1.
      - exists tt, s1. split; [done|].
        destruct Hm as [Hv1 [Hun1 | (_ & Hw & _)]]; [done|congruence]. }
    rewrite Ho in Hfree. destruct (IH s1 Hv1 Hun1 Hfree) as [Hnb Hok].
    simpl. erewrite bind_ok by exact Ho. done.
  - intros a x k v Ha Hp.
    assert (heap (write_locked a x st) !! a
            = Some (set_RWMutex {| writer := true; readers := 0 |} x)) as Hl
      by (simpl; apply lookup_insert_eq).
    assert (∀ k', Prop_ (Some a) k' (write_locked a x st) = Blocked) as Hprop
      by (intros k'; by apply (RLock_blocked a _ _ _ Hl)).
    assert (RWMutex x = RWMutex_zero) as Hmu by by apply (Hun a x).
    split; [by apply AddProp_nil_map|].
    split; [by apply lock_leaked_write_locked|]. split; [done|]. split.
    { intros k' v'. by apply (Lock_blocked a _ _ _ Hl). }
    split; [by apply (RLock_blocked a _ _ _ Hl)|].
    simpl. erewrite bind_ok; cycle 1.
    { unfold recovered. cbn [run_op]. by rewrite (AddProp_nil_map a x). }
    apply bind_blocked. unfold recovered. cbn [run_op].
    by erewrite bind_blocked by apply Hprop.
Qed.

(** ** The empty region *)

Lemma ungranted_inv st a :
  ungranted st a →
  valid st ∧
  ∃ x, heap st !! a = Some x ∧ privilege x = "" ∧ RWMutex x = RWMutex_zero.
Proof.
  induction 1 as [|prefix st a st' Hv Hnew
                 |prefix st a st' Hv Hnew
                 |appId st a st' Hv Hnew
                 |st a x b st' Hv Ha Hp Hsub
                 |st a x opName b st' Hv Ha Hp Hspan
                 |st a o u st' Hun IH Hng Hrun
                 |st a o msg st' Hun IH Hng Hrun].
  - split.
    + intros a x. simpl. by intros [_ <-]%lookup_singleton_Some.
    + exists Context_zero. split; [apply lookup_singleton_eq|done].
  - split.
    + eapply (run_op_frame (OpNewContext prefix) st tt st' Hv).
      simpl. by erewrite bind_ok by exact Hnew.
    + unfold NewContext in Hnew. rewrite newContext_ok in Hnew.
      injection Hnew as Ha Hs. subst a st'.
      eexists. split; [simpl; apply lookup_insert_eq|done].
  - split.
    + eapply (run_op_frame (OpTestContext prefix) st tt st' Hv).
      simpl. by erewrite bind_ok by exact Hnew.
    + unfold TestContext in Hnew. rewrite newContext_ok in Hnew.
      injection Hnew as Ha Hs. subst a st'.
      eexists. split; [simpl; apply lookup_insert_eq|done].
  - split.
    + eapply (run_op_frame (OpBenchContext appId) st tt st' Hv).
      simpl. by erewrite bind_ok by exact Hnew.
    + rewrite BenchContext_ok in Hnew.
      injection Hnew as Ha Hs. subst a st'.
      eexists. split; [simpl; apply lookup_insert_eq|done].
  - split.
    + eapply (run_op_frame (OpSubContext (Some a)) st tt st' Hv).
      simpl. by erewrite bind_ok by exact Hsub.
    + apply SubContext_inv in Hsub
        as (a0 & x0 & a' & r1 & r2 & [= <-] & Ha0 & _ & [= <-] & _ & _ & _ & _ & ->);
        [|done].
      assert (x0 = x) as -> by congruence.
      eexists. split; [simpl; apply lookup_insert_eq|done].
  - assert (frame (OpStartSpan (Some a) opName) st st') as (Hv' & _ & _ & _).
    { eapply (run_op_frame _ st tt st' Hv).
      simpl. by erewrite bind_ok by exact Hspan. }
    split; [done|].
    pose proof Hspan as H0. unfold StartSpan in H0.
    apply bind_inv in H0 as (c' & s1 & Hsub & _).
    pose proof Hsub as Hsub0.
    apply SubContext_inv in Hsub0
      as (a0 & x0 & a' & r1 & r2 & [= <-] & Ha0 & _ & -> & _ & _ & _ & _ & Hs1);
      [|done].
    assert (x0 = x) as -> by congruence.
    set (y := forked_context x (UUID (uuid_calls st)) r1 r2) in *.
    assert (heap s1 !! a' = Some y) as Hy
      by (rewrite Hs1; simpl; apply lookup_insert_eq).
    rewrite (StartSpan_ok (Some a) a' y opName st s1 Hsub Hy) in Hspan.
    injection Hspan as Hb Hs. subst b st'.
    change (Tracer y) with (Tracer x).
    destruct (Tracer x) as [t|].
    + destruct (traced_sealed (tracer_StartSpan t (Some a') opName)
                  (EvStartSpan t (Some a') opName) s1 a' y) as (z & Hz & Hsz);
        [done..|].
      injection Hsz as Hzm _ Hzp _. exists z. split; [done|].
      split; [by rewrite Hzp|by rewrite Hzm].
    + by exists y.
  - destruct IH as (Hv & x & Ha & Hp & Hmu).
    destruct (run_op_frame o st u st' Hv Hrun) as (Hv' & _ & Hold & _).
    destruct (Hold a x Ha) as (x' & Ha' & _ & Hmu' & Hpr).
    split; [done|]. exists x'. split; [done|]. split; [|congruence].
    destruct Hpr as [Heq | [[_ Hrev] | [r ->]]]; [congruence|done|].
    by destruct (Hng r).
  - destruct IH as (Hv & x & Ha & Hp & Hmu).
    destruct (run_op_panic o st msg st' Hv Hrun)
      as [-> | (b & y & Hw & Hb & _ & _ & _ & ->)]; [by eauto|].
    split; [by apply valid_write_locked|]. exists x.
    split; [|done]. simpl. rewrite lookup_insert_ne; [done|congruence].
Qed.

(** C9: the empty region cannot be told from no privilege.  On a context
    in the unprivileged state, the state of every context that was never
    granted a privilege ([NoContext], a context built by [NewContext],
    [TestContext] or [BenchContext], a fork of an unprivileged context,
    after any calls other than a [grantPrivilege] on it), [isPrivileged("")]
    returns true; it returns true right after any [revokePrivilege];
    and [revokePrivilege] is [grantPrivilege("")]: the two end the same
    way in every state, and leave the same state when they return. *)
Theorem empty_region_ambiguity :
  (∀ st a x, heap st !! a = Some x → writer (RWMutex x) = false →
             privilege x = "" →
             isPrivileged (Some a) "" st = Ok (true, st)) ∧
  (∀ st a, ungranted st a →
           ∃ x, heap st !! a = Some x ∧ privilege x = "" ∧
                isPrivileged (Some a) "" st = Ok (true, st)) ∧
  (∀ c s s', revokePrivilege c s = Ok (tt, s') →
             isPrivileged c "" s' = Ok (true, s')) ∧
  (∀ c s, revokePrivilege c s = grantPrivilege c "" s).
Proof.
  split; [|split; [|split; [|done]]].
  - intros st a x Ha Hw Hp. rewrite (isPrivileged_ok a x "" st Ha Hw).
    by rewrite Hp.
  - intros st a Hun.
    destruct (ungranted_inv st a Hun) as (_ & x & Ha & Hp & Hmu).
    exists x. do 2 (split; [done|]).
    rewrite (isPrivileged_ok a x "" st Ha) by by rewrite Hmu.
    by rewrite Hp.
  - intros c s s' Hrev.
    apply grantPrivilege_inv in Hrev as (b & x & -> & Hb & Hmu & ->).
    erewrite isPrivileged_ok;
      [|simpl; apply lookup_insert_eq|simpl; by rewrite Hmu].
    done.
Qed.

End core.

(** ** The concrete environment meets the contracts *)

Lemma seq_UUID_nonempty n : seq_UUID n ≠ "".
Proof. done. Qed.

Lemma seq_UUID_distinct i j : seq_UUID i = seq_UUID j → i = j.
Proof. unfold seq_UUID. simpl. intros [= H]. by apply (inj pretty). Qed.

Lemma stub_StartSpan_respectful t c opName :
  respectful (stub_StartSpan t c opName).
Proof.
  intros h ms. unfold stub_StartSpan. simpl.
  destruct c as [a|]; [|done].
  destruct (h !! a) as [x|]; [|done].
  destruct (logProps x) as [r|]; [|done].
  destruct (ms !! r) as [g|]; [|done].
  simpl. split; [done|]. intros Hv b y Hb. destruct (Hv b y Hb).
  split; by apply map_ok_insert.
Qed.

Lemma stub_StopSpan_respectful t c : respectful (stub_StopSpan t c).
Proof. by intros h ms. Qed.

Lemma valid_initial_state : valid initial_state.
Proof.
  intros a x. simpl. intros [_ <-]%lookup_singleton_Some. done.
Qed.

Lemma valid_app_state : valid app_state.
Proof.
  intros a x. simpl.
  intros [[_ <-] | [_ [_ <-]%lookup_singleton_Some]]%lookup_insert_Some;
    simpl; [done|].
  split; [by exists ∅|by eexists].
Qed.

Lemma valid_traced_state : valid traced_state.
Proof.
  intros a x. simpl.
  intros [[_ <-] | [_ [_ <-]%lookup_singleton_Some]]%lookup_insert_Some;
    simpl; [done|].
  split; [by exists ∅|by eexists].
Qed.

Lemma ids_issued_initial_state : ids_issued seq_UUID initial_state.
Proof.
  intros a x. simpl. intros [_ <-]%lookup_singleton_Some. by left.
Qed.

Lemma ids_issued_traced_state : ids_issued seq_UUID traced_state.
Proof.
  intros a x. simpl.
  intros [[_ <-] | [_ [_ <-]%lookup_singleton_Some]]%lookup_insert_Some;
    [by left|].
  right. exists 0. split; [simpl; lia|done].
Qed.

Lemma NewContext_app :
  NewContext seq_UUID 0%Z 0%Z "app" initial_state = Ok (Some 1, app_state).
Proof. vm_compute. reflexivity. Qed.

(** ** The theorems at concrete inputs *)

Lemma fork_isolation_witness :
  let st1 :=
    with_maps (<[2 := {[ "k" := VStr "v" ]}]> (maps app_state)) app_state in
  valid app_state ∧
  AddProp (Some 1) "k" (VStr "v") app_state = Ok (tt, st1) ∧
  ∃ child st2,
    SubContext seq_UUID (Some 1) st1 = Ok (child, st2) ∧ child ≠ Some 1 ∧
    Prop_ child "k" st2 = Ok (VStr "v", st2) ∧
    (∀ v2, ∃ st3, AddProp child "k" v2 st2 = Ok (tt, st3) ∧
                  Prop_ child "k" st3 = Ok (v2, st3) ∧
                  Prop_ (Some 1) "k" st3 = Ok (VStr "v", st3)) ∧
    (∀ k' v', ∃ st3, AddProp (Some 1) k' v' st2 = Ok (tt, st3) ∧
                     ∀ k'', ∃ w, Prop_ child k'' st2 = Ok (w, st2) ∧
                                 Prop_ child k'' st3 = Ok (w, st3)).
Proof.
  intros st1.
  assert (AddProp (Some 1) "k" (VStr "v") app_state = Ok (tt, st1)) as Hadd
    by (vm_compute; reflexivity).
  split; [exact valid_app_state|]. split; [exact Hadd|].
  exact (fork_isolation seq_UUID (Some 1) "k" (VStr "v") app_state tt st1
           valid_app_state Hadd).
Defined.

Lemma privilege_protocol_witness :
  heap app_state !! 1 = Some app_context ∧
  RWMutex app_context = RWMutex_zero ∧ "R" ≠ "R2" ∧
  ∃ st1,
    grantPrivilege (Some 1) "R" app_state = Ok (tt, st1) ∧
    isPrivileged (Some 1) "R" st1 = Ok (true, st1) ∧
    (∃ st2, revokePrivilege (Some 1) st1 = Ok (tt, st2) ∧
            isPrivileged (Some 1) "R" st2 = Ok (false, st2)) ∧
    (∃ st3, grantPrivilege (Some 1) "R2" st1 = Ok (tt, st3) ∧
            isPrivileged (Some 1) "R" st3 = Ok (false, st3) ∧
            isPrivileged (Some 1) "R2" st3 = Ok (true, st3)).
Proof.
  assert (heap app_state !! 1 = Some app_context) as Ha
    by (vm_compute; reflexivity).
  assert ("R" ≠ "R2") as Hne by discriminate.
  split; [exact Ha|]. split; [reflexivity|]. split; [exact Hne|].
  exact (privilege_protocol 1 app_context "R" "R2" app_state Ha eq_refl Hne).
Defined.

(** C3, counterexample: with the empty string for [r1] and ["R"] for [r2],
    [isPrivileged(r1)] after [revokePrivilege] returns true, not false. *)
Lemma privilege_protocol_empty_region :
  "" ≠ "R" ∧
  value_of ((c ← NewContext seq_UUID 0%Z 0%Z "app";
             grantPrivilege c "";;
             revokePrivilege c;;
             isPrivileged c "") initial_state) = Some true.
Proof. split; [discriminate|]. vm_compute. reflexivity. Qed.

Lemma location_round_trip_witness :
  heap app_state !! 1 = Some app_context ∧
  (∃ st1, SetLoc (Some 1) (Some 5) app_state = Ok (Some 5, st1) ∧
          GetLoc (Some 1) st1 = Ok (Some 5, st1)) ∧
  (∃ c st1, NewContext seq_UUID 0%Z 0%Z "app2" app_state = Ok (c, st1) ∧
            GetLoc c st1 = Ok (None, st1)) ∧
  GetLoc (Some 1) app_state = Ok (None, app_state).
Proof.
  assert (heap app_state !! 1 = Some app_context) as Ha
    by (vm_compute; reflexivity).
  destruct (location_round_trip seq_UUID 0%Z 0%Z 1 app_context 5 "app2"
              app_state Ha) as (Hset & Hnew & Hget).
  split; [exact Ha|]. split; [apply Hset; left; reflexivity|].
  split; [exact Hnew|]. apply Hget. discriminate.
Defined.

Lemma constructor_guarantees_witness :
  ids_issued seq_UUID initial_state ∧
  ∃ a x lp p st1,
    NewContext seq_UUID 0%Z 0%Z "app" initial_state = Ok (Some a, st1) ∧
    heap initial_state !! a = None ∧ heap st1 !! a = Some x ∧
    id x ≠ "" ∧ (∀ b y, heap initial_state !! b = Some y → id y ≠ id x) ∧
    Verbosity x = 0%Z ∧
    props x = Some p ∧ maps st1 !! p = Some ∅ ∧
    (∀ k, Prop_ (Some a) k st1 = Ok (VNil, st1)) ∧
    location x = VNil ∧ GetLoc (Some a) st1 = Ok (None, st1) ∧
    privilege x = "" ∧
    (∀ r, r ≠ "" → isPrivileged (Some a) r st1 = Ok (false, st1)) ∧
    logProps x = Some lp ∧ lp ≠ p ∧
    maps st1 !! lp = Some {[ "appId" := VStr "app" ]} ∧
    has_dot "appId" = false.
Proof.
  split; [exact ids_issued_initial_state|].
  exact (constructor_guarantees seq_UUID 0%Z 0%Z seq_UUID_nonempty
           seq_UUID_distinct "app" initial_state ids_issued_initial_state).
Defined.

Lemma span_wrapper_witness :
  valid traced_state ∧ ids_issued seq_UUID traced_state ∧
  heap traced_state !! 1 = Some (set_Tracer (Some 7) app_context) ∧
  writer (RWMutex (set_Tracer (Some 7) app_context)) = false ∧
  ∃ a' y st0 st1,
    SubContext seq_UUID (Some 1) traced_state = Ok (Some a', st0) ∧
    StartSpan seq_UUID stub_StartSpan (Some 1) "op" traced_state
      = Ok (Some a', st1) ∧
    a' ≠ 1 ∧ heap traced_state !! a' = None ∧ heap st0 !! a' = Some y ∧
    Logger y = None ∧ Tracer y = Some 7 ∧ App y = None ∧
    LogHook y = None ∧ PointHook y = None ∧ LogAccumulator y = None ∧
    map_content (maps st0) (props y) = map_content (maps traced_state) (Some 2) ∧
    map_content (maps st0) (logProps y)
      = map_content (maps traced_state) (Some 1) ∧
    (∃ i j, Id (Some a') st1 = Ok (i, st1) ∧
            Id (Some 1) st1 = Ok (j, st1) ∧ i ≠ j) ∧
    st1 = traced (stub_StartSpan 7 (Some a') "op")
            (EvStartSpan 7 (Some a') "op") st0 ∧
    trace st1 = [EvStartSpan 7 (Some a') "op"] ∧
    ∃ st2, StopSpan stub_StopSpan (Some a') st1 = Ok (tt, st2) ∧
           trace st2 = (trace st1 ++ [EvStopSpan 7 (Some a')])%list.
Proof.
  assert (heap traced_state !! 1 = Some (set_Tracer (Some 7) app_context))
    as Ha by (vm_compute; reflexivity).
  split; [exact valid_traced_state|].
  split; [exact ids_issued_traced_state|].
  split; [exact Ha|]. split; [reflexivity|].
  exact (span_wrapper seq_UUID stub_StartSpan stub_StopSpan seq_UUID_nonempty
           seq_UUID_distinct stub_StartSpan_respectful 1
           (set_Tracer (Some 7) app_context) "op" traced_state
           valid_traced_state ids_issued_traced_state Ha eq_refl).
Defined.

Lemma id_fresh_and_immutable_witness :
  let r := run_ops_recovering seq_UUID 0%Z 0%Z 0%Z (Some 9) stub_StartSpan
             stub_StopSpan leaking_calls app_state in
  let st' := default app_state (state_of r) in
  valid initial_state ∧ ids_issued seq_UUID initial_state ∧
  constructed seq_UUID 0%Z 0%Z 0%Z (Some 9) stub_StartSpan initial_state
    (Some 1) app_state ∧
  r = Ok (tt, st') ∧
  ∃ i,
    Id (Some 1) app_state = Ok (i, app_state) ∧ i = "uuid-0" ∧ i ≠ "" ∧
    (∀ b y, heap initial_state !! b = Some y → id y ≠ i) ∧
    (∃ child j st2, SubContext seq_UUID (Some 1) app_state = Ok (child, st2) ∧
                    Id child st2 = Ok (j, st2) ∧ j ≠ i ∧
                    Id (Some 1) st2 = Ok (i, st2)) ∧
    Id (Some 1) st' = Ok (i, st') ∧
    (∀ child st2, SubContext seq_UUID (Some 1) st' = Ok (child, st2) →
       ∃ j, Id child st2 = Ok (j, st2) ∧ j ≠ i ∧ Id (Some 1) st2 = Ok (i, st2)).
Proof.
  intros r st'.
  assert (constructed seq_UUID 0%Z 0%Z 0%Z (Some 9) stub_StartSpan
            initial_state (Some 1) app_state) as Hc
    by exact (or_introl (ex_intro _ "app" NewContext_app)).
  assert (r = Ok (tt, st')) as Hr by (vm_compute; reflexivity).
  split; [exact valid_initial_state|].
  split; [exact ids_issued_initial_state|].
  split; [exact Hc|]. split; [exact Hr|].
  exact (id_fresh_and_immutable seq_UUID 0%Z 0%Z 0%Z (Some 9) stub_StartSpan
           stub_StopSpan seq_UUID_nonempty seq_UUID_distinct
           stub_StartSpan_respectful stub_StopSpan_respectful (Some 1)
           leaking_calls initial_state app_state tt st' valid_initial_state
           ids_issued_initial_state Hc (or_intror Hr)).
Defined.

Lemma privilege_copied_at_fork_witness :
  valid app_state ∧ heap app_state !! 1 = Some app_context ∧
  RWMutex app_context = RWMutex_zero ∧
  ∃ a' y st1,
    SubContext seq_UUID (Some 1) app_state = Ok (Some a', st1) ∧ a' ≠ 1 ∧
    heap st1 !! a' = Some y ∧ heap st1 !! 1 = Some app_context ∧
    privilege y = "" ∧
    (∀ r, ∃ b, isPrivileged (Some a') r st1 = Ok (b, st1) ∧
               isPrivileged (Some 1) r st1 = Ok (b, st1)) ∧
    (∀ r, ∃ st2, grantPrivilege (Some 1) r st1 = Ok (tt, st2) ∧
                 heap st2 !! a' = Some y ∧ maps st2 = maps st1) ∧
    (∃ st2, revokePrivilege (Some 1) st1 = Ok (tt, st2) ∧
            heap st2 !! a' = Some y ∧ maps st2 = maps st1) ∧
    (∀ r, ∃ st2, grantPrivilege (Some a') r st1 = Ok (tt, st2) ∧
                 heap st2 !! 1 = Some app_context ∧ maps st2 = maps st1) ∧
    (∃ st2, revokePrivilege (Some a') st1 = Ok (tt, st2) ∧
            heap st2 !! 1 = Some app_context ∧ maps st2 = maps st1).
Proof.
  assert (heap app_state !! 1 = Some app_context) as Ha
    by (vm_compute; reflexivity).
  split; [exact valid_app_state|]. split; [exact Ha|]. split; [reflexivity|].
  exact (privilege_copied_at_fork seq_UUID 1 app_context app_state
           valid_app_state Ha eq_refl).
Defined.

Lemma empty_region_ambiguity_witness :
  let r := BenchContext seq_UUID 0%Z 0%Z 0%Z (Some 9) "bench" app_state in
  let st2 := default app_state (state_of r) in
  (heap app_state !! 1 = Some app_context ∧
   writer (RWMutex app_context) = false ∧ privilege app_context = "" ∧
   isPrivileged (Some 1) "" app_state = Ok (true, app_state)) ∧
  (ungranted seq_UUID 0%Z 0%Z 0%Z (Some 9) stub_StartSpan stub_StopSpan
     initial_state 0 ∧
   ∃ x, heap initial_state !! 0 = Some x ∧ privilege x = "" ∧
        isPrivileged NoContext "" initial_state = Ok (true, initial_state)) ∧
  (ungranted seq_UUID 0%Z 0%Z 0%Z (Some 9) stub_StartSpan stub_StopSpan
     st2 2 ∧
   ∃ x, heap st2 !! 2 = Some x ∧ privilege x = "" ∧
        isPrivileged (Some 2) "" st2 = Ok (true, st2)) ∧
  (∀ c s s', revokePrivilege c s = Ok (tt, s') →
             isPrivileged c "" s' = Ok (true, s')) ∧
  (∀ c s, revokePrivilege c s = grantPrivilege c "" s).
Proof.
  intros r st2.
  assert (heap app_state !! 1 = Some app_context) as Ha
    by (vm_compute; reflexivity).
  assert (r = Ok (Some 2, st2)) as Hr by (vm_compute; reflexivity).
  assert (ungranted seq_UUID 0%Z 0%Z 0%Z (Some 9) stub_StartSpan stub_StopSpan
            initial_state 0) as Hun0
    by exact (ungranted_NoContext seq_UUID 0%Z 0%Z 0%Z (Some 9) stub_StartSpan
                stub_StopSpan).
  assert (ungranted seq_UUID 0%Z 0%Z 0%Z (Some 9) stub_StartSpan stub_StopSpan
            st2 2) as Hun2
    by exact (ungranted_bench seq_UUID 0%Z 0%Z 0%Z (Some 9) stub_StartSpan
                stub_StopSpan "bench" app_state 2 st2 valid_app_state Hr).
  destruct (empty_region_ambiguity seq_UUID 0%Z 0%Z 0%Z (Some 9)
              stub_StartSpan stub_StopSpan stub_StartSpan_respectful
              stub_StopSpan_respectful) as (Hstate & Hnever & Hrev & Heq).
  split.
  { split; [exact Ha|]. do 2 (split; [reflexivity|]).
    exact (Hstate app_state 1 app_context Ha eq_refl eq_refl). }
  split; [split; [exact Hun0|exact (Hnever initial_state 0 Hun0)]|].
  split; [split; [exact Hun2|exact (Hnever st2 2 Hun2)]|].
  split; [exact Hrev|exact Heq].
Defined.

Lemma Log_nil_receiver_witness :
  heap app_state !! 1 = Some app_context ∧ Logger app_context = None ∧
  Log None 3%Z "op" [VStr "x"] app_state =
    Ok (tt, {| heap := heap app_state; maps := maps app_state;
               uuid_calls := uuid_calls app_state;
               trace := [EvLog DefaultLogger 3%Z [VSlice [VStr "x"]]] |}) ∧
  Log None 3%Z "op" [VStr "x"] app_state
    = Log (Some 1) 3%Z "op" [VStr "x"] app_state.
Proof.
  assert (heap app_state !! 1 = Some app_context) as Ha
    by (vm_compute; reflexivity).
  split; [exact Ha|]. split; [reflexivity|].
  exact (Log_nil_receiver 1 app_context 3%Z "op" [VStr "x"] app_state Ha
           eq_refl).
Defined.

(** C2: the call the default logger receives carries no operation name.
    With no [Logger] attached, [Log(3, "op", "x")] hands the default
    logger the level and the arguments only, so the operation names
    ["op"] and ["other"] leave the same trace; with logger 9 attached, the
    logger is handed the level, ["op"] and the arguments. *)
Lemma Log_default_logger_drops_op :
  let log (l : option LoggerRef) (op : string) :=
    trace <$> state_of ((c ← NewContext seq_UUID 0%Z 0%Z "app";
                         assign c (set_Logger l);;
                         Log c 3%Z op [VStr "x"]) initial_state) in
  log None "op" = Some [EvLog DefaultLogger 3%Z [VSlice [VStr "x"]]] ∧
  log None "op" = log None "other" ∧
  log (Some 9) "op"
    = Some [EvLog (AttachedLogger 9) 3%Z [VStr "op"; VSlice [VStr "x"]]].
Proof. vm_compute. repeat split. Qed.

(** ** More facts about the concrete environment *)

(** The memories of the concrete environment are the ones the calls
    build. *)
Lemma traced_state_built :
  (c ← NewContext seq_UUID 0%Z 0%Z "app";
   assign c (set_Tracer (Some 7));; mret c) initial_state
  = Ok (Some 1, traced_state).
Proof. vm_compute. reflexivity. Qed.

Lemma write_locked_state_built :
  Lock (Some 1) app_state = Ok (tt, write_locked_state).
Proof. vm_compute. reflexivity. Qed.

Lemma read_locked_state_built :
  RLock (Some 1) app_state = Ok (tt, read_locked_state).
Proof. vm_compute. reflexivity. Qed.

Lemma valid_write_locked_state : valid write_locked_state.
Proof.
  intros a x. simpl.
  intros [[_ <-] | [_ [_ <-]%lookup_singleton_Some]]%lookup_insert_Some;
    simpl; [done|].
  split; [by exists ∅|by eexists].
Qed.

Lemma valid_read_locked_state : valid read_locked_state.
Proof.
  intros a x. simpl.
  intros [[_ <-] | [_ [_ <-]%lookup_singleton_Some]]%lookup_insert_Some;
    simpl; [done|].
  split; [by exists ∅|by eexists].
Qed.

Lemma all_unlocked_traced_state : all_unlocked traced_state.
Proof.
  intros a x. simpl.
  by intros [[_ <-] | [_ [_ <-]%lookup_singleton_Some]]%lookup_insert_Some.
Qed.

Lemma all_unlocked_app_state : all_unlocked app_state.
Proof.
  intros a x. simpl.
  by intros [[_ <-] | [_ [_ <-]%lookup_singleton_Some]]%lookup_insert_Some.
Qed.

Lemma ids_issued_app_state : ids_issued seq_UUID app_state.
Proof.
  intros a x. simpl.
  intros [[_ <-] | [_ [_ <-]%lookup_singleton_Some]]%lookup_insert_Some;
    [by left|].
  right. exists 0. split; [simpl; lia|done].
Qed.

Lemma ids_distinct_app_state : ids_distinct app_state.
Proof.
  intros a b x y. simpl.
  intros [[<- <-] | [_ [<- <-]%lookup_singleton_Some]]%lookup_insert_Some
         [[<- <-] | [_ [<- <-]%lookup_singleton_Some]]%lookup_insert_Some;
    done.
Qed.

Lemma ids_distinct_traced_state : ids_distinct traced_state.
Proof.
  intros a b x y. simpl.
  intros [[<- <-] | [_ [<- <-]%lookup_singleton_Some]]%lookup_insert_Some
         [[<- <-] | [_ [<- <-]%lookup_singleton_Some]]%lookup_insert_Some;
    done.
Qed.

(** ** The further theorems at concrete inputs *)

Lemma AddProp_Prop_round_trip_witness :
  let st1 :=
    with_maps (<[2 := {[ "k" := VStr "v" ]}]> (maps app_state)) app_state in
  AddProp (Some 1) "k" (VStr "v") app_state = Ok (tt, st1) ∧
  Prop_ (Some 1) "k" st1 = Ok (VStr "v", st1) ∧
  (∀ k', k' ≠ "k" → ∃ w, Prop_ (Some 1) k' app_state = Ok (w, app_state) ∧
                         Prop_ (Some 1) k' st1 = Ok (w, st1)) ∧
  (∀ v2, ∃ st2, AddProp (Some 1) "k" v2 st1 = Ok (tt, st2) ∧
                Prop_ (Some 1) "k" st2 = Ok (v2, st2)) ∧
  (∃ st2, SetValue (Some 1) "k" (VStr "v") app_state = Ok (tt, st2) ∧
          Prop_ (Some 1) "k" st2 = Ok (VStr "v", st2)) ∧
  (∃ st2, AddValue (Some 1) "k" (VStr "v") app_state = Ok (tt, st2) ∧
          Prop_ (Some 1) "k" st2 = Ok (VStr "v", st2)).
Proof.
  intros st1.
  assert (AddProp (Some 1) "k" (VStr "v") app_state = Ok (tt, st1)) as Hadd
    by (vm_compute; reflexivity).
  split; [exact Hadd|].
  exact (AddProp_Prop_round_trip (Some 1) "k" (VStr "v") app_state tt st1 Hadd).
Defined.

Lemma nil_maps_context_witness :
  heap initial_state !! 0 = Some Context_zero ∧
  RWMutex Context_zero = RWMutex_zero ∧
  props Context_zero = None ∧ logProps Context_zero = None ∧
  Prop_ NoContext "k" initial_state = Ok (VNil, initial_state) ∧
  AddProp NoContext "k" (VStr "v") initial_state
    = Panic "assignment to entry in nil map"
        (write_locked 0 Context_zero initial_state) ∧
  SetLogValue NoContext "k" (VStr "v") initial_state
    = Panic "assignment to entry in nil map" initial_state ∧
  ∃ child st1,
    SubContext seq_UUID NoContext initial_state = Ok (child, st1) ∧
    (∃ st2, AddProp child "k" (VStr "v") st1 = Ok (tt, st2) ∧
            Prop_ child "k" st2 = Ok (VStr "v", st2)) ∧
    (∃ st2, SetLogValue child "k" (VStr "v") st1 = Ok (tt, st2)).
Proof.
  assert (heap initial_state !! 0 = Some Context_zero) as Ha
    by (vm_compute; reflexivity).
  split; [exact Ha|]. do 3 (split; [reflexivity|]).
  exact (nil_maps_context seq_UUID 0 Context_zero "k" (VStr "v") initial_state
           Ha eq_refl eq_refl eq_refl).
Defined.

Lemma SetLoc_last_store_wins_witness :
  heap app_state !! 1 = Some app_context ∧
  dyn_type (location app_context) = None ∧
  ∃ st1 st2,
    SetLoc (Some 1) (Some 5) app_state = Ok (Some 5, st1) ∧
    SetLoc (Some 1) None st1 = Ok (None, st2) ∧
    GetLoc (Some 1) st2 = Ok (None, st2) ∧
    Location (Some 1) st2 = Ok (None, st2) ∧
    heap st2 = <[1 := set_location (VLoc None) app_context]> (heap app_state) ∧
    maps st2 = maps app_state ∧ uuid_calls st2 = uuid_calls app_state ∧
    trace st2 = trace app_state.
Proof.
  assert (heap app_state !! 1 = Some app_context) as Ha
    by (vm_compute; reflexivity).
  split; [exact Ha|]. split; [reflexivity|].
  exact (SetLoc_last_store_wins 1 app_context (Some 5) None app_state Ha
           (or_introl eq_refl)).
Defined.

Lemma location_copied_at_fork_witness :
  valid app_state ∧ heap app_state !! 1 = Some app_context ∧
  writer (RWMutex app_context) = false ∧
  ∃ a' st1 l,
    SubContext seq_UUID (Some 1) app_state = Ok (Some a', st1) ∧
    GetLoc (Some 1) app_state = Ok (l, app_state) ∧
    GetLoc (Some a') st1 = Ok (l, st1) ∧
    GetLoc (Some 1) st1 = Ok (l, st1) ∧
    (∀ l2, ∃ st2, SetLoc (Some a') l2 st1 = Ok (l2, st2) ∧
                  GetLoc (Some a') st2 = Ok (l2, st2) ∧
                  GetLoc (Some 1) st2 = Ok (l, st2)) ∧
    (∀ l2 st2, SetLoc (Some 1) l2 st1 = Ok (l2, st2) →
               GetLoc (Some 1) st2 = Ok (l2, st2) ∧
               GetLoc (Some a') st2 = Ok (l, st2)).
Proof.
  assert (heap app_state !! 1 = Some app_context) as Ha
    by (vm_compute; reflexivity).
  split; [exact valid_app_state|]. split; [exact Ha|]. split; [reflexivity|].
  exact (location_copied_at_fork seq_UUID 1 app_context app_state
           valid_app_state Ha eq_refl).
Defined.

Lemma logProps_copied_at_fork_witness :
  let st1 :=
    with_maps (<[1 := <["user" := VStr "u"]> {[ "appId" := VStr "app" ]}]>
                 (maps app_state)) app_state in
  valid app_state ∧ heap app_state !! 1 = Some app_context ∧
  writer (RWMutex app_context) = false ∧
  SetLogValue (Some 1) "user" (VStr "u") app_state = Ok (tt, st1) ∧
  heap st1 !! 1 = Some app_context ∧
  map_content (maps st1) (Some 1) !! "user" = Some (VStr "u") ∧
  ∃ a' y st2,
    SubContext seq_UUID (Some 1) st1 = Ok (Some a', st2) ∧
    heap st2 !! a' = Some y ∧ logProps y ≠ Some 1 ∧
    map_content (maps st2) (logProps y) = map_content (maps st1) (Some 1) ∧
    (∀ k2 v2, ∃ st3,
       SetLogValue (Some a') k2 v2 st2 = Ok (tt, st3) ∧
       map_content (maps st3) (logProps y) !! k2 = Some v2 ∧
       map_content (maps st3) (Some 1) = map_content (maps st1) (Some 1)) ∧
    (∀ k2 v2, ∃ st3,
       SetLogValue (Some 1) k2 v2 st2 = Ok (tt, st3) ∧
       map_content (maps st3) (Some 1) !! k2 = Some v2 ∧
       map_content (maps st3) (logProps y) = map_content (maps st1) (Some 1)).
Proof.
  intros st1.
  assert (heap app_state !! 1 = Some app_context) as Ha
    by (vm_compute; reflexivity).
  assert (SetLogValue (Some 1) "user" (VStr "u") app_state = Ok (tt, st1))
    as Hset by (vm_compute; reflexivity).
  split; [exact valid_app_state|]. split; [exact Ha|]. split; [reflexivity|].
  split; [exact Hset|].
  exact (logProps_copied_at_fork seq_UUID 1 app_context "user" (VStr "u")
           app_state tt st1 valid_app_state Ha eq_refl Hset).
Defined.

Lemma SubContext_leaves_memory_witness :
  let x := set_RWMutex {| writer := false; readers := 1 |} app_context in
  valid read_locked_state ∧ heap read_locked_state !! 1 = Some x ∧
  writer (RWMutex x) = false ∧
  ∃ a' y st1,
    SubContext seq_UUID (Some 1) read_locked_state = Ok (Some a', st1) ∧
    heap read_locked_state !! a' = None ∧ heap st1 !! a' = Some y ∧
    (∀ b z, heap read_locked_state !! b = Some z → heap st1 !! b = Some z) ∧
    (∀ b, b ≠ a' → heap st1 !! b = heap read_locked_state !! b) ∧
    (∀ r g, maps read_locked_state !! r = Some g → maps st1 !! r = Some g) ∧
    uuid_calls st1 = 2 ∧ trace st1 = [] ∧
    Verbosity y = 0%Z ∧ ReadKey y = "" ∧ WriteKey y = "" ∧
    LogAccumulatorLevel y = 0%Z ∧ Ctx y = ctx_Background ∧
    RWMutex y = RWMutex_zero ∧ id y = "uuid-1".
Proof.
  intros x.
  assert (heap read_locked_state !! 1 = Some x) as Ha
    by (vm_compute; reflexivity).
  split; [exact valid_read_locked_state|]. split; [exact Ha|].
  split; [reflexivity|].
  exact (SubContext_leaves_memory seq_UUID 1 x read_locked_state
           valid_read_locked_state Ha eq_refl).
Defined.

Lemma sibling_isolation_witness :
  valid app_state ∧ heap app_state !! 1 = Some app_context ∧
  writer (RWMutex app_context) = false ∧
  ∃ c1 c2 st1 st2,
    SubContext seq_UUID (Some 1) app_state = Ok (c1, st1) ∧
    SubContext seq_UUID (Some 1) st1 = Ok (c2, st2) ∧ c1 ≠ c2 ∧
    (∀ k, ∃ w, Prop_ (Some 1) k app_state = Ok (w, app_state) ∧
               Prop_ c1 k st2 = Ok (w, st2) ∧
               Prop_ c2 k st2 = Ok (w, st2)) ∧
    (∀ k v, ∃ st3,
       AddProp c1 k v st2 = Ok (tt, st3) ∧
       Prop_ c1 k st3 = Ok (v, st3) ∧
       ∀ k', ∃ w, Prop_ (Some 1) k' app_state = Ok (w, app_state) ∧
                  Prop_ c2 k' st3 = Ok (w, st3) ∧
                  Prop_ (Some 1) k' st3 = Ok (w, st3)).
Proof.
  assert (heap app_state !! 1 = Some app_context) as Ha
    by (vm_compute; reflexivity).
  split; [exact valid_app_state|]. split; [exact Ha|]. split; [reflexivity|].
  exact (sibling_isolation seq_UUID 1 app_context app_state valid_app_state
           Ha eq_refl).
Defined.

Lemma write_locked_context_witness :
  let x := set_RWMutex {| writer := true; readers := 0 |} app_context in
  valid write_locked_state ∧ heap write_locked_state !! 1 = Some x ∧
  writer (RWMutex x) = true ∧
  (∀ k, Prop_ (Some 1) k write_locked_state = Blocked) ∧
  (∀ k v, AddProp (Some 1) k v write_locked_state = Blocked) ∧
  (∀ r, grantPrivilege (Some 1) r write_locked_state = Blocked) ∧
  revokePrivilege (Some 1) write_locked_state = Blocked ∧
  (∀ r, isPrivileged (Some 1) r write_locked_state = Blocked) ∧
  SubContext seq_UUID (Some 1) write_locked_state = Blocked ∧
  (∀ opName, StartSpan seq_UUID stub_StartSpan (Some 1) opName
               write_locked_state = Blocked) ∧
  Id (Some 1) write_locked_state = Ok ("uuid-0", write_locked_state) ∧
  (∃ l, GetLoc (Some 1) write_locked_state = Ok (l, write_locked_state)) ∧
  (∀ l, ∃ st1, SetLoc (Some 1) l write_locked_state = Ok (l, st1)) ∧
  (∀ k v, ∃ st1, SetLogValue (Some 1) k v write_locked_state = Ok (tt, st1)) ∧
  (∃ st1, StopSpan stub_StopSpan (Some 1) write_locked_state = Ok (tt, st1)) ∧
  (∀ level op args,
     ∃ st1, Log (Some 1) level op args write_locked_state = Ok (tt, st1)).
Proof.
  intros x.
  assert (heap write_locked_state !! 1 = Some x) as Ha
    by (vm_compute; reflexivity).
  destruct (write_locked_context seq_UUID stub_StartSpan stub_StopSpan 1 x
              write_locked_state valid_write_locked_state Ha eq_refl)
    as (H1 & H2 & H3 & H4 & H5 & H6 & H7 & H8 & H9 & H10 & H11 & H12 & H13).
  split; [exact valid_write_locked_state|]. split; [exact Ha|].
  split; [reflexivity|].
  do 9 (split; [assumption|]).
  split; [exact (H10 (or_introl eq_refl))|].
  split; [apply H11; discriminate|].
  split; assumption.
Defined.

Lemma read_locked_context_witness :
  let x := set_RWMutex {| writer := false; readers := 1 |} app_context in
  valid read_locked_state ∧ heap read_locked_state !! 1 = Some x ∧
  RWMutex x = {| writer := false; readers := 1 |} ∧
  (∀ k, ∃ w, Prop_ (Some 1) k read_locked_state = Ok (w, read_locked_state)) ∧
  (∀ r, isPrivileged (Some 1) r read_locked_state
        = Ok (bool_decide ("" = r), read_locked_state)) ∧
  (∃ child st1, SubContext seq_UUID (Some 1) read_locked_state
                  = Ok (child, st1) ∧
                heap st1 !! 1 = Some x) ∧
  (∀ k v, AddProp (Some 1) k v read_locked_state = Blocked) ∧
  (∀ r, grantPrivilege (Some 1) r read_locked_state = Blocked) ∧
  revokePrivilege (Some 1) read_locked_state = Blocked.
Proof.
  intros x.
  assert (heap read_locked_state !! 1 = Some x) as Ha
    by (vm_compute; reflexivity).
  split; [exact valid_read_locked_state|]. split; [exact Ha|].
  split; [reflexivity|].
  exact (read_locked_context seq_UUID 1 x 0 read_locked_state
           valid_read_locked_state Ha eq_refl).
Defined.

Lemma nil_receiver_panics_witness :
  let run := run_op seq_UUID 0%Z 0%Z 0%Z (Some 9) stub_StartSpan
               stub_StopSpan in
  (∀ loc, SetLoc None loc app_state = Panic nil_deref app_state) ∧
  GetLoc None app_state = Panic nil_deref app_state ∧
  Location None app_state = Panic nil_deref app_state ∧
  (∀ prop, Prop_ None prop app_state = Panic nil_deref app_state) ∧
  (∀ prop val, AddProp None prop val app_state = Panic nil_deref app_state) ∧
  (∀ name val, SetValue None name val app_state
               = Panic nil_deref app_state) ∧
  (∀ name val, AddValue None name val app_state
               = Panic nil_deref app_state) ∧
  Id None app_state = Panic nil_deref app_state ∧
  (∀ region, grantPrivilege None region app_state
             = Panic nil_deref app_state) ∧
  revokePrivilege None app_state = Panic nil_deref app_state ∧
  (∀ region, isPrivileged None region app_state
             = Panic nil_deref app_state) ∧
  (∀ name val, SetLogValue None name val app_state
               = Panic nil_deref app_state) ∧
  SubContext seq_UUID None app_state = Panic nil_deref app_state ∧
  (∀ opName, StartSpan seq_UUID stub_StartSpan None opName app_state
             = Panic nil_deref app_state) ∧
  StopSpan stub_StopSpan None app_state = Panic nil_deref app_state ∧
  (∀ level op args, ∃ st1, Log None level op args app_state = Ok (tt, st1)) ∧
  (run (OpLocation None) app_state = Panic nil_deref app_state ∧
   recovered (run (OpLocation None)) app_state = Ok (tt, app_state)) ∧
  (run (OpSetValue None "k" VNil) app_state = Panic nil_deref app_state ∧
   recovered (run (OpSetValue None "k" VNil)) app_state
   = Ok (tt, app_state)) ∧
  (run (OpAddValue None "k" VNil) app_state = Panic nil_deref app_state ∧
   recovered (run (OpAddValue None "k" VNil)) app_state
   = Ok (tt, app_state)) ∧
  (run (OpStartSpan None "op") app_state = Panic nil_deref app_state ∧
   recovered (run (OpStartSpan None "op")) app_state = Ok (tt, app_state)).
Proof.
  intros run.
  destruct (nil_receiver_panics seq_UUID 0%Z 0%Z 0%Z (Some 9) stub_StartSpan
              stub_StopSpan app_state)
    as (H1 & H2 & H3 & H4 & H5 & H6 & H7 & H8 & H9 & H10 & H11 & H12 & H13
        & H14 & H15 & H16 & H17).
  do 16 (split; [assumption|]).
  split; [exact (H17 (OpLocation None) eq_refl eq_refl)|].
  split; [exact (H17 (OpSetValue None "k" VNil) eq_refl eq_refl)|].
  split; [exact (H17 (OpAddValue None "k" VNil) eq_refl eq_refl)|].
  exact (H17 (OpStartSpan None "op") eq_refl eq_refl).
Defined.

Lemma sequential_run_never_blocks_witness :
  let run := run_ops seq_UUID 0%Z 0%Z 0%Z (Some 9) stub_StartSpan
               stub_StopSpan in
  let rec := run_ops_recovering seq_UUID 0%Z 0%Z 0%Z (Some 9) stub_StartSpan
               stub_StopSpan in
  let locked := write_locked 0 Context_zero app_state in
  (valid traced_state ∧ all_unlocked traced_state ∧
   run sample_calls traced_state ≠ Blocked ∧
   (∀ u st', run sample_calls traced_state = Ok (u, st') →
             valid st' ∧ all_unlocked st')) ∧
  (valid app_state ∧ all_unlocked app_state ∧
   no_nil_map_write seq_UUID 0%Z 0%Z 0%Z (Some 9) stub_StartSpan
     stub_StopSpan panicking_calls app_state = true ∧
   heap app_state !! 0 = Some Context_zero ∧ props Context_zero = None ∧
   (∀ msg st', run panicking_calls app_state = Panic msg st' →
      valid st' ∧
      (all_unlocked st' ∨
       msg = "assignment to entry in nil map" ∧ ∃ a, lock_leaked st' a)) ∧
   rec panicking_calls app_state ≠ Blocked ∧
   (∀ u st', rec panicking_calls app_state = Ok (u, st') →
             valid st' ∧ all_unlocked st') ∧
   AddProp NoContext "k" VNil app_state
     = Panic "assignment to entry in nil map" locked ∧
   lock_leaked locked 0 ∧
   (∀ k', Prop_ NoContext k' locked = Blocked) ∧
   (∀ k' v', AddProp NoContext k' v' locked = Blocked) ∧
   SubContext seq_UUID NoContext locked = Blocked ∧
   rec [OpAddProp NoContext "k" VNil; OpProp NoContext "k"] app_state
     = Blocked).
Proof.
  intros run rec locked.
  assert (heap app_state !! 0 = Some Context_zero) as Ha
    by (vm_compute; reflexivity).
  assert (no_nil_map_write seq_UUID 0%Z 0%Z 0%Z (Some 9) stub_StartSpan
            stub_StopSpan panicking_calls app_state = true) as Hfree
    by (vm_compute; reflexivity).
  destruct (sequential_run_never_blocks seq_UUID 0%Z 0%Z 0%Z (Some 9)
              stub_StartSpan stub_StopSpan stub_StartSpan_respectful
              stub_StopSpan_respectful sample_calls traced_state
              valid_traced_state all_unlocked_traced_state)
    as (Hnb & Hok & _).
  destruct (sequential_run_never_blocks seq_UUID 0%Z 0%Z 0%Z (Some 9)
              stub_StartSpan stub_StopSpan stub_StartSpan_respectful
              stub_StopSpan_respectful panicking_calls app_state
              valid_app_state all_unlocked_app_state)
    as (_ & _ & Hpanic & Hrec & Hleak).
  destruct (Hrec Hfree) as [Hrnb Hrok].
  destruct (Hleak 0 Context_zero "k" VNil Ha eq_refl)
    as (H1 & H2 & H3 & H4 & H5 & H6).
  split.
  { split; [exact valid_traced_state|].
    split; [exact all_unlocked_traced_state|]. split; [exact Hnb|exact Hok]. }
  split; [exact valid_app_state|]. split; [exact all_unlocked_app_state|].
  split; [exact Hfree|]. split; [exact Ha|]. split; [reflexivity|].
  split; [exact Hpanic|]. split; [exact Hrnb|]. split; [exact Hrok|].
  split; [exact H1|]. split; [exact H2|]. split; [exact H3|].
  split; [exact H4|]. split; [exact H5|exact H6].
Defined.

Lemma ids_stay_distinct_witness :
  let r1 := run_ops seq_UUID 0%Z 0%Z 0%Z (Some 9) stub_StartSpan
              stub_StopSpan sample_calls traced_state in
  let st1 := default traced_state (state_of r1) in
  let r2 := run_ops_recovering seq_UUID 0%Z 0%Z 0%Z (Some 9) stub_StartSpan
              stub_StopSpan leaking_calls app_state in
  let st2 := default app_state (state_of r2) in
  (valid traced_state ∧ ids_issued seq_UUID traced_state ∧
   ids_distinct traced_state ∧ r1 = Ok (tt, st1) ∧
   ids_issued seq_UUID st1 ∧ ids_distinct st1 ∧
   (∀ a x, heap traced_state !! a = Some x →
      ∃ x', heap st1 !! a = Some x' ∧ id x' = id x) ∧
   (∀ a y, heap traced_state !! a = None → heap st1 !! a = Some y →
      id y ≠ "" ∧
      ∃ i, (uuid_calls traced_state ≤ i < uuid_calls st1)%nat ∧
           id y = seq_UUID i)) ∧
  (valid app_state ∧ ids_issued seq_UUID app_state ∧
   ids_distinct app_state ∧ r2 = Ok (tt, st2) ∧
   ids_issued seq_UUID st2 ∧ ids_distinct st2 ∧
   (∀ a x, heap app_state !! a = Some x →
      ∃ x', heap st2 !! a = Some x' ∧ id x' = id x) ∧
   (∀ a y, heap app_state !! a = None → heap st2 !! a = Some y →
      id y ≠ "" ∧
      ∃ i, (uuid_calls app_state ≤ i < uuid_calls st2)%nat ∧
           id y = seq_UUID i)).
Proof.
  intros r1 st1 r2 st2.
  assert (r1 = Ok (tt, st1)) as Hr1 by (vm_compute; reflexivity).
  assert (r2 = Ok (tt, st2)) as Hr2 by (vm_compute; reflexivity).
  split.
  - split; [exact valid_traced_state|].
    split; [exact ids_issued_traced_state|].
    split; [exact ids_distinct_traced_state|]. split; [exact Hr1|].
    exact (ids_stay_distinct seq_UUID 0%Z 0%Z 0%Z (Some 9) stub_StartSpan
             stub_StopSpan seq_UUID_nonempty seq_UUID_distinct
             stub_StartSpan_respectful stub_StopSpan_respectful sample_calls
             traced_state tt st1 valid_traced_state ids_issued_traced_state
             ids_distinct_traced_state (or_introl Hr1)).
  - split; [exact valid_app_state|].
    split; [exact ids_issued_app_state|].
    split; [exact ids_distinct_app_state|]. split; [exact Hr2|].
    exact (ids_stay_distinct seq_UUID 0%Z 0%Z 0%Z (Some 9) stub_StartSpan
             stub_StopSpan seq_UUID_nonempty seq_UUID_distinct
             stub_StartSpan_respectful stub_StopSpan_respectful leaking_calls
             app_state tt st2 valid_app_state ids_issued_app_state
             ids_distinct_app_state (or_intror Hr2)).
Defined.

Lemma StopSpan_unchecked_witness :
  heap traced_state !! 1 = Some (set_Tracer (Some 7) app_context) ∧
  Tracer (set_Tracer (Some 7) app_context) = Some 7 ∧
  ∃ st1 st2,
    StopSpan stub_StopSpan (Some 1) traced_state = Ok (tt, st1) ∧
    StopSpan stub_StopSpan (Some 1) st1 = Ok (tt, st2) ∧
    trace st2 = [EvStopSpan 7 (Some 1); EvStopSpan 7 (Some 1)].
Proof.
  assert (heap traced_state !! 1 = Some (set_Tracer (Some 7) app_context))
    as Ha by (vm_compute; reflexivity).
  split; [exact Ha|]. split; [reflexivity|].
  exact (StopSpan_unchecked stub_StopSpan stub_StopSpan_respectful 1
           (set_Tracer (Some 7) app_context) 7 traced_state Ha eq_refl).
Defined.

Lemma StartSpan_nests_witness :
  valid traced_state ∧
  heap traced_state !! 1 = Some (set_Tracer (Some 7) app_context) ∧
  writer (RWMutex (set_Tracer (Some 7) app_context)) = false ∧
  Tracer (set_Tracer (Some 7) app_context) = Some 7 ∧
  ∃ a1 a2 st1 st2,
    StartSpan seq_UUID stub_StartSpan (Some 1) "op1" traced_state
      = Ok (Some a1, st1) ∧
    StartSpan seq_UUID stub_StartSpan (Some a1) "op2" st1
      = Ok (Some a2, st2) ∧
    a1 ≠ 1 ∧ a2 ≠ 1 ∧ a2 ≠ a1 ∧
    trace st2 = [EvStartSpan 7 (Some a1) "op1"; EvStartSpan 7 (Some a2) "op2"].
Proof.
  assert (heap traced_state !! 1 = Some (set_Tracer (Some 7) app_context))
    as Ha by (vm_compute; reflexivity).
  split; [exact valid_traced_state|]. split; [exact Ha|].
  split; [reflexivity|]. split; [reflexivity|].
  exact (StartSpan_nests seq_UUID stub_StartSpan stub_StartSpan_respectful 1
           (set_Tracer (Some 7) app_context) 7 "op1" "op2" traced_state
           valid_traced_state Ha eq_refl eq_refl).
Defined.
